(** * shopify-product-scraper: a shallow embedding of [shopify-scraper.js]

    The class [ShopifyScraper] is embedded method by method.  The pieces of
    the JavaScript runtime the class leans on (strings, regular expressions,
    IEEE-754 numbers, [parseFloat], [Math.min] and [Math.max], untyped
    values) are modelled first, in the module [JS].  The class follows,
    written in a small monad of state, exceptions and fuel over an explicit
    model of the network, the clock and the disk.  Then come the vocabulary
    of the properties, sample inputs, facts about the runtime model and
    about runs, and last the properties of the scraper themselves. *)

From Stdlib Require Import List String Ascii Bool Arith ZArith Lia.
From Stdlib Require Import SpecFloat DecimalString.
Import ListNotations.

Local Open Scope list_scope.
Local Open Scope string_scope.
Local Open Scope nat_scope.

(* ================================================================== *)
(** * The JavaScript runtime, as far as the scraper uses it *)
(* ================================================================== *)

Module JS.

(** ** Strings

    A string is a sequence of code units; the model keeps the code units
    below 256 ([ascii]), which covers every character the scraper's own
    literals and patterns mention. *)

Definition char_code (c : ascii) : nat := nat_of_ascii c.

Definition is_digit (c : ascii) : bool :=
  (48 <=? char_code c) && (char_code c <=? 57).

(** [WhiteSpace] and [LineTerminator] code units below 256: TAB, LF, VT, FF,
    CR, SPACE and NBSP.  They are what [trim] and [\s] recognise. *)
Definition is_space (c : ascii) : bool :=
  let n := char_code c in
  (n =? 9) || (n =? 10) || (n =? 11) || (n =? 12) || (n =? 13)
  || (n =? 32) || (n =? 160).

(** Case folding of the [i] flag, on the letters A-Z. *)
Definition to_lower (c : ascii) : ascii :=
  let n := char_code c in
  if (65 <=? n) && (n <=? 90) then ascii_of_nat (n + 32) else c.

(** [s.startsWith(p)] *)
Fixpoint startsWith (s p : string) : bool :=
  match p, s with
  | EmptyString, _ => true
  | String a p', String b s' => Ascii.eqb a b && startsWith s' p'
  | String _ _, EmptyString => false
  end.

(** [s.endsWith(p)] *)
Fixpoint endsWith (s p : string) : bool :=
  String.eqb s p ||
  match s with
  | EmptyString => false
  | String _ s' => endsWith s' p
  end.

(** [s.includes(p)] *)
Fixpoint includes (s p : string) : bool :=
  startsWith s p ||
  match s with
  | EmptyString => false
  | String _ s' => includes s' p
  end.

Fixpoint trimStart (s : string) : string :=
  match s with
  | String c s' => if is_space c then trimStart s' else s
  | EmptyString => EmptyString
  end.

Fixpoint trimEnd (s : string) : string :=
  match s with
  | EmptyString => EmptyString
  | String c s' =>
      match trimEnd s' with
      | EmptyString => if is_space c then EmptyString else String c EmptyString
      | t => String c t
      end
  end.

(** [s.trim()] *)
Definition trim (s : string) : string := trimEnd (trimStart s).

(** [s.slice(0, -1)] *)
Fixpoint slice_0_m1 (s : string) : string :=
  match s with
  | EmptyString => EmptyString
  | String c EmptyString => EmptyString
  | String c s' => String c (slice_0_m1 s')
  end.

(** [s.split(sep)] for a one-character separator: the pieces between the
    occurrences of [sep]; never empty. *)
Fixpoint split (sep : ascii) (s : string) : list string :=
  match s with
  | EmptyString => [EmptyString]
  | String c s' =>
      if Ascii.eqb c sep then EmptyString :: split sep s'
      else match split sep s' with
           | piece :: rest => String c piece :: rest
           | [] => [String c EmptyString]
           end
  end.

(** [arr.pop()] read as an expression: the last element. *)
Definition pop (l : list string) : option string :=
  match rev l with
  | x :: _ => Some x
  | [] => None
  end.

(** ** Numbers

    A JavaScript number is an IEEE-754 binary64 value.  [spec_float] is the
    Standard Library's specification of such values (Flocq's
    [full_float] without payloads); the operations are taken at precision
    53 and maximal exponent 1024. *)

Definition number := spec_float.

Definition prec : Z := 53.
Definition emax : Z := 1024.

Definition NaN : number := S754_nan.
Definition Infinity : number := S754_infinity false.
Definition neg_Infinity : number := S754_infinity true.

(** [isNaN(x)] on a number *)
Definition isNaN (x : number) : bool :=
  match x with S754_nan => true | _ => false end.

(** [x === y] on numbers: [NaN] differs from everything, the two zeros are
    equal. *)
Definition num_eq (x y : number) : bool := SFeqb x y.

(** [x < y] on numbers *)
Definition num_lt (x y : number) : bool := SFltb x y.

Definition is_neg_zero (x : number) : bool :=
  match x with S754_zero true => true | _ => false end.

Definition is_pos_zero (x : number) : bool :=
  match x with S754_zero false => true | _ => false end.

(** [Math.min(...xs)], as ECMA-262 words it: [NaN] if any argument is;
    otherwise start from [+Infinity], let [-0] replace [+0], and let any
    smaller number replace the running lowest. *)
Definition min_step (lowest x : number) : number :=
  if is_neg_zero x && is_pos_zero lowest then x
  else if num_lt x lowest then x else lowest.

Definition Math_min (xs : list number) : number :=
  if existsb isNaN xs then NaN else fold_left min_step xs Infinity.

(** [Math.max(...xs)], dually, from [-Infinity]. *)
Definition max_step (highest x : number) : number :=
  if is_pos_zero x && is_neg_zero highest then x
  else if num_lt highest x then x else highest.

Definition Math_max (xs : list number) : number :=
  if existsb isNaN xs then NaN else fold_left max_step xs neg_Infinity.

(** ** Regular expressions

    A backtracking matcher for the fragment the scraper's patterns are
    written in: character classes, concatenation, greedy and lazy repetition
    of a class, capture groups and the end anchor.  Alternatives are tried
    in the order ECMA-262 prescribes (greedy: longest first; lazy: shortest
    first), and a search tries start positions from left to right. *)

Inductive regex : Type :=
| Eps                               (* the empty pattern *)
| Chr (p : ascii -> bool)           (* one character of a class *)
| Cat (r1 r2 : regex)               (* r1 r2 *)
| Star (p : ascii -> bool)          (* [p]*  *)
| LazyStar (p : ascii -> bool)      (* [p]*? *)
| Group (r : regex)                 (* ( r ) *)
| Eos.                              (* $ *)

(** [[p]+] *)
Definition Plus (p : ascii -> bool) : regex := Cat (Chr p) (Star p).

Definition one (a : ascii) : ascii -> bool := fun c => Ascii.eqb c a.
Definition one_i (a : ascii) : ascii -> bool :=
  fun c => Ascii.eqb (to_lower c) (to_lower a).
Definition none_of (a : ascii) : ascii -> bool := fun c => negb (Ascii.eqb c a).
Definition any : ascii -> bool := fun _ => true.

(** A literal, and a literal under the [i] flag. *)
Fixpoint lit (s : string) : regex :=
  match s with
  | String a s' => Cat (Chr (one a)) (lit s')
  | EmptyString => Eps
  end.

Fixpoint lit_i (s : string) : regex :=
  match s with
  | String a s' => Cat (Chr (one_i a)) (lit_i s')
  | EmptyString => Eps
  end.

(** The part of [s] in front of its suffix [s']. *)
Definition consumed (s s' : string) : string :=
  substring 0 (String.length s - String.length s') s.

Section Matcher.
Context {R : Type}.

Fixpoint star (p : ascii -> bool) (s : string) (k : string -> option R)
  : option R :=
  match s with
  | String c s' =>
      if p c then
        match star p s' k with
        | Some r => Some r
        | None => k s
        end
      else k s
  | EmptyString => k s
  end.

Fixpoint lazy_star (p : ascii -> bool) (s : string) (k : string -> option R)
  : option R :=
  match k s with
  | Some r => Some r
  | None =>
      match s with
      | String c s' => if p c then lazy_star p s' k else None
      | EmptyString => None
      end
  end.

(** [rmatch r s caps k]: match [r] at the head of [s], then hand the rest
    of the input and the captures so far to [k]; when [k] fails, try the
    next way of matching [r]. *)
Fixpoint rmatch (r : regex) (s : string) (caps : list string)
         (k : string -> list string -> option R) : option R :=
  match r with
  | Eps => k s caps
  | Chr p =>
      match s with
      | String c s' => if p c then k s' caps else None
      | EmptyString => None
      end
  | Cat r1 r2 => rmatch r1 s caps (fun s' caps' => rmatch r2 s' caps' k)
  | Star p => star p s (fun s' => k s' caps)
  | LazyStar p => lazy_star p s (fun s' => k s' caps)
  | Group r1 =>
      rmatch r1 s caps (fun s' caps' => k s' (caps' ++ [consumed s s'])%list)
  | Eos =>
      match s with
      | EmptyString => k s caps
      | String _ _ => None
      end
  end.
End Matcher.

(** What a successful match reports: the text before it, the matched text,
    the captures [$1], [$2], ... and the text after it. *)
Record match_result : Type := MatchResult {
  m_before : string;
  m_text : string;
  m_groups : list string;
  m_after : string
}.

Definition match_here (r : regex) (s : string) : option match_result :=
  rmatch r s [] (fun s' caps => Some (MatchResult "" (consumed s s') caps s')).

(** [re.exec(s)] / [s.match(re)] without the [g] flag: the leftmost match. *)
Fixpoint exec (r : regex) (s : string) : option match_result :=
  match match_here r s with
  | Some m => Some m
  | None =>
      match s with
      | String c s' =>
          match exec r s' with
          | Some m =>
              Some (MatchResult (String c (m_before m)) (m_text m)
                                (m_groups m) (m_after m))
          | None => None
          end
      | EmptyString => None
      end
  end.

(** [s.replace(re, f)] without the [g] flag: only the leftmost match is
    replaced. *)
Definition replace (r : regex) (f : list string -> string) (s : string)
  : string :=
  match exec r s with
  | Some m => m_before m ++ f (m_groups m) ++ m_after m
  | None => s
  end.

(** [s.replace(re, f)] with the [g] flag: matches are taken left to right
    and do not overlap; [skip] counts the characters of the current match
    still to be passed over.  After an empty match the search moves on by
    one character. *)
Fixpoint replace_all_from (r : regex) (f : list string -> string)
         (skip : nat) (s : string) {struct s} : string :=
  match skip with
  | S n =>
      match s with
      | String _ s' => replace_all_from r f n s'
      | EmptyString => EmptyString
      end
  | 0 =>
      match match_here r s with
      | Some m =>
          f (m_groups m) ++
          match s with
          | String c s' =>
              match String.length (m_text m) with
              | 0 => String c (replace_all_from r f 0 s')
              | S n => replace_all_from r f n s'
              end
          | EmptyString => EmptyString
          end
      | None =>
          match s with
          | String c s' => String c (replace_all_from r f 0 s')
          | EmptyString => EmptyString
          end
      end
  end.

Definition replace_all (r : regex) (f : list string -> string) (s : string)
  : string :=
  replace_all_from r f 0 s.

(** The capture [$n] of a replacement string. *)
Definition group (n : nat) (caps : list string) : string :=
  nth (n - 1) caps EmptyString.

(** ** [parseFloat]

    [parseFloat(string)] skips leading white space and reads the longest
    prefix that is a [StrDecimalLiteral]: an optional sign, then either
    [Infinity] or decimal digits with an optional fraction and an optional
    exponent.  The decimal value is rounded to the nearest binary64 value,
    ties to even. *)

Fixpoint span (p : ascii -> bool) (s : string) : string * string :=
  match s with
  | String c s' =>
      if p c then let '(a, b) := span p s' in (String c a, b)
      else (EmptyString, s)
  | EmptyString => (EmptyString, EmptyString)
  end.

Definition digit_value (c : ascii) : Z := Z.of_nat (char_code c - 48).

Fixpoint digits_value (acc : Z) (s : string) : Z :=
  match s with
  | String c s' => digits_value (10 * acc + digit_value c)%Z s'
  | EmptyString => acc
  end.

(** The value of a complete [ExponentPart] at the head of [s]; an incomplete
    one is not part of the literal and counts as exponent [0]. *)
Definition exponent_part (s : string) : Z :=
  match s with
  | String c s1 =>
      if Ascii.eqb c "e" || Ascii.eqb c "E" then
        let '(neg, s2) :=
          match s1 with
          | String "+" r => (false, r)
          | String "-" r => (true, r)
          | _ => (false, s1)
          end in
        let '(ds, _) := span is_digit s2 in
        match ds with
        | EmptyString => 0%Z
        | _ => if neg then (- digits_value 0 ds)%Z else digits_value 0 ds
        end
      else 0%Z
  | EmptyString => 0%Z
  end.

(** [m * 10^e10], signed by [neg], rounded to binary64. *)
Definition decimal_to_number (neg : bool) (m e10 : Z) : number :=
  match m with
  | Zpos p =>
      if (0 <=? e10)%Z
      then binary_round prec emax neg (p * Z.to_pos (10 ^ e10)) 0
      else SFdiv prec emax (S754_finite neg p 0)
                           (S754_finite false (Z.to_pos (10 ^ (- e10))) 0)
  | _ => S754_zero neg
  end.

Definition parseFloat_string (s : string) : number :=
  let s0 := trimStart s in
  let '(neg, s1) :=
    match s0 with
    | String "+" r => (false, r)
    | String "-" r => (true, r)
    | _ => (false, s0)
    end in
  if startsWith s1 "Infinity" then S754_infinity neg
  else
    let '(ip, s2) := span is_digit s1 in
    let '(dot, fp, s3) :=
      match s2 with
      | String "." r => let '(f, r') := span is_digit r in (true, f, r')
      | _ => (false, EmptyString, s2)
      end in
    match ip, fp with
    | EmptyString, EmptyString => NaN
    | _, _ =>
        decimal_to_number neg (digits_value 0 (ip ++ fp))
                          (exponent_part s3 - Z.of_nat (String.length fp))
    end.

(** ** Values

    What [JSON.parse] and property reads can produce. *)

#[warnings="-register-all"]
Inductive value : Type :=
| VUndefined
| VNull
| VBool (b : bool)
| VNum (n : number)
| VStr (s : string)
| VArr (items : list value)
| VObj (fields : list (string * value)).

(** Truthiness, as [if (v)], [!v], [a || b] and [a && b] test it. *)
Definition truthy (v : value) : bool :=
  match v with
  | VUndefined | VNull => false
  | VBool b => b
  | VNum (S754_nan) | VNum (S754_zero _) => false
  | VNum _ => true
  | VStr EmptyString => false
  | VStr _ => true
  | VArr _ | VObj _ => true
  end.

(** [a || b] *)
Definition or_else (a b : value) : value := if truthy a then a else b.

Fixpoint assoc (k : string) (fields : list (string * value)) : option value :=
  match fields with
  | (k', v) :: rest => if String.eqb k k' then Some v else assoc k rest
  | [] => None
  end.

(** [v.k] / [v[k]]: [None] is the [TypeError] of reading a property of
    [undefined] or [null]; a missing property reads as [undefined].  Only
    plain data properties are modelled: primitives and arrays have none of
    the names the scraper asks for. *)
Definition get (v : value) (k : string) : option value :=
  match v with
  | VUndefined | VNull => None
  | VObj fields =>
      Some match assoc k fields with Some x => x | None => VUndefined end
  | _ => Some VUndefined
  end.

(** [v?.k] *)
Definition get_opt (v : value) (k : string) : value :=
  match get v k with Some x => x | None => VUndefined end.

(** [v === w] against a string literal *)
Definition is_string (v : value) (s : string) : bool :=
  match v with VStr t => String.eqb t s | _ => false end.

(** [Array.isArray(v)] *)
Definition isArray (v : value) : bool :=
  match v with VArr _ => true | _ => false end.

(** [parseFloat(v)] converts [v] to a string first.  Number-to-string
    conversion round-trips through [parseFloat] except that [-0] prints as
    ["0"]; [undefined], [null], booleans and plain objects print as words
    that are no numeric literal; an array prints its elements separated by
    commas, so only its first element is read. *)
Fixpoint parseFloat (v : value) : number :=
  match v with
  | VStr s => parseFloat_string s
  | VNum (S754_zero _) => S754_zero false
  | VNum n => n
  | VArr (x :: _) => parseFloat x
  | _ => NaN
  end.

(** [String(n)] for a non-negative integer, as a template literal prints
    it. *)
Definition string_of_nat (n : nat) : string :=
  NilEmpty.string_of_uint (Nat.to_uint n).

End JS.

Import JS.

(* ================================================================== *)
(** * Data *)
(* ================================================================== *)

(** ** The storefront feed ([/products.json])

    An entry of the feed's [products] array.  Members the scraper only
    copies or tests stay untyped [value]s; [handle] is the slug the product
    URL is built from, [variants] may be missing, [images] is an array of
    objects with a [src] member. *)
Module Feed.
Record variant : Type := Variant {
  variant_id : value;
  variant_title : value;
  price : value;
  sku : value
}.

Record image : Type := Image { src : value }.

Record product : Type := Product {
  id : value;
  handle : string;
  title : value;
  body_html : value;
  variants : option (list variant);
  images : list image
}.
End Feed.

(** ** The record the scraper produces ([productData])

    [images] always holds an array in the records the class builds (the
    result of [map], an array literal or a spread), hence a list of values;
    [variants] is only set by the feed tier. *)
Record productData : Type := ProductData {
  id : value;
  handle : value;
  title : value;
  description : string;
  price : value;
  images : list value;
  url : string;
  variants : option (list Feed.variant);
  timestamp : string
}.

Definition set_images (p : productData) (imgs : list value) : productData :=
  {| id := id p; handle := handle p; title := title p;
     description := description p; price := price p; images := imgs;
     url := url p; variants := variants p; timestamp := timestamp p |}.

Definition set_description (p : productData) (d : string) : productData :=
  {| id := id p; handle := handle p; title := title p;
     description := d; price := price p; images := images p;
     url := url p; variants := variants p; timestamp := timestamp p |}.

(** ** Pages, as cheerio presents them

    An element with its attributes, its text and its inner HTML; a document
    with the results of the queries the scraper makes: the parsed contents
    of the [script[type="application/ld+json"]] elements ([None] where
    [JSON.parse] throws), the [a] and [img] elements in document order, and
    the selections of the class and tag selectors. *)
Record element : Type := Element {
  attrs : list (string * string);
  text : string;
  html : string
}.

Record document : Type := Document {
  ld_json : list (option value);
  anchors : list element;
  imgs : list element;
  select : string -> list element
}.

(** [$(el).attr(name)] *)
Fixpoint attr_in (l : list (string * string)) (name : string) : option string :=
  match l with
  | (k, v) :: rest => if String.eqb k name then Some v else attr_in rest name
  | [] => None
  end.

Definition attr (el : element) (name : string) : option string :=
  attr_in (attrs el) name.

(** The attribute selector [[name*="part"]]. *)
Definition attr_contains (name part : string) (el : element) : bool :=
  match attr el name with
  | Some v => includes v part
  | None => false
  end.

(** [$(sel).text()]: the texts of all selected elements, joined. *)
Definition text_of (sel : list element) : string :=
  fold_right (fun el acc => text el ++ acc) "" sel.

(** [$(sel).first()] *)
Definition first (sel : list element) : list element := firstn 1 sel.

(** [$(sel).html()]: the inner HTML of the first selected element, or
    [null]. *)
Definition html_of (sel : list element) : value :=
  match sel with
  | el :: _ => VStr (html el)
  | [] => VNull
  end.

(** ** The world outside

    What a [GET] answers: a failure (transport error, timeout, status
    outside 2xx), or a body.  The body is kept as its two readers see it:
    the [products] member of the parsed JSON ([None] when there is none, or
    a falsy one), and the document cheerio loads from it. *)
Record body : Type := Body {
  data_products : option (list Feed.product);
  dom : document
}.

Inductive response : Type :=
| Failed (message : string)
| Ok (data : body).

(** The network (a URL answers the same way whenever it is asked within a
    run), the clock ([date_iso n] is what the [n]-th
    [new Date().toISOString()] of the run prints) and the disk
    ([write_error] is the error [fs.writeFileSync] throws, if any). *)
Record world : Type := World {
  http_get : string -> response;
  date_iso : nat -> string;
  write_error : option string
}.

(** The effects of a run, in order.  Console output is not recorded. *)
Inductive effect : Type :=
| Get (url : string)
| Sleep (ms : nat)
| WriteFile (dir file : string) (content : list productData).

(** The scraper object: [this]. *)
Record ShopifyScraper : Type := Scraper {
  storeUrl : string;
  outputDir : string;
  productsData : list productData
}.

Record state : Type := State {
  this : ShopifyScraper;
  effects : list effect;
  dates : nat
}.

(* ================================================================== *)
(** * A monad for the methods: state, exceptions and fuel *)
(* ================================================================== *)

Inductive outcome (A : Type) : Type :=
| Return (a : A)
| Throw (message : string)
| OutOfFuel.
Arguments Return {A} a.
Arguments Throw {A} message.
Arguments OutOfFuel {A}.

Definition M (A : Type) : Type := state -> outcome A * state.

Definition ret {A} (a : A) : M A := fun st => (Return a, st).

Definition throw {A} (message : string) : M A := fun st => (Throw message, st).

Definition out_of_fuel {A} : M A := fun st => (OutOfFuel, st).

Definition bind {A B} (m : M A) (k : A -> M B) : M B :=
  fun st =>
    match m st with
    | (Return a, st') => k a st'
    | (Throw e, st') => (Throw e, st')
    | (OutOfFuel, st') => (OutOfFuel, st')
    end.

Declare Scope monad_scope.
Delimit Scope monad_scope with monad.
Notation "x <- m ;; k" := (bind m (fun x => k))
  (at level 61, m at next level, right associativity) : monad_scope.
Notation "m ;; k" := (bind m (fun _ => k))
  (at level 61, right associativity) : monad_scope.
Local Open Scope monad_scope.

(** [try { m } catch (error) { h error.message }]: running out of fuel is
    not an exception and passes through. *)
Definition try_catch {A} (m : M A) (h : string -> M A) : M A :=
  fun st =>
    match m st with
    | (Throw e, st') => h e st'
    | other => other
    end.

(** A value that may be a [TypeError]. *)
Definition lift {A} (message : string) (o : option A) : M A :=
  match o with
  | Some a => ret a
  | None => throw message
  end.

(** [for (const x of xs) { body x }] *)
Fixpoint for_of {A} (xs : list A) (body : A -> M unit) : M unit :=
  match xs with
  | [] => ret tt
  | x :: rest => body x ;; for_of rest body
  end.

Definition emit (e : effect) : M unit :=
  fun st => (Return tt,
             {| this := this st; effects := effects st ++ [e]; dates := dates st |}).

Definition self : M ShopifyScraper := fun st => (Return (this st), st).

(** [this.productsData.push(p)] *)
Definition push (p : productData) : M unit :=
  fun st =>
    (Return tt,
     {| this := {| storeUrl := storeUrl (this st);
                   outputDir := outputDir (this st);
                   productsData := productsData (this st) ++ [p] |};
        effects := effects st; dates := dates st |}).

Section Primitives.
Variable w : world.

(** [await this.axiosInstance.get(url)] *)
Definition axios_get (url : string) : M body :=
  emit (Get url) ;;
  match http_get w url with
  | Ok data => ret data
  | Failed message => throw message
  end.

(** [await this.sleep(ms)] *)
Definition sleep (ms : nat) : M unit := emit (Sleep ms).

(** [new Date().toISOString()] *)
Definition now : M string :=
  fun st =>
    (Return (date_iso w (dates st)),
     {| this := this st; effects := effects st; dates := S (dates st) |}).
End Primitives.

(* ================================================================== *)
(** * The class [ShopifyScraper] *)
(* ================================================================== *)

(** ** The constructor

    It trims the store URL, drops one trailing slash and adds the scheme.
    (Creating the output directory and configuring the HTTP client are left
    to the world.) *)
Definition new_ShopifyScraper (url dir : string) : ShopifyScraper :=
  let u := trim url in
  let u := if endsWith u "/" then slice_0_m1 u else u in
  let u := if negb (startsWith u "https://") && negb (startsWith u "http://")
           then "https://" ++ u else u in
  {| storeUrl := u; outputDir := dir; productsData := [] |}.

(** ** [cleanDescription]

    [/<style[^>]*>[\s\S]*?<\/style>/gi] and
    [/<script[^>]*>[\s\S]*?<\/script>/gi] *)
Definition style_block : regex :=
  Cat (lit_i "<style")
      (Cat (Star (none_of ">"))
           (Cat (lit_i ">") (Cat (LazyStar any) (lit_i "</style>")))).

Definition script_block : regex :=
  Cat (lit_i "<script")
      (Cat (Star (none_of ">"))
           (Cat (lit_i ">") (Cat (LazyStar any) (lit_i "</script>")))).

Definition clean (html : string) : string :=
  trim (replace_all script_block (fun _ => "")
          (replace_all style_block (fun _ => "") html)).

(** [None] is the [TypeError] of calling [replace] on a truthy value that is
    no string. *)
Definition cleanDescription (html : value) : option string :=
  if negb (truthy html) then Some ""
  else match html with
       | VStr s => Some (clean s)
       | _ => None
       end.

(** ** [normalizeImageUrls]

    The callback of the [map]; [None] is the [TypeError] of calling
    [startsWith] on a truthy value that is no string. *)
Definition normalizeImageUrl (imageUrl : value) : option value :=
  if negb (truthy imageUrl) then Some VNull
  else match imageUrl with
       | VStr u =>
           Some (VStr (if negb (startsWith u "http") then "https:" ++ u else u))
       | _ => None
       end.

Fixpoint map_or_throw {A B} (f : A -> option B) (l : list A) : option (list B) :=
  match l with
  | [] => Some []
  | x :: rest =>
      match f x with
      | Some y =>
          match map_or_throw f rest with
          | Some ys => Some (y :: ys)
          | None => None
          end
      | None => None
      end
  end.

(** The method updates [product.images] in place; here it returns the
    updated record. *)
Definition normalizeImageUrls (product : productData) : option productData :=
  match map_or_throw normalizeImageUrl (images product) with
  | Some urls => Some (set_images product (filter truthy urls))
  | None => None
  end.

(** ** [getProductPrice] *)
Definition price_range (minPrice maxPrice : number) : value :=
  VObj [("min", VNum minPrice); ("max", VNum maxPrice)].

Definition getProductPrice (product : Feed.product) : value :=
  match Feed.variants product with
  | Some ((_ :: _) as variants) =>
      let prices :=
        filter (fun price => negb (isNaN price))
               (map (fun variant => parseFloat (Feed.price variant)) variants) in
      match prices with
      | [] => VNull
      | _ =>
          let minPrice := Math_min prices in
          let maxPrice := Math_max prices in
          if num_eq minPrice maxPrice then VNum minPrice
          else price_range minPrice maxPrice
      end
  | _ => VNull
  end.

(** ** [extractPrice] *)
Definition priceSelectors : list string :=
  [ ".price__regular .price-item--regular";
    ".product__price";
    ".price-item--sale";
    ".product-single__price";
    ".price .money";
    ".product-price";
    "[data-product-price]" ].

(** [/[\d,.]+/] and [/,/g] *)
Definition price_token : regex :=
  Plus (fun c => is_digit c || Ascii.eqb c "," || Ascii.eqb c ".").

Definition comma : regex := Chr (one ",").

Fixpoint extractPrice_in (doc : document) (selectors : list string) : value :=
  match selectors with
  | [] => VNull
  | selector :: rest =>
      match first (select doc selector) with
      | [] => extractPrice_in doc rest
      | priceElement =>
          let priceText := trim (text_of priceElement) in
          match exec price_token priceText with
          | Some matches =>
              VNum (parseFloat_string
                      (replace_all comma (fun _ => "") (m_text matches)))
          | None => extractPrice_in doc rest
          end
      end
  end.

Definition extractPrice (doc : document) : value :=
  extractPrice_in doc priceSelectors.

(** ** The markup tier's image list

    [/(\.[^.]+)(_[0-9]+x[0-9]+)(\.[^.]+)$/], replaced by ['$1$3']. *)
Definition thumbnail_suffix : regex :=
  Cat (Group (Cat (Chr (one ".")) (Plus (none_of "."))))
      (Cat (Group (Cat (Chr (one "_"))
                       (Cat (Plus is_digit)
                            (Cat (Chr (one "x")) (Plus is_digit)))))
           (Cat (Group (Cat (Chr (one ".")) (Plus (none_of ".")))) Eos)).

Definition fullSize (imgSrc : string) : string :=
  replace thumbnail_suffix (fun caps => group 1 caps ++ group 3 caps) imgSrc.

(** [$(element).attr('src') || $(element).attr('data-src')] *)
Definition image_source (el : element) : option string :=
  match attr el "src" with
  | Some (String _ _ as v) => Some v
  | _ => attr el "data-src"
  end.

(** The body of the [each] over [img[src*="/products/"]]: what one element
    adds to [images]. *)
Definition image_of (el : element) : list string :=
  match image_source el with
  | Some (String _ _ as imgSrc) =>
      let fullSizeUrl := fullSize imgSrc in
      [ if startsWith fullSizeUrl "http" then fullSizeUrl
        else "https:" ++ fullSizeUrl ]
  | _ => []
  end.

Definition collect_images (doc : document) : list string :=
  flat_map image_of (filter (attr_contains "src" "/products/") (imgs doc)).

Definition mem (x : string) (l : list string) : bool :=
  existsb (String.eqb x) l.

(** [[...new Set(xs)]]: the first occurrences, in order. *)
Definition unique (xs : list string) : list string :=
  fold_left (fun seen x => if mem x seen then seen else (seen ++ [x])%list) xs [].

(** ** [scrapeProductPage] *)

(** The [each] over the JSON-LD scripts: the last block whose [@type] is
    ['Product'] stays in [structuredData]. *)
Definition structured_step (structuredData : option value) (block : option value)
  : option value :=
  match block with
  | Some data =>
      match get data "@type" with
      | Some t => if is_string t "Product" then Some data else structuredData
      | None => structuredData
      end
  | None => structuredData
  end.

Definition find_structured (doc : document) : option value :=
  fold_left structured_step (ld_json doc) None.

(** [url.split('/').pop().split('?')[0]] *)
Definition last_segment (u : string) : string :=
  match pop (split "/" u) with
  | Some seg => hd "" (split "?" seg)
  | None => ""
  end.

(** [Array.isArray(v) ? v : [v]] *)
Definition as_array (v : value) : list value :=
  match v with
  | VArr items => items
  | _ => [v]
  end.

Definition or_string (a b : string) : string :=
  match a with EmptyString => b | _ => a end.

Section Methods.
Variable w : world.

Definition structured_record (u : string) (doc : document)
           (structuredData : value) : M productData :=
  let offers := get_opt structuredData "offers" in
  desc <- lift "html.replace is not a function"
               (cleanDescription (get_opt structuredData "description")) ;;
  stamp <- now w ;;
  ret {| id := VStr (last_segment u);
         handle := VStr (last_segment u);
         title := get_opt structuredData "name";
         description := desc;
         price := or_else (get_opt offers "price")
                    (or_else (get_opt offers "lowPrice") (extractPrice doc));
         images := as_array (get_opt structuredData "image");
         url := u;
         variants := None;
         timestamp := stamp |}.

Definition markup_record (u : string) (doc : document) : M productData :=
  let title_text :=
    or_string (trim (text_of (select doc ".product-single__title")))
              (trim (text_of (first (select doc "h1")))) in
  let description_html :=
    or_else (html_of (select doc ".product-single__description"))
      (or_else (html_of (select doc ".product__description"))
               (html_of (select doc ".description"))) in
  let price_found := extractPrice doc in
  let images_found := collect_images doc in
  desc <- lift "html.replace is not a function"
               (cleanDescription description_html) ;;
  stamp <- now w ;;
  ret {| id := VStr (last_segment u);
         handle := VStr (last_segment u);
         title := VStr title_text;
         description := desc;
         price := price_found;
         images := map VStr (unique images_found);
         url := u;
         variants := None;
         timestamp := stamp |}.

(** The class has no method [downloadProductImages]: the call in the
    structured branch throws once the record is pushed, and the method's
    own [catch] takes it. *)
Definition scrapeProductPage (u : string) : M unit :=
  try_catch
    (response <- axios_get w u ;;
     let doc := dom response in
     match find_structured doc with
     | Some structuredData =>
         product <- structured_record u doc structuredData ;;
         push product ;;
         throw "this.downloadProductImages is not a function"
     | None =>
         product <- markup_record u doc ;;
         push product
     end)
    (fun _ => ret tt).

(** ** [scrapeViaHtml] *)

(** The [each] over [a[href*="/products/"]]. *)
Definition link_step (base : string) (productLinks : list string)
           (el : element) : list string :=
  match attr el "href" with
  | Some href =>
      if includes href "/products/" then
        let fullUrl :=
          if startsWith href "http" then href
          else base ++ (if startsWith href "/" then href else "/" ++ href) in
        if mem fullUrl productLinks then productLinks
        else (productLinks ++ [fullUrl])%list
      else productLinks
  | None => productLinks
  end.

Definition product_links (base : string) (doc : document) : list string :=
  fold_left (link_step base)
            (filter (attr_contains "href" "/products/") (anchors doc)) [].

Definition scrapeViaHtml : M bool :=
  try_catch
    (me <- self ;;
     response <- axios_get w (storeUrl me ++ "/collections/all") ;;
     let productLinks := product_links (storeUrl me) (dom response) in
     for_of productLinks
            (fun productUrl => scrapeProductPage productUrl ;; sleep 2000) ;;
     ret true)
    (fun _ => ret false).

(** ** [scrapeViaApi] *)
Definition limit : nat := 250.

Definition feed_url (base : string) (page : nat) : string :=
  base ++ "/products.json?page=" ++ string_of_nat page
       ++ "&limit=" ++ string_of_nat limit.

(** The body of [for (const product of products)]. *)
Definition feed_entry (product : Feed.product) : M unit :=
  me <- self ;;
  desc <- lift "html.replace is not a function"
               (cleanDescription (Feed.body_html product)) ;;
  stamp <- now w ;;
  let record :=
    {| id := Feed.id product;
       handle := VStr (Feed.handle product);
       title := Feed.title product;
       description := desc;
       price := getProductPrice product;
       images := map Feed.src (Feed.images product);
       url := storeUrl me ++ "/products/" ++ Feed.handle product;
       variants := Feed.variants product;
       timestamp := stamp |} in
  normalized <- lift "imageUrl.startsWith is not a function"
                     (normalizeImageUrls record) ;;
  push normalized ;;
  sleep 500.

(** The [while (hasMoreProducts)] loop; one unit of fuel per page. *)
Fixpoint feed_pages (fuel page totalProducts : nat) : M bool :=
  match fuel with
  | 0 => out_of_fuel
  | S fuel' =>
      me <- self ;;
      response <- axios_get w (feed_url (storeUrl me) page) ;;
      match data_products response with
      | Some ((_ :: _) as products) =>
          let totalProducts := totalProducts + List.length products in
          for_of products feed_entry ;;
          if List.length products <? limit
          then ret (0 <? totalProducts)
          else sleep 2000 ;; feed_pages fuel' (page + 1) totalProducts
      | _ =>
          if page =? 1 then ret false else ret (0 <? totalProducts)
      end
  end.

Definition scrapeViaApi (fuel : nat) : M bool :=
  try_catch (feed_pages fuel 1 0) (fun _ => ret false).

(** ** [saveProductsData] *)
Definition saveProductsData : M unit :=
  me <- self ;;
  match write_error w with
  | Some message => throw message
  | None => emit (WriteFile (outputDir me) "products_data.json" (productsData me))
  end.

(** ** [scrape]

    [scrape_try] is the [try] block; the [catch] returns [[]]. *)
Definition scrape_try (fuel : nat) : M (list productData) :=
  apiSuccess <- scrapeViaApi fuel ;;
  (if negb apiSuccess then scrapeViaHtml else ret true) ;;
  saveProductsData ;;
  me <- self ;;
  ret (productsData me).

Definition scrape (fuel : nat) : M (list productData) :=
  try_catch (scrape_try fuel) (fun _ => ret []).
End Methods.

(** A run from a fresh scraper. *)
Definition start (url dir : string) : state :=
  {| this := new_ShopifyScraper url dir; effects := []; dates := 0 |}.

(* ================================================================== *)
(** * Vocabulary of the properties *)
(* ================================================================== *)

(** [x <= y] on numbers. *)
Definition num_le (x y : number) : bool := SFleb x y.

(** The comparison of two finite values of one sign is lexicographic in
    exponent and mantissa. *)
Definition lex (e1 : Z) (m1 : positive) (e2 : Z) (m2 : positive) : comparison :=
  match Z.compare e1 e2 with
  | Lt => Lt
  | Gt => Gt
  | Eq => Pos.compare m1 m2
  end.

(** [m] is a least (greatest) element of [l]. *)
Definition is_minimum (m : number) (l : list number) : Prop :=
  In m l /\ forall x, In x l -> num_le m x = true.

Definition is_maximum (m : number) (l : list number) : Prop :=
  In m l /\ forall x, In x l -> num_le x m = true.

(** The variant prices of a feed entry that are numbers: every variant's
    [price] through [parseFloat], the [NaN]s dropped; none when the entry has
    no [variants]. *)
Definition numeric_prices (product : Feed.product) : list number :=
  match Feed.variants product with
  | Some variants =>
      filter (fun price => negb (isNaN price))
             (map (fun variant => parseFloat (Feed.price variant)) variants)
  | None => []
  end.

(** Normalizing a record once more: [cleanDescription] on its description
    and [normalizeImageUrls] on its images. *)
Definition renormalize (p : productData) : option productData :=
  match cleanDescription (VStr (description p)) with
  | Some d => normalizeImageUrls (set_description p d)
  | None => None
  end.

(** No [<style>...</style>] and no [<script>...</script>] block occurs in
    [s]. *)
Definition no_block (s : string) : Prop :=
  exec style_block s = None /\ exec script_block s = None.

(** [s] is empty or begins with a character that is no white space. *)
Definition trimmed_start (s : string) : Prop :=
  match s with
  | String c _ => is_space c = false
  | EmptyString => True
  end.

(** Every character of [s] is in the class [p]. *)
Fixpoint all_chars (p : ascii -> bool) (s : string) : bool :=
  match s with
  | String c s' => p c && all_chars p s'
  | EmptyString => true
  end.

(** The number of full stops in [s]. *)
Fixpoint dots (s : string) : nat :=
  match s with
  | String c s' => (if Ascii.eqb c "." then 1 else 0) + dots s'
  | EmptyString => 0
  end.

(** [matches r a rest]: the pattern [r] can match the text [a] when [rest]
    follows it.  The relation says which texts a pattern accepts; the order
    in which the matcher tries them is not part of it. *)
Inductive matches : regex -> string -> string -> Prop :=
| M_Eps rest : matches Eps "" rest
| M_Chr p c rest : p c = true -> matches (Chr p) (String c "") rest
| M_Cat r1 r2 a b rest :
    matches r1 a (b ++ rest) -> matches r2 b rest ->
    matches (Cat r1 r2) (a ++ b) rest
| M_Star p a rest : all_chars p a = true -> matches (Star p) a rest
| M_LazyStar p a rest : all_chars p a = true -> matches (LazyStar p) a rest
| M_Group r a rest : matches r a rest -> matches (Group r) a rest
| M_Eos : matches Eos "" "".

(** The class [p] cannot take the next character of [s]. *)
Definition stops (p : ascii -> bool) (s : string) : Prop :=
  match s with String c _ => p c = false | EmptyString => True end.

Definition not_underscore (c : ascii) : bool := negb (Ascii.eqb c "_").

(** What the markup tier pushes for a full-size URL: the URL itself when it
    begins with "http", else the URL behind "https:". *)
Definition with_scheme (u : string) : string :=
  if startsWith u "http" then u else "https:" ++ u.

(** The URLs requested, in order. *)
Fixpoint requests (es : list effect) : list string :=
  match es with
  | Get u :: rest => u :: requests rest
  | _ :: rest => requests rest
  | [] => []
  end.

(** The entries a feed page returns: none when the body has no [products]. *)
Definition page_entries (b : body) : list Feed.product :=
  match data_products b with
  | Some products => products
  | None => []
  end.

(** A feed entry whose description and image sources have the types
    [cleanDescription] and [normalizeImageUrls] can handle: building its
    record throws no [TypeError]. *)
Definition processable (product : Feed.product) : bool :=
  match cleanDescription (Feed.body_html product),
        map_or_throw normalizeImageUrl (map Feed.src (Feed.images product)) with
  | Some _, Some _ => true
  | _, _ => false
  end.

(** [st'] comes after [st] in a run: same scraper settings, the records of
    [st] still in front. *)
Definition grows (st st' : state) : Prop :=
  storeUrl (this st') = storeUrl (this st) /\
  outputDir (this st') = outputDir (this st) /\
  exists added,
    productsData (this st') = (productsData (this st) ++ added)%list.

(** The state once a [GET] of [u] has been issued. *)
Definition after_get (st : state) (u : string) : state :=
  {| this := this st; effects := (effects st ++ [Get u])%list; dates := dates st |}.

(** Feed page [page] of the store at [base] answers with at least [limit]
    entries, all of them processable. *)
Definition full_page (w : world) (base : string) (page : nat) : Prop :=
  exists b,
    http_get w (feed_url base page) = Ok b /\
    limit <= List.length (page_entries b) /\
    Forall (fun p => processable p = true) (page_entries b).

(** A computation that never runs out of fuel. *)
Definition fuel_free {A} (m : M A) : Prop :=
  forall st, fst (m st) <> OutOfFuel.

(** The value is a string that begins with "http": what the feed tier and
    the markup tier make of every image they keep. *)
Definition has_scheme (v : value) : Prop :=
  exists u, v = VStr u /\ startsWith u "http" = true.

(** ** Words for the further properties *)

(** The member [k] of an object with the members [fields] is bound to [v]:
    the first binding of [k] is the one that counts. *)
Definition bound_to (fields : list (string * value)) (k : string) (v : value)
  : Prop :=
  exists pre post,
    fields = (pre ++ (k, v) :: post)%list /\
    Forall (fun kv => fst kv <> k) pre.

(** The object with the members [fields] has no member [k]. *)
Definition unbound (fields : list (string * value)) (k : string) : Prop :=
  Forall (fun kv => fst kv <> k) fields.

(** A JSON-LD block that parsed and whose [@type] is the string
    "Product". *)
Definition is_product (block : option value) : bool :=
  match block with
  | Some data =>
      match get data "@type" with
      | Some t => is_string t "Product"
      | None => false
      end
  | None => false
  end.

(** The string is not empty: as an image URL it is truthy. *)
Definition nonempty (u : string) : bool :=
  match u with EmptyString => false | String _ _ => true end.

(** [s] begins with [p], letter case ignored. *)
Fixpoint starts_i (s p : string) : bool :=
  match p, s with
  | EmptyString, _ => true
  | String a p', String c s' => one_i a c && starts_i s' p'
  | String _ _, EmptyString => false
  end.

(** [p] occurs in [s], letter case ignored. *)
Fixpoint occurs_i (p s : string) : bool :=
  starts_i s p ||
  match s with
  | String _ s' => occurs_i p s'
  | EmptyString => false
  end.

(** "<style" or "<script" occurs in [s], in any letter case. *)
Definition opens_block (s : string) : bool :=
  occurs_i "<style" s || occurs_i "<script" s.

(** The shape the two patterns of [cleanDescription] share:
    [/<tag[^>]*>[\s\S]*?<\/tag>/i]. *)
Definition block (tag : string) : regex :=
  Cat (lit_i ("<" ++ tag))
      (Cat (Star (none_of ">"))
           (Cat (lit_i ">") (Cat (LazyStar any) (lit_i ("</" ++ tag ++ ">"))))).

(** The class [[\d,.]] of the price pattern, and its complement. *)
Definition price_char (c : ascii) : bool :=
  is_digit c || Ascii.eqb c "," || Ascii.eqb c ".".

Definition no_price_char (c : ascii) : bool := negb (price_char c).

(** The text [extractPrice] reads for a selector: the trimmed text of the
    first element selected; empty when there is none. *)
Definition price_text (doc : document) (selector : string) : string :=
  trim (text_of (first (select doc selector))).

(** [s] with its commas deleted. *)
Fixpoint without_commas (s : string) : string :=
  match s with
  | String c s' =>
      if Ascii.eqb c "," then without_commas s' else String c (without_commas s')
  | EmptyString => EmptyString
  end.

(** The effects of visiting [links]: each one requested, each request
    followed by a pause of 2000 ms. *)
Definition crawl_effects (links : list string) : list effect :=
  flat_map (fun u => [Get u; Sleep 2000]) links.

(** What an image source of a feed entry becomes in the record: a
    non-empty string stays, with "https:" in front when it does not begin
    with "http"; a falsy source is dropped.  (A truthy source that is no
    string makes [normalizeImageUrls] throw: no record comes of it.) *)
Definition normalized_source (v : value) : list value :=
  match v with
  | VStr (String c s) => [VStr (with_scheme (String c s))]
  | _ => []
  end.

(** The image sources of [product], normalized, in the order of the
    entry. *)
Definition normalized_sources (product : Feed.product) : list value :=
  flat_map (fun img => normalized_source (Feed.src img)) (Feed.images product).

(** [r] is a record the feed tier makes of [product] for the store at
    [base]. *)
Definition feed_record_of (base : string) (product : Feed.product)
           (r : productData) : Prop :=
  id r = Feed.id product /\
  handle r = VStr (Feed.handle product) /\
  title r = Feed.title product /\
  cleanDescription (Feed.body_html product) = Some (description r) /\
  price r = getProductPrice product /\
  images r = normalized_sources product /\
  Forall has_scheme (images r) /\
  url r = base ++ "/products/" ++ Feed.handle product /\
  variants r = Feed.variants product.

(** The feed of the store at [base] consists of the pages [pages], numbered
    from [page]. *)
Definition serves (w : world) (base : string) (page : nat)
           (pages : list (list Feed.product)) : Prop :=
  forall i entries,
    nth_error pages i = Some entries ->
    exists b, http_get w (feed_url base (page + i)) = Ok b /\
              page_entries b = entries.

(** The effects of reading [pages] from page number [page] on: the request,
    a pause of 500 ms after each entry, a pause of 2000 ms before the next
    page. *)
Fixpoint feed_effects (base : string) (page : nat)
         (pages : list (list Feed.product)) : list effect :=
  match pages with
  | [] => []
  | entries :: rest =>
      (Get (feed_url base page) :: repeat (Sleep 500) (List.length entries))
      ++ match rest with
         | [] => []
         | _ => Sleep 2000 :: feed_effects base (page + 1) rest
         end
  end.

(** What holds of every record of a run for the store at [base]: the
    description has no white space at its ends, the URL names a product
    page, and it begins with "http" when the store URL does. *)
Definition record_ok (base : string) (r : productData) : Prop :=
  trim (description r) = description r /\
  includes (url r) "/products/" = true /\
  (startsWith base "http" = true -> startsWith (url r) "http" = true).

(** A request of such a run: it begins with "http" when the store URL
    does. *)
Definition request_ok (base u : string) : Prop :=
  startsWith base "http" = true -> startsWith u "http" = true.

(** [st'] follows [st] in a run: same settings, and the records and
    requests that were added are as above. *)
Definition follows (st st' : state) : Prop :=
  storeUrl (this st') = storeUrl (this st) /\
  outputDir (this st') = outputDir (this st) /\
  (exists added,
     productsData (this st') = (productsData (this st) ++ added)%list /\
     Forall (record_ok (storeUrl (this st))) added) /\
  (exists reqs,
     requests (effects st') = (requests (effects st) ++ reqs)%list /\
     Forall (request_ok (storeUrl (this st))) reqs).

(** The state once [products_data.json] has been written. *)
Definition after_save (st : state) : state :=
  {| this := this st;
     effects := (effects st ++ [WriteFile (outputDir (this st)) "products_data.json"
                                  (productsData (this st))])%list;
     dates := dates st |}.

(* ================================================================== *)
(** * Sample stores, pages and entries *)
(* ================================================================== *)

(** ** Feed entries *)

Definition sized_variant (p : string) : Feed.variant :=
  {| Feed.variant_id := VNull; Feed.variant_title := VNull;
     Feed.price := VStr p; Feed.sku := VNull |}.

(** An entry with variants priced "12.50", "10.00" and "n/a". *)
Definition three_variants : Feed.product :=
  {| Feed.id := VNum (parseFloat_string "1"); Feed.handle := "shirt";
     Feed.title := VStr "Shirt"; Feed.body_html := VNull;
     Feed.variants :=
       Some [sized_variant "12.50"; sized_variant "10.00"; sized_variant "n/a"];
     Feed.images := [] |}.

Definition mug : Feed.product :=
  {| Feed.id := VNum (parseFloat_string "7"); Feed.handle := "mug";
     Feed.title := VStr "Mug"; Feed.body_html := VStr "<p>A mug.</p>";
     Feed.variants := Some [sized_variant "8.00"];
     Feed.images := [ {| Feed.src := VStr "//cdn.x/mug.jpg" |} ] |}.

(** A description in which a [<script>] block sits inside the tag of
    another one, and an entry that carries it. *)
Definition spliced_html : string := "<scr<script></script>ipt>x</script>".

Definition spliced_entry : Feed.product :=
  {| Feed.id := VNum (parseFloat_string "7"); Feed.handle := "mug";
     Feed.title := VStr "Mug"; Feed.body_html := VStr spliced_html;
     Feed.variants := None;
     Feed.images := [ {| Feed.src := VStr "//cdn.x/mug.jpg" |} ] |}.

(** An entry that lists one image twice. *)
Definition twin_entry : Feed.product :=
  {| Feed.id := VNum (parseFloat_string "7"); Feed.handle := "mug";
     Feed.title := VStr "Mug"; Feed.body_html := VNull;
     Feed.variants := None;
     Feed.images := [ {| Feed.src := VStr "https://cdn.x/a.jpg" |};
                      {| Feed.src := VStr "https://cdn.x/a.jpg" |} ] |}.

(** ** Records *)

(** The record the feed tier makes of [spliced_entry]. *)
Definition spliced_record : productData :=
  {| id := VNum (parseFloat_string "7"); handle := VStr "mug";
     title := VStr "Mug"; description := "<script>x</script>";
     price := VNull; images := [VStr "https://cdn.x/mug.jpg"];
     url := "https://shop.example/products/mug"; variants := None;
     timestamp := "2025-03-16T12:00:00.000Z" |}.

(** A record with a sanitized description and raw image values. *)
Definition tidy_record : productData :=
  {| id := VNull; handle := VStr "mug"; title := VStr "Mug";
     description := clean " <p>hi</p><style>p{}</style> ";
     price := VNull; images := [VStr "//cdn.x/mug.jpg"; VNull];
     url := "https://shop.example/products/mug"; variants := None;
     timestamp := "" |}.

(** ** Pages *)

(** A page with the given [img] elements and nothing else. *)
Definition plain_document (images : list element) : document :=
  {| ld_json := []; anchors := []; imgs := images; select := fun _ => [] |}.

Definition no_document : document := plain_document [].

(** A page with one JSON-LD block and nothing else. *)
Definition product_page (block : value) : document :=
  {| ld_json := [Some block]; anchors := []; imgs := [];
     select := fun _ => [] |}.

(** A "Product" block without an [image] member, and the block of
    Scenario C, whose [image] is a scheme-relative URL. *)
Definition imageless_block : value :=
  VObj [("@type", VStr "Product"); ("name", VStr "Mug")].

Definition scenario_c_block : value :=
  VObj [("@type", VStr "Product"); ("name", VStr "Mug");
        ("image", VStr "//cdn.x/a.jpg")].

(** An image element with both attributes; one whose URL has no "." in
    front of the file name; one on a CDN host. *)
Definition lazy_image : element :=
  {| attrs := [("src", "//cdn.x/products/small.jpg");
               ("data-src", "//cdn.x/products/large.jpg")];
     text := ""; html := "" |}.

Definition relative_thumbnail : element :=
  {| attrs := [("src", "/products/product_300x300.jpg")];
     text := ""; html := "" |}.

Definition cdn_thumbnail : element :=
  {| attrs := [("src", "//cdn.shopify.com/s/files/1/products/mug_300x300.jpg")];
     text := ""; html := "" |}.

(** A page that shows a price. *)
Definition priced_page : document :=
  {| ld_json := []; anchors := []; imgs := [];
     select := fun selector =>
       if String.eqb selector ".product-price"
       then [ {| attrs := []; text := " $1,299.00 "; html := "" |} ]
       else [] |}.

(** ** Stores *)

(** A store that answers nothing. *)
Definition quiet_world : world :=
  {| http_get := fun _ => Failed "unreachable";
     date_iso := fun _ => "2025-03-16T12:00:00.000Z";
     write_error := None |}.

(** A store whose feed has one page with [n] mugs and whose other URLs do
    not answer. *)
Definition one_page_store (n : nat) : world :=
  {| http_get := fun u =>
       if String.eqb u "https://shop.example/products.json?page=1&limit=250"
       then Ok {| data_products := Some (repeat mug n); dom := no_document |}
       else Failed "timeout of 30000ms exceeded";
     date_iso := fun _ => "2025-03-16T12:00:00.000Z";
     write_error := None |}.

(** A store whose feed has a full first page and three mugs on the
    second. *)
Definition two_page_store : world :=
  {| http_get := fun u =>
       if String.eqb u "https://shop.example/products.json?page=1&limit=250"
       then Ok {| data_products := Some (repeat mug 250); dom := no_document |}
       else if String.eqb u "https://shop.example/products.json?page=2&limit=250"
       then Ok {| data_products := Some (repeat mug 3); dom := no_document |}
       else Failed "timeout of 30000ms exceeded";
     date_iso := fun _ => "2025-03-16T12:00:00.000Z";
     write_error := None |}.

(** The store of [one_page_store], on a disk that refuses the write. *)
Definition read_only_disk (n : nat) : world :=
  {| http_get := http_get (one_page_store n);
     date_iso := date_iso (one_page_store n);
     write_error := Some "EACCES: permission denied" |}.

(** A store without a feed that serves the page [doc] at [u]. *)
Definition page_store (u : string) (doc : document) : world :=
  {| http_get := fun v =>
       if String.eqb v u
       then Ok {| data_products := None; dom := doc |}
       else Failed "Request failed with status code 404";
     date_iso := fun _ => "2025-03-16T12:00:00.000Z";
     write_error := None |}.

(** ** A store without a feed, and a feed with a flaw *)

(** A catalogue page that links to the mug twice and to a cup on an
    absolute URL. *)
Definition catalogue_page : document :=
  {| ld_json := [];
     anchors :=
       [ {| attrs := [("href", "/products/mug")]; text := "Mug"; html := "" |};
         {| attrs := [("href", "/products/mug")]; text := "Buy"; html := "" |};
         {| attrs := [("href", "https://shop.example/products/cup?ref=home")];
            text := "Cup"; html := "" |} ];
     imgs := [];
     select := fun _ => [] |}.

(** A product page without structured data: a title, a price and the same
    thumbnail twice. *)
Definition gallery_page : document :=
  {| ld_json := [None]; anchors := [];
     imgs := [cdn_thumbnail; cdn_thumbnail];
     select := fun selector =>
       if String.eqb selector "h1"
       then [ {| attrs := []; text := " Mug "; html := "Mug" |} ]
       else if String.eqb selector ".product-price"
       then [ {| attrs := []; text := " $1,299.00 "; html := "" |} ]
       else [] |}.

(** A store that serves the catalogue page and the mug's page, and nothing
    else. *)
Definition catalogue_store : world :=
  {| http_get := fun u =>
       if String.eqb u "https://shop.example/collections/all"
       then Ok {| data_products := None; dom := catalogue_page |}
       else if String.eqb u "https://shop.example/products/mug"
       then Ok {| data_products := None; dom := gallery_page |}
       else Failed "Request failed with status code 404";
     date_iso := fun _ => "2025-03-16T12:00:00.000Z";
     write_error := None |}.

(** An entry whose image source is a number. *)
Definition numbered_image_entry : Feed.product :=
  {| Feed.id := VNum (parseFloat_string "8"); Feed.handle := "cup";
     Feed.title := VStr "Cup"; Feed.body_html := VNull;
     Feed.variants := None;
     Feed.images := [ {| Feed.src := VNum (parseFloat_string "5") |} ] |}.

(** A store whose one feed page has that entry between two mugs. *)
Definition flawed_store : world :=
  {| http_get := fun u =>
       if String.eqb u "https://shop.example/products.json?page=1&limit=250"
       then Ok {| data_products := Some [mug; numbered_image_entry; mug];
                  dom := no_document |}
       else Failed "timeout of 30000ms exceeded";
     date_iso := fun _ => "2025-03-16T12:00:00.000Z";
     write_error := None |}.



(** A store whose feed answers every page with the same 250 mugs. *)
Definition endless_store : world :=
  {| http_get := fun _ =>
       Ok {| data_products := Some (repeat mug 250); dom := no_document |};
     date_iso := fun _ => "2025-03-16T12:00:00.000Z";
     write_error := None |}.

(** A "Product" block whose description is an object. *)
Definition rich_description_block : value :=
  VObj [("@type", VStr "Product"); ("name", VStr "Mug");
        ("description", VObj [("@value", VStr "A mug.")])].

(* ================================================================== *)
(** * Facts about the runtime model *)
(* ================================================================== *)

Module NumberFacts.

Lemma compare_cont_refl (m : positive) : Pos.compare_cont Eq m m = Eq.
Proof. exact (Pos.compare_refl m). Qed.

Lemma num_le_refl (x : number) : isNaN x = false -> num_le x x = true.
Proof.
  unfold num_le, SFleb.
  destruct x as [s | s | | s m e]; simpl; try discriminate; intros _.
  - reflexivity.
  - destruct s; reflexivity.
  - destruct s; rewrite Z.compare_refl, compare_cont_refl; reflexivity.
Qed.

Lemma lex_le_trans e1 m1 e2 m2 e3 m3 :
  lex e1 m1 e2 m2 <> Gt -> lex e2 m2 e3 m3 <> Gt -> lex e1 m1 e3 m3 <> Gt.
Proof.
  unfold lex.
  destruct (Z.compare_spec e1 e2), (Z.compare_spec e2 e3),
    (Z.compare_spec e1 e3); try lia; try congruence.
  destruct (Pos.compare_spec m1 m2), (Pos.compare_spec m2 m3),
    (Pos.compare_spec m1 m3); try lia; congruence.
Qed.

Lemma lex_ge_trans e1 m1 e2 m2 e3 m3 :
  lex e1 m1 e2 m2 <> Lt -> lex e2 m2 e3 m3 <> Lt -> lex e1 m1 e3 m3 <> Lt.
Proof.
  unfold lex.
  destruct (Z.compare_spec e1 e2), (Z.compare_spec e2 e3),
    (Z.compare_spec e1 e3); try lia; try congruence.
  destruct (Pos.compare_spec m1 m2), (Pos.compare_spec m2 m3),
    (Pos.compare_spec m1 m3); try lia; congruence.
Qed.

Lemma num_le_finite_pos e1 m1 e2 m2 :
  num_le (S754_finite false m1 e1) (S754_finite false m2 e2) = true
  <-> lex e1 m1 e2 m2 <> Gt.
Proof.
  unfold num_le, SFleb, lex; simpl.
  change (Pos.compare_cont Eq m1 m2) with (Pos.compare m1 m2).
  destruct (Z.compare e1 e2); [destruct (Pos.compare m1 m2)| |];
    split; congruence.
Qed.

Lemma num_le_finite_neg e1 m1 e2 m2 :
  num_le (S754_finite true m1 e1) (S754_finite true m2 e2) = true
  <-> lex e1 m1 e2 m2 <> Lt.
Proof.
  unfold num_le, SFleb, lex; simpl.
  change (Pos.compare_cont Eq m1 m2) with (Pos.compare m1 m2).
  destruct (Z.compare e1 e2); [destruct (Pos.compare m1 m2)| |];
    simpl; split; congruence.
Qed.

Lemma num_le_trans (x y z : number) :
  num_le x y = true -> num_le y z = true -> num_le x z = true.
Proof.
  destruct x as [sx | sx | | sx mx ex], y as [sy | sy | | sy my ey],
    z as [sz | sz | | sz mz ez];
    try (destruct sx); try (destruct sy); try (destruct sz);
    try (intros; reflexivity); try (intros; discriminate);
    try (intros H _; discriminate H).
  - rewrite !num_le_finite_neg. apply lex_ge_trans.
  - rewrite !num_le_finite_pos. apply lex_le_trans.
Qed.

Lemma num_lt_le (x y : number) : num_lt x y = true -> num_le x y = true.
Proof.
  unfold num_lt, num_le, SFltb, SFleb.
  destruct (SFcompare x y) as [[]|]; congruence.
Qed.

Lemma compare_cont_antisym (m1 m2 : positive) :
  Pos.compare_cont Eq m2 m1 = CompOpp (Pos.compare_cont Eq m1 m2).
Proof. exact (Pos.compare_antisym m1 m2). Qed.

Lemma num_not_lt_ge (x y : number) :
  isNaN x = false -> isNaN y = false ->
  num_lt x y = false -> num_le y x = true.
Proof.
  unfold num_lt, num_le, SFltb, SFleb.
  destruct x as [sx | sx | | sx mx ex], y as [sy | sy | | sy my ey];
    simpl; try discriminate; intros _ _;
    try (destruct sx); try (destruct sy); simpl; try congruence.
  - rewrite (Z.compare_antisym ey ex), (compare_cont_antisym my mx).
    destruct (Z.compare ey ex); simpl; try congruence.
    destruct (Pos.compare_cont Eq my mx); simpl; congruence.
  - rewrite (Z.compare_antisym ey ex), (compare_cont_antisym my mx).
    destruct (Z.compare ey ex); simpl; try congruence.
    destruct (Pos.compare_cont Eq my mx); simpl; congruence.
Qed.

Lemma min_step_le_lowest (lowest x : number) :
  isNaN lowest = false -> isNaN x = false ->
  num_le (min_step lowest x) lowest = true.
Proof.
  intros Hl Hx. unfold min_step.
  destruct (is_neg_zero x && is_pos_zero lowest) eqn:Hz.
  - apply andb_true_iff in Hz as [Hn Hp].
    destruct x as [[]| | |]; try discriminate.
    destruct lowest as [[]| | |]; try discriminate. reflexivity.
  - destruct (num_lt x lowest) eqn:Hlt.
    + now apply num_lt_le.
    + now apply num_le_refl.
Qed.

Lemma min_step_le_arg (lowest x : number) :
  isNaN lowest = false -> isNaN x = false ->
  num_le (min_step lowest x) x = true.
Proof.
  intros Hl Hx. unfold min_step.
  destruct (is_neg_zero x && is_pos_zero lowest).
  - now apply num_le_refl.
  - destruct (num_lt x lowest) eqn:Hlt.
    + now apply num_le_refl.
    + now apply num_not_lt_ge.
Qed.

Lemma min_step_choice (lowest x : number) :
  min_step lowest x = lowest \/ min_step lowest x = x.
Proof.
  unfold min_step.
  destruct (is_neg_zero x && is_pos_zero lowest); [now right|].
  destruct (num_lt x lowest); [now right | now left].
Qed.

Lemma max_step_ge_highest (highest x : number) :
  isNaN highest = false -> isNaN x = false ->
  num_le highest (max_step highest x) = true.
Proof.
  intros Hh Hx. unfold max_step.
  destruct (is_pos_zero x && is_neg_zero highest) eqn:Hz.
  - apply andb_true_iff in Hz as [Hp Hn].
    destruct x as [[]| | |]; try discriminate.
    destruct highest as [[]| | |]; try discriminate. reflexivity.
  - destruct (num_lt highest x) eqn:Hlt.
    + now apply num_lt_le.
    + now apply num_le_refl.
Qed.

Lemma max_step_ge_arg (highest x : number) :
  isNaN highest = false -> isNaN x = false ->
  num_le x (max_step highest x) = true.
Proof.
  intros Hh Hx. unfold max_step.
  destruct (is_pos_zero x && is_neg_zero highest).
  - now apply num_le_refl.
  - destruct (num_lt highest x) eqn:Hlt.
    + now apply num_le_refl.
    + now apply num_not_lt_ge.
Qed.

Lemma max_step_choice (highest x : number) :
  max_step highest x = highest \/ max_step highest x = x.
Proof.
  unfold max_step.
  destruct (is_pos_zero x && is_neg_zero highest); [now right|].
  destruct (num_lt highest x); [now right | now left].
Qed.

Lemma no_NaN_In (l : list number) (x : number) :
  existsb isNaN l = false -> In x l -> isNaN x = false.
Proof.
  intros H Hin. destruct (isNaN x) eqn:E; [|reflexivity].
  assert (existsb isNaN l = true) by (apply existsb_exists; eauto).
  congruence.
Qed.

(** The running lowest of the fold: one of the values met so far, below
    all of them. *)
Lemma fold_min_step (l : list number) : forall a,
  isNaN a = false -> existsb isNaN l = false ->
  let m := fold_left min_step l a in
  isNaN m = false /\ (m = a \/ In m l) /\ num_le m a = true /\
  (forall x, In x l -> num_le m x = true).
Proof.
  induction l as [|y l IH]; intros a Ha Hl; simpl.
  - repeat split; auto using num_le_refl; intros x [].
  - simpl in Hl. apply orb_false_iff in Hl as [Hy Hl].
    assert (Hs : isNaN (min_step a y) = false)
      by (destruct (min_step_choice a y) as [-> | ->]; assumption).
    destruct (IH (min_step a y) Hs Hl) as (Hm & Hin & Hle & Hall).
    repeat split.
    + exact Hm.
    + destruct Hin as [-> | Hin]; [|now right; right].
      destruct (min_step_choice a y) as [-> | ->]; [now left | now right; left].
    + eapply num_le_trans; [exact Hle | now apply min_step_le_lowest].
    + intros x [<- | Hx]; [|now apply Hall].
      eapply num_le_trans; [exact Hle | now apply min_step_le_arg].
Qed.

Lemma fold_max_step (l : list number) : forall a,
  isNaN a = false -> existsb isNaN l = false ->
  let m := fold_left max_step l a in
  isNaN m = false /\ (m = a \/ In m l) /\ num_le a m = true /\
  (forall x, In x l -> num_le x m = true).
Proof.
  induction l as [|y l IH]; intros a Ha Hl; simpl.
  - repeat split; auto using num_le_refl; intros x [].
  - simpl in Hl. apply orb_false_iff in Hl as [Hy Hl].
    assert (Hs : isNaN (max_step a y) = false)
      by (destruct (max_step_choice a y) as [-> | ->]; assumption).
    destruct (IH (max_step a y) Hs Hl) as (Hm & Hin & Hle & Hall).
    repeat split.
    + exact Hm.
    + destruct Hin as [-> | Hin]; [|now right; right].
      destruct (max_step_choice a y) as [-> | ->]; [now left | now right; left].
    + eapply num_le_trans; [| exact Hle]; now apply max_step_ge_highest.
    + intros x [<- | Hx]; [|now apply Hall].
      eapply num_le_trans; [| exact Hle]; now apply max_step_ge_arg.
Qed.

(** The first argument always replaces the initial infinity. *)
Lemma min_step_Infinity (x : number) :
  isNaN x = false -> min_step Infinity x = x.
Proof. destruct x as [[]|[]| |[]]; simpl; intros; try reflexivity; discriminate. Qed.

Lemma max_step_neg_Infinity (x : number) :
  isNaN x = false -> max_step neg_Infinity x = x.
Proof. destruct x as [[]|[]| |[]]; simpl; intros; try reflexivity; discriminate. Qed.

(** [Math.min] of a non-empty list without [NaN] is a least element of the
    list, and [Math.max] a greatest one. *)
Lemma Math_min_is_minimum (l : list number) :
  l <> [] -> existsb isNaN l = false -> is_minimum (Math_min l) l.
Proof.
  intros Hne Hnan. unfold Math_min. rewrite Hnan.
  destruct l as [|x l]; [congruence|]. simpl fold_left.
  simpl in Hnan. apply orb_false_iff in Hnan as [Hx Hl].
  rewrite (min_step_Infinity x Hx).
  destruct (fold_min_step l x Hx Hl) as (_ & Hin & Hle & Hall).
  split.
  - destruct Hin as [-> | Hin]; [now left | now right].
  - intros y [<- | Hy]; [exact Hle | now apply Hall].
Qed.

Lemma Math_max_is_maximum (l : list number) :
  l <> [] -> existsb isNaN l = false -> is_maximum (Math_max l) l.
Proof.
  intros Hne Hnan. unfold Math_max. rewrite Hnan.
  destruct l as [|x l]; [congruence|]. simpl fold_left.
  simpl in Hnan. apply orb_false_iff in Hnan as [Hx Hl].
  rewrite (max_step_neg_Infinity x Hx).
  destruct (fold_max_step l x Hx Hl) as (_ & Hin & Hle & Hall).
  split.
  - destruct Hin as [-> | Hin]; [now left | now right].
  - intros y [<- | Hy]; [exact Hle | now apply Hall].
Qed.

Lemma filter_drops_NaN (l : list number) :
  existsb isNaN (filter (fun price => negb (isNaN price)) l) = false.
Proof.
  induction l as [|x l IH]; simpl; [reflexivity|].
  destruct (isNaN x) eqn:E; simpl; [exact IH|].
  now rewrite E, IH.
Qed.

End NumberFacts.

Module StringFacts.

Lemma trimStart_trimmed (s : string) : trimmed_start (trimStart s).
Proof.
  induction s as [|c s IH]; simpl; [exact I|].
  destruct (is_space c) eqn:E; [exact IH | exact E].
Qed.

Lemma trimStart_fixed (s : string) : trimmed_start s -> trimStart s = s.
Proof. destruct s as [|c s]; simpl; [reflexivity | now intros ->]. Qed.

Lemma trimEnd_trimmed (s : string) : trimmed_start s -> trimmed_start (trimEnd s).
Proof.
  destruct s as [|c s]; simpl; [trivial|]. intros Hc.
  destruct (trimEnd s); [rewrite Hc|]; exact Hc.
Qed.

Lemma trimEnd_idempotent (s : string) : trimEnd (trimEnd s) = trimEnd s.
Proof.
  induction s as [|c s IH]; simpl; [reflexivity|].
  destruct (trimEnd s) as [|d t] eqn:E.
  - destruct (is_space c) eqn:Hc; simpl; [reflexivity | now rewrite Hc].
  - change (trimEnd (String c (String d t))) with
      (match trimEnd (String d t) with
       | EmptyString => if is_space c then EmptyString else String c EmptyString
       | u => String c u
       end).
    now rewrite IH.
Qed.

(** [trim] leaves a trimmed string alone. *)
Lemma trim_idempotent (s : string) : trim (trim s) = trim s.
Proof.
  unfold trim.
  rewrite (trimStart_fixed (trimEnd (trimStart s))).
  - apply trimEnd_idempotent.
  - apply trimEnd_trimmed, trimStart_trimmed.
Qed.

(** A search that fails on a string fails at its head and on its tail. *)
Lemma exec_None_here (r : regex) (s : string) :
  exec r s = None -> match_here r s = None.
Proof.
  destruct s; simpl; destruct (match_here r _); congruence.
Qed.

Lemma exec_None_tail (r : regex) (c : ascii) (s : string) :
  exec r (String c s) = None -> exec r s = None.
Proof.
  simpl. destruct (match_here r (String c s)); [discriminate|].
  destruct (exec r s); [discriminate | reflexivity].
Qed.

(** A global replacement changes nothing where the pattern has no match. *)
Lemma replace_all_no_match (r : regex) (f : list string -> string) (s : string) :
  exec r s = None -> replace_all r f s = s.
Proof.
  unfold replace_all. induction s as [|c s IH]; intros H.
  - simpl. now rewrite (exec_None_here r "" H).
  - change (replace_all_from r f 0 (String c s)) with
      (match match_here r (String c s) with
       | Some m =>
           f (m_groups m) ++
           match String.length (m_text m) with
           | 0 => String c (replace_all_from r f 0 s)
           | S n => replace_all_from r f n s
           end
       | None => String c (replace_all_from r f 0 s)
       end).
    rewrite (exec_None_here r _ H), IH; [reflexivity|].
    exact (exec_None_tail r c s H).
Qed.

Lemma clean_fixed (s : string) :
  no_block (clean s) -> clean (clean s) = clean s.
Proof.
  intros [Hstyle Hscript]. unfold clean at 1.
  rewrite (replace_all_no_match style_block _ _ Hstyle).
  rewrite (replace_all_no_match script_block _ _ Hscript).
  unfold clean. apply trim_idempotent.
Qed.

End StringFacts.

Module NormalizerFacts.

Lemma set_images_same (p : productData) : set_images p (images p) = p.
Proof. now destruct p. Qed.

Lemma images_set_images (p : productData) (l : list value) :
  images (set_images p l) = l.
Proof. reflexivity. Qed.

Lemma set_images_twice (p : productData) (l l' : list value) :
  set_images (set_images p l) l' = set_images p l'.
Proof. reflexivity. Qed.

(** What the callback returns is either dropped by the filter or a string
    that begins with "http", which the callback returns as it is. *)
Lemma normalizeImageUrl_stable (v u : value) :
  normalizeImageUrl v = Some u -> truthy u = true ->
  normalizeImageUrl u = Some u.
Proof.
  unfold normalizeImageUrl.
  destruct (truthy v); simpl; [|intros [= <-]; discriminate].
  destruct v as [| | | |s| |]; try discriminate.
  intros [= <-] Hu. rewrite Hu. simpl. do 2 f_equal.
  destruct (startsWith s "http") eqn:E; simpl; [now rewrite E | reflexivity].
Qed.

Lemma map_or_throw_stable (l urls : list value) :
  map_or_throw normalizeImageUrl l = Some urls ->
  map_or_throw normalizeImageUrl (filter truthy urls) = Some (filter truthy urls).
Proof.
  revert urls. induction l as [|v l IH]; simpl; intros urls.
  - intros [= <-]. reflexivity.
  - destruct (normalizeImageUrl v) as [u|] eqn:Hv; [|discriminate].
    destruct (map_or_throw normalizeImageUrl l) as [us|]; [|discriminate].
    intros [= <-]. simpl.
    destruct (truthy u) eqn:Hu; [|now apply IH].
    simpl. rewrite (normalizeImageUrl_stable v u Hv Hu).
    now rewrite (IH us eq_refl).
Qed.

Lemma filter_truthy_twice (l : list value) :
  filter truthy (filter truthy l) = filter truthy l.
Proof.
  induction l as [|v l IH]; simpl; [reflexivity|].
  destruct (truthy v) eqn:E; simpl; [now rewrite E, IH | exact IH].
Qed.

(** [normalizeImageUrls] leaves its own results alone. *)
Lemma normalizeImageUrls_idempotent (p q : productData) :
  normalizeImageUrls p = Some q -> normalizeImageUrls q = Some q.
Proof.
  unfold normalizeImageUrls.
  destruct (map_or_throw normalizeImageUrl (images p)) as [urls|] eqn:E;
    [|discriminate].
  intros [= <-]. rewrite images_set_images.
  rewrite (map_or_throw_stable _ _ E), filter_truthy_twice.
  now rewrite set_images_twice.
Qed.

Lemma set_description_same (p : productData) :
  set_description p (description p) = p.
Proof. now destruct p. Qed.

Lemma with_scheme_http (u : string) : startsWith (with_scheme u) "http" = true.
Proof.
  unfold with_scheme. destruct (startsWith u "http") eqn:E; [exact E | reflexivity].
Qed.

(** Every image [normalizeImageUrls] keeps begins with "http". *)
Lemma normalizeImageUrl_scheme (v u : value) :
  normalizeImageUrl v = Some u -> truthy u = true -> has_scheme u.
Proof.
  unfold normalizeImageUrl.
  destruct (truthy v); simpl; [|intros [= <-]; discriminate].
  destruct v as [| | | |s| |]; try discriminate.
  intros [= <-] _. eexists. split; [reflexivity|].
  destruct (startsWith s "http") eqn:E; simpl; [exact E | reflexivity].
Qed.

Lemma map_or_throw_scheme (l urls : list value) :
  map_or_throw normalizeImageUrl l = Some urls ->
  Forall has_scheme (filter truthy urls).
Proof.
  revert urls. induction l as [|v l IH]; simpl; intros urls.
  - intros [= <-]. constructor.
  - destruct (normalizeImageUrl v) as [u|] eqn:Hv; [|discriminate].
    destruct (map_or_throw normalizeImageUrl l) as [us|]; [|discriminate].
    intros [= <-]. simpl.
    destruct (truthy u) eqn:Hu; [|now apply IH].
    constructor; [exact (normalizeImageUrl_scheme v u Hv Hu) | now apply IH].
Qed.

Lemma normalizeImageUrls_scheme (p q : productData) :
  normalizeImageUrls p = Some q -> Forall has_scheme (images q).
Proof.
  unfold normalizeImageUrls.
  destruct (map_or_throw normalizeImageUrl (images p)) as [urls|] eqn:E;
    [|discriminate].
  intros [= <-]. rewrite images_set_images. exact (map_or_throw_scheme _ _ E).
Qed.

(** Every image the markup tier collects begins with "http". *)
Lemma collect_images_scheme (doc : document) :
  Forall (fun u => startsWith u "http" = true) (collect_images doc).
Proof.
  unfold collect_images. apply Forall_flat_map. apply Forall_forall.
  intros el _. unfold image_of.
  destruct (image_source el) as [[|c src]|]; constructor; [|constructor].
  apply with_scheme_http.
Qed.

End NormalizerFacts.

Module RegexFacts.

Lemma append_assoc (a b c : string) : (a ++ b) ++ c = a ++ (b ++ c).
Proof. induction a as [|x a IH]; simpl; [reflexivity | now rewrite IH]. Qed.

Lemma append_empty (a : string) : a ++ "" = a.
Proof. induction a as [|x a IH]; simpl; [reflexivity | now rewrite IH]. Qed.

Lemma length_append (a b : string) :
  String.length (a ++ b) = String.length a + String.length b.
Proof. induction a as [|x a IH]; simpl; [reflexivity | now rewrite IH]. Qed.

Lemma substring_prefix (a b : string) :
  substring 0 (String.length a) (a ++ b) = a.
Proof.
  induction a as [|x a IH]; simpl; [now destruct b | now rewrite IH].
Qed.

(** What was consumed in front of a suffix is the prefix. *)
Lemma consumed_append (a b : string) : consumed (a ++ b) b = a.
Proof.
  unfold consumed. rewrite length_append.
  replace (String.length a + String.length b - String.length b)
    with (String.length a) by lia.
  apply substring_prefix.
Qed.

Lemma all_chars_append (p : ascii -> bool) (a b : string) :
  all_chars p (a ++ b) = all_chars p a && all_chars p b.
Proof.
  induction a as [|x a IH]; simpl; [reflexivity|].
  now rewrite IH, andb_assoc.
Qed.

Lemma dots_append (a b : string) : dots (a ++ b) = dots a + dots b.
Proof. induction a as [|x a IH]; simpl; [reflexivity | rewrite IH; lia]. Qed.

Lemma dots_none (p : ascii -> bool) (a : string) :
  p "."%char = false -> all_chars p a = true -> dots a = 0.
Proof.
  intros Hp. induction a as [|x a IH]; simpl; [reflexivity|].
  intros H. apply andb_true_iff in H as [Hx Ha].
  destruct (Ascii.eqb_spec x "."); [congruence | now apply IH].
Qed.

(** ** The matcher is sound for [matches] *)

Section Soundness.
Context {R : Type}.

Lemma star_sound (p : ascii -> bool) (s : string) (k : string -> option R)
      (res : R) :
  star p s k = Some res ->
  exists a rest, s = a ++ rest /\ all_chars p a = true /\ k rest = Some res.
Proof.
  induction s as [|c s IH]; simpl.
  - intros H. now exists "", "".
  - destruct (p c) eqn:Hc.
    + destruct (star p s k) as [r|] eqn:E.
      * intros [= ->]. destruct (IH eq_refl) as (a & rest & -> & Ha & Hk).
        exists (String c a), rest. simpl. now rewrite Hc, Ha.
      * intros H. now exists "", (String c s).
    + intros H. now exists "", (String c s).
Qed.

Lemma lazy_star_sound (p : ascii -> bool) (s : string)
      (k : string -> option R) (res : R) :
  lazy_star p s k = Some res ->
  exists a rest, s = a ++ rest /\ all_chars p a = true /\ k rest = Some res.
Proof.
  induction s as [|c s IH]; simpl.
  - destruct (k "") eqn:E; [|discriminate]. intros [= ->]. now exists "", "".
  - destruct (k (String c s)) eqn:E.
    + intros [= ->]. now exists "", (String c s).
    + destruct (p c) eqn:Hc; [|discriminate]. intros H.
      destruct (IH H) as (a & rest & -> & Ha & Hk).
      exists (String c a), rest. simpl. now rewrite Hc, Ha.
Qed.

Lemma rmatch_sound (r : regex) :
  forall (s : string) (caps : list string)
         (k : string -> list string -> option R) (res : R),
    rmatch r s caps k = Some res ->
    exists a rest caps',
      s = a ++ rest /\ matches r a rest /\ k rest caps' = Some res.
Proof.
  induction r as [|p|r1 IH1 r2 IH2|p|p|r IH|]; intros s caps k res; simpl.
  - intros H. exists "", s, caps. repeat split; [constructor | exact H].
  - destruct s as [|c s]; [discriminate|].
    destruct (p c) eqn:Hc; [|discriminate]. intros H.
    exists (String c ""), s, caps. repeat split; [now constructor | exact H].
  - intros H.
    destruct (IH1 _ _ _ _ H) as (a1 & rest1 & caps1 & -> & M1 & H1).
    destruct (IH2 _ _ _ _ H1) as (a2 & rest & caps2 & -> & M2 & H2).
    exists (a1 ++ a2), rest, caps2. rewrite append_assoc.
    repeat split; [now constructor | exact H2].
  - intros H. destruct (star_sound _ _ _ _ H) as (a & rest & -> & Ha & Hk).
    exists a, rest, caps. repeat split; [now constructor | exact Hk].
  - intros H. destruct (lazy_star_sound _ _ _ _ H) as (a & rest & -> & Ha & Hk).
    exists a, rest, caps. repeat split; [now constructor | exact Hk].
  - intros H. destruct (IH _ _ _ _ H) as (a & rest & caps' & -> & M & Hk).
    exists a, rest, (caps' ++ [consumed (a ++ rest) rest])%list.
    repeat split; [now constructor | exact Hk].
  - destruct s; [|discriminate]. intros H.
    exists "", "", caps. repeat split; [constructor | exact H].
Qed.

End Soundness.

Lemma match_here_sound (r : regex) (s : string) (m : match_result) :
  match_here r s = Some m -> exists a rest, s = a ++ rest /\ matches r a rest.
Proof.
  unfold match_here. intros H.
  destruct (rmatch_sound r _ _ _ _ H) as (a & rest & _ & -> & M & _).
  now exists a, rest.
Qed.

(** ** Following the matcher through its choices *)

Section Backtracking.
Context {R : Type}.

(** A greedy run takes all of [x] when what follows succeeds. *)
Lemma star_prefix (p : ascii -> bool) (x s : string)
      (k : string -> option R) (r : R) :
  all_chars p x = true -> star p s k = Some r -> star p (x ++ s) k = Some r.
Proof.
  induction x as [|c x IH]; simpl; [trivial|].
  intros H Hs. apply andb_true_iff in H as [Hc Hx].
  now rewrite Hc, (IH Hx Hs).
Qed.

(** A run ends where the class ends. *)
Lemma star_stop (p : ascii -> bool) (s : string) (k : string -> option R) :
  stops p s -> star p s k = k s.
Proof. destruct s as [|c s]; simpl; [reflexivity | now intros ->]. Qed.

(** A run over [x] fails when its continuation refuses every text that
    begins with a character of [x]. *)
Lemma star_fails_run (p q : ascii -> bool) (x y : string)
      (k : string -> option R) :
  all_chars p x = true -> all_chars q x = true ->
  (forall c t, q c = true -> k (String c t) = None) ->
  star p y k = None ->
  star p (x ++ y) k = None.
Proof.
  intros Hp Hq Hk Hy. induction x as [|c x IH]; simpl; [exact Hy|].
  simpl in Hp, Hq. apply andb_true_iff in Hp as [Hc Hx].
  apply andb_true_iff in Hq as [Hqc Hqx].
  rewrite Hc, (IH Hx Hqx). now apply Hk.
Qed.

(** When taking [c] leads nowhere, the run gives [c] back. *)
Lemma star_backtrack (p : ascii -> bool) (c : ascii) (s : string)
      (k : string -> option R) (r : R) :
  p c = true -> star p s k = None -> k (String c s) = Some r ->
  star p (String c s) k = Some r.
Proof. intros Hc Hs Hr. simpl. now rewrite Hc, Hs. Qed.
End Backtracking.

Lemma all_chars_weaken (p q : ascii -> bool) (s : string) :
  (forall c, p c = true -> q c = true) ->
  all_chars p s = true -> all_chars q s = true.
Proof.
  intros Hpq. induction s as [|c s IH]; simpl; [trivial|].
  intros H. apply andb_true_iff in H as [Hc Hs]. now rewrite (Hpq c Hc), IH.
Qed.

Lemma digit_not_dot (c : ascii) : is_digit c = true -> none_of "." c = true.
Proof. destruct c as [[] [] [] [] [] [] [] []]; vm_compute; trivial. Qed.

Lemma digit_not_underscore (c : ascii) :
  is_digit c = true -> not_underscore c = true.
Proof. destruct c as [[] [] [] [] [] [] [] []]; vm_compute; trivial. Qed.

Lemma digits_not_dot (c : ascii) (s : string) :
  is_digit c = true -> all_chars is_digit s = true ->
  all_chars (none_of ".") (String c s) = true.
Proof.
  intros Hc Hs. simpl.
  now rewrite (digit_not_dot c Hc), (all_chars_weaken _ _ s digit_not_dot Hs).
Qed.

Lemma digits_not_underscore (c : ascii) (s : string) :
  is_digit c = true -> all_chars is_digit s = true ->
  all_chars not_underscore (String c s) = true.
Proof.
  intros Hc Hs. simpl.
  now rewrite (digit_not_underscore c Hc),
    (all_chars_weaken _ _ s digit_not_underscore Hs).
Qed.

Lemma consumed_empty (s : string) : consumed s "" = s.
Proof.
  unfold consumed. simpl. rewrite Nat.sub_0_r.
  induction s as [|c s IH]; simpl; [reflexivity | now rewrite IH].
Qed.

(** The second group begins with "_": it refuses any text that begins
    otherwise. *)
Ltac refuses_without_underscore :=
  let c := fresh "c" in
  let t := fresh "t" in
  let Hc := fresh "Hc" in
  intros c t Hc; unfold not_underscore in Hc; cbv beta iota; unfold one;
  now destruct (Ascii.eqb c "_").

(** The pattern matches a text of the form [.body_WxH.ext] whole, taking
    [.body], [_WxH] and [.ext] as its three groups: the greedy run of the
    first group goes up to the last ".", finds no "_" to go on with, and
    gives the characters back until the size token is in front. *)
Lemma thumbnail_match (c0 : ascii) (body w h ext : string) (d1 d2 e0 : ascii) :
  none_of "." c0 = true -> all_chars (none_of ".") body = true ->
  is_digit d1 = true -> all_chars is_digit w = true ->
  is_digit d2 = true -> all_chars is_digit h = true ->
  none_of "." e0 = true -> all_chars (none_of ".") ext = true ->
  let token := String "_" (String d1 w ++ String "x" (String d2 h)) in
  let text :=
    String "." (String c0 body ++
                String "_" (String d1 w ++
                            String "x" (String d2 h ++
                                        String "." (String e0 ext)))) in
  match_here thumbnail_suffix text
  = Some (MatchResult "" text
            [String "." (String c0 body); token; String "." (String e0 ext)]
            "").
Proof.
  intros Hc0 Hbody Hd1 Hw Hd2 Hh He0 Hext. cbv zeta.
  unfold match_here, thumbnail_suffix, Plus.
  cbn [rmatch one Ascii.eqb Bool.eqb append]. rewrite Hc0.
  apply star_prefix; [exact Hbody|].
  apply star_backtrack.
  - reflexivity.
  - apply (star_fails_run _ not_underscore (String d1 w));
      [now apply digits_not_dot | now apply digits_not_underscore
      | refuses_without_underscore |].
    apply (star_fails_run _ not_underscore (String "x" (String d2 h)));
      [now apply (digits_not_dot d2) | now apply (digits_not_underscore d2)
      | refuses_without_underscore | reflexivity].
  - cbn [one Ascii.eqb Bool.eqb append]. rewrite Hd1.
    apply star_prefix; [exact Hw|].
    rewrite star_stop by reflexivity.
    cbn [one Ascii.eqb Bool.eqb append]. rewrite Hd2.
    apply star_prefix; [exact Hh|].
    rewrite star_stop by reflexivity.
    cbn [one Ascii.eqb Bool.eqb append]. rewrite He0.
    rewrite <- (append_empty ext) at 1.
    apply star_prefix; [exact Hext|].
    cbn [star app].
    rewrite !consumed_empty.
    change (consumed (String "." (String c0 (body ++ ?t))) ?t)
      with (consumed (String "." (String c0 body) ++ t) t).
    rewrite (consumed_append (String "." (String c0 body))).
    set (y := String "." (String e0 ext)).
    replace (String "_" (String d1 (w ++ String "x" (String d2 (h ++ y)))))
      with (String "_" (String d1 w ++ String "x" (String d2 h)) ++ y)
      by (simpl; now rewrite append_assoc).
    now rewrite consumed_append.
Qed.

(** ** The texts the thumbnail pattern accepts *)

Ltac inv H := inversion H; subst; clear H.

Lemma dots_one_dot (c : ascii) : one "." c = true -> dots (String c "") = 1.
Proof. unfold one. simpl. now intros ->. Qed.

Lemma dots_other (p : ascii -> bool) (c : ascii) :
  p "."%char = false -> p c = true -> dots (String c "") = 0.
Proof.
  intros Hp Hc. simpl. destruct (Ascii.eqb_spec c "."); [congruence | reflexivity].
Qed.

Lemma thumbnail_shape (a rest : string) :
  matches thumbnail_suffix a rest ->
  rest = "" /\ dots a = 2 /\ exists a', a = String "." a'.
Proof.
  unfold thumbnail_suffix, Plus. intros H.
  repeat match goal with
         | M : matches (Cat _ _) _ _ |- _ => inv M
         | M : matches (Group _) _ _ |- _ => inv M
         | M : matches (Chr _) _ _ |- _ => inv M
         | M : matches (Star _) _ _ |- _ => inv M
         | M : matches Eos _ _ |- _ => inv M
         end.
  split; [reflexivity|]. split.
  - rewrite !dots_append.
    rewrite (dots_one_dot _ H2), (dots_one_dot _ H3).
    rewrite (dots_other _ _ eq_refl H6), (dots_other _ _ eq_refl H8).
    rewrite (dots_other _ _ eq_refl H10), (dots_other _ _ eq_refl H5).
    rewrite (dots_other _ _ eq_refl H0), (dots_other _ _ eq_refl H1).
    rewrite (dots_none _ _ eq_refl H4), (dots_none _ _ eq_refl H12).
    rewrite (dots_none _ _ eq_refl H13), (dots_none _ _ eq_refl H11).
    reflexivity.
  - unfold one in H2. apply Ascii.eqb_eq in H2. subst. simpl. eauto.
Qed.

Lemma no_earlier_match (b t : string) :
  b <> "" -> dots t = 2 -> match_here thumbnail_suffix (b ++ t) = None.
Proof.
  intros Hb Ht. destruct (match_here thumbnail_suffix (b ++ t)) as [m|] eqn:E;
    [exfalso | reflexivity].
  destruct (match_here_sound _ _ _ E) as (a & rest & Hs & M).
  destruct (thumbnail_shape a rest M) as (-> & Ha & a' & ->).
  rewrite append_empty in Hs.
  assert (Hd : dots (b ++ t) = 2) by now rewrite Hs.
  rewrite dots_append, Ht in Hd.
  destruct b as [|c b]; [congruence|]. simpl in Hs. injection Hs as -> _.
  simpl in Hd. lia.
Qed.

Lemma exec_skip (r : regex) (pre t : string) (m : match_result) :
  (forall a b, pre = a ++ b -> b <> "" -> match_here r (b ++ t) = None) ->
  match_here r t = Some m ->
  exec r (pre ++ t) =
    Some (MatchResult (pre ++ m_before m) (m_text m) (m_groups m) (m_after m)).
Proof.
  intros Hpre Hm. induction pre as [|c pre IH].
  - simpl. destruct m. destruct t; simpl; now rewrite Hm.
  - change (exec r (String c pre ++ t)) with
      (match match_here r (String c pre ++ t) with
       | Some m' => Some m'
       | None =>
           match exec r (pre ++ t) with
           | Some m' =>
               Some (MatchResult (String c (m_before m')) (m_text m')
                                 (m_groups m') (m_after m'))
           | None => None
           end
       end).
    rewrite (Hpre "" (String c pre) eq_refl) by discriminate.
    rewrite IH; [reflexivity|].
    intros a b -> Hb. now apply (Hpre (String c a) b).
Qed.

(** ** [fullSize] on a URL that ends in [.body_WxH.ext] *)

Lemma nonempty_all_chars (p : ascii -> bool) (s : string) :
  s <> "" -> all_chars p s = true ->
  exists c s', s = String c s' /\ p c = true /\ all_chars p s' = true.
Proof.
  destruct s as [|c s']; [congruence|]. simpl. intros _ H.
  apply andb_true_iff in H as [Hc Hs]. now exists c, s'.
Qed.

Lemma dots_cons_dot (s : string) : dots (String "." s) = S (dots s).
Proof. reflexivity. Qed.

Lemma dots_cons_other (p : ascii -> bool) (c : ascii) (s : string) :
  p "."%char = false -> p c = true -> dots (String c s) = dots s.
Proof.
  intros Hp Hc. simpl. destruct (Ascii.eqb_spec c "."); [congruence | reflexivity].
Qed.

Lemma fullSize_strips (pre body w h ext : string) :
  body <> "" -> all_chars (none_of ".") body = true ->
  w <> "" -> all_chars is_digit w = true ->
  h <> "" -> all_chars is_digit h = true ->
  ext <> "" -> all_chars (none_of ".") ext = true ->
  fullSize (pre ++ "." ++ body ++ "_" ++ w ++ "x" ++ h ++ "." ++ ext)
  = pre ++ "." ++ body ++ "." ++ ext.
Proof.
  intros Nb Hb Nw Hw Nh Hh Ne He.
  destruct (nonempty_all_chars _ _ Nb Hb) as (c0 & body' & -> & Hc0 & Hbody).
  destruct (nonempty_all_chars _ _ Nw Hw) as (d1 & w' & -> & Hd1 & Hw').
  destruct (nonempty_all_chars _ _ Nh Hh) as (d2 & h' & -> & Hd2 & Hh').
  destruct (nonempty_all_chars _ _ Ne He) as (e0 & ext' & -> & He0 & Hext).
  pose proof (thumbnail_match c0 body' w' h' ext' d1 d2 e0
                Hc0 Hbody Hd1 Hw' Hd2 Hh' He0 Hext) as Hm.
  set (t := String "." (String c0 body' ++ String "_"
              (String d1 w' ++ String "x"
                 (String d2 h' ++ String "." (String e0 ext'))))) in *.
  assert (Ht : dots t = 2).
  { unfold t. cbn [append].
    rewrite dots_cons_dot, (dots_cons_other _ c0 _ eq_refl Hc0), dots_append.
    rewrite (dots_cons_other (one "_") "_" _ eq_refl eq_refl).
    rewrite (dots_cons_other _ d1 _ eq_refl Hd1), dots_append.
    rewrite (dots_cons_other (one "x") "x" _ eq_refl eq_refl).
    rewrite (dots_cons_other _ d2 _ eq_refl Hd2), dots_append.
    rewrite dots_cons_dot, (dots_cons_other _ e0 _ eq_refl He0).
    rewrite (dots_none _ _ eq_refl Hbody), (dots_none _ _ eq_refl Hext).
    rewrite (dots_none _ _ eq_refl Hw'), (dots_none _ _ eq_refl Hh').
    reflexivity. }
  unfold fullSize, replace.
  change (pre ++ "." ++ String c0 body' ++ "_" ++ String d1 w' ++ "x" ++
          String d2 h' ++ "." ++ String e0 ext') with (pre ++ t).
  rewrite (exec_skip thumbnail_suffix pre t _
             (fun a b _ Hne => no_earlier_match b t Hne Ht) Hm).
  simpl. now rewrite !append_empty.
Qed.

End RegexFacts.

(* ================================================================== *)
(** * Facts about runs *)
(* ================================================================== *)

Module RunFacts.

Lemma bind_Return {A B} (m : M A) (k : A -> M B) (st st1 : state) (a : A) :
  m st = (Return a, st1) -> bind m k st = k a st1.
Proof. unfold bind. now intros ->. Qed.

Lemma bind_Throw {A B} (m : M A) (k : A -> M B) (st st1 : state) (e : string) :
  m st = (Throw e, st1) -> bind m k st = (Throw e, st1).
Proof. unfold bind. now intros ->. Qed.

Lemma requests_app (a b : list effect) :
  requests (a ++ b) = (requests a ++ requests b)%list.
Proof.
  induction a as [|[u|ms|d f c] a IH]; simpl; [reflexivity| |exact IH|exact IH].
  now rewrite IH.
Qed.

Lemma grows_refl (st : state) : grows st st.
Proof. repeat split. exists []. now rewrite app_nil_r. Qed.

Lemma grows_trans (a b c : state) : grows a b -> grows b c -> grows a c.
Proof.
  intros (Hu & Hd & x & Hx) (Hu' & Hd' & y & Hy). repeat split; try congruence.
  exists (x ++ y)%list. now rewrite Hy, Hx, app_assoc.
Qed.

Section Runs.
Variable w : world.

(** What one feed entry does to the state, whatever the entry. *)
Lemma feed_entry_any (product : Feed.product) (st : state) :
  exists o st',
    feed_entry w product st = (o, st') /\ o <> OutOfFuel /\ grows st st' /\
    requests (effects st') = requests (effects st).
Proof.
  unfold feed_entry, bind, self, lift, now, normalizeImageUrls, push, sleep, emit.
  destruct (cleanDescription (Feed.body_html product)) as [d|]; simpl.
  - destruct (map_or_throw normalizeImageUrl _) as [urls|]; simpl.
    + eexists _, _. split; [reflexivity|]. split; [discriminate|]. split.
      * repeat split. simpl. eauto.
      * simpl. now rewrite requests_app, app_nil_r.
    + eexists _, _. split; [reflexivity|]. split; [discriminate|]. split.
      * repeat split. simpl. exists []. now rewrite app_nil_r.
      * reflexivity.
  - eexists _, _. split; [reflexivity|]. split; [discriminate|]. split.
    + apply grows_refl.
    + reflexivity.
Qed.

(** A processable entry adds one record and one pause. *)
Lemma feed_entry_ok (product : Feed.product) (st : state) :
  processable product = true ->
  exists r st',
    feed_entry w product st = (Return tt, st') /\
    storeUrl (this st') = storeUrl (this st) /\
    outputDir (this st') = outputDir (this st) /\
    productsData (this st') = (productsData (this st) ++ [r])%list /\
    requests (effects st') = requests (effects st).
Proof.
  unfold processable.
  unfold feed_entry, bind, self, lift, now, normalizeImageUrls, push, sleep, emit.
  destruct (cleanDescription (Feed.body_html product)) as [d|]; [|discriminate].
  simpl.
  destruct (map_or_throw normalizeImageUrl _) as [urls|]; [|discriminate].
  intros _. simpl. eexists _, _. split; [reflexivity|]. simpl.
  repeat split. now rewrite requests_app, app_nil_r.
Qed.

Lemma entries_any (products : list Feed.product) : forall st,
  exists o st',
    for_of products (feed_entry w) st = (o, st') /\ o <> OutOfFuel /\
    grows st st' /\ requests (effects st') = requests (effects st).
Proof.
  induction products as [|p ps IH]; intros st; simpl.
  - exists (Return tt), st. repeat split; try discriminate.
    exists []. now rewrite app_nil_r.
  - destruct (feed_entry_any p st) as (o & st1 & E & Ho & Hg & Hr).
    unfold bind. rewrite E. destruct o as [[]|e|]; [| |congruence].
    + destruct (IH st1) as (o2 & st2 & E2 & Ho2 & Hg2 & Hr2).
      exists o2, st2. repeat split; try assumption; try congruence.
      * destruct Hg as (? & _), Hg2 as (? & _); congruence.
      * destruct Hg as (_ & ? & _), Hg2 as (_ & ? & _); congruence.
      * destruct (grows_trans _ _ _ Hg Hg2) as (_ & _ & H). exact H.
    + exists (Throw e), st1. repeat split; try discriminate; try apply Hg; assumption.
Qed.

Lemma entries_ok (products : list Feed.product) : forall st,
  Forall (fun p => processable p = true) products ->
  exists added st',
    for_of products (feed_entry w) st = (Return tt, st') /\
    storeUrl (this st') = storeUrl (this st) /\
    outputDir (this st') = outputDir (this st) /\
    productsData (this st') = (productsData (this st) ++ added)%list /\
    List.length added = List.length products /\
    requests (effects st') = requests (effects st).
Proof.
  induction products as [|p ps IH]; intros st Hall; simpl.
  - exists [], st. repeat split. now rewrite app_nil_r.
  - inversion Hall as [|? ? Hp Hps]; subst.
    destruct (feed_entry_ok p st Hp) as (r & st1 & E & Hu & Hd & Hpd & Hr).
    destruct (IH st1 Hps) as (added & st2 & E2 & Hu2 & Hd2 & Hpd2 & Hlen & Hr2).
    exists (r :: added), st2. unfold bind. rewrite E. 
    repeat split; try congruence.
    + rewrite Hpd2, Hpd, <- app_assoc. reflexivity.
    + simpl. now rewrite Hlen.
Qed.

Lemma requests_after_get (st : state) (u : string) :
  requests (effects (after_get st u)) = (requests (effects st) ++ [u])%list.
Proof. simpl. now rewrite requests_app. Qed.

Lemma grows_after_get (st : state) (u : string) : grows st (after_get st u).
Proof. repeat split. exists []. simpl. now rewrite app_nil_r. Qed.

(** One turn of the [while] loop. *)
Lemma feed_pages_step (fuel page total : nat) (st : state) :
  let u := feed_url (storeUrl (this st)) page in
  feed_pages w (S fuel) page total st =
    match http_get w u with
    | Failed message => (Throw message, after_get st u)
    | Ok b =>
        match data_products b with
        | Some ((_ :: _) as products) =>
            bind (for_of products (feed_entry w))
                 (fun _ =>
                    if List.length products <? limit
                    then ret (0 <? total + List.length products)
                    else bind (sleep 2000)
                           (fun _ => feed_pages w fuel (page + 1)
                                       (total + List.length products)))
                 (after_get st u)
        | _ => (if page =? 1 then ret false else ret (0 <? total))
                 (after_get st u)
        end
    end.
Proof.
  cbv zeta. simpl feed_pages. unfold bind at 1. unfold self at 1.
  unfold bind at 1. unfold axios_get, bind, emit.
  destruct (http_get w _) as [message|b]; [reflexivity|]. simpl.
  destruct (data_products b) as [[|p ps]|]; reflexivity.
Qed.

Lemma limit_positive : 0 < limit.
Proof. unfold limit. lia. Qed.

(** A page with fewer entries than the bound ends the loop: the turn
    returns (or throws) without another request. *)
Lemma feed_pages_short (fuel page total : nat) (st : state) (b : body) :
  http_get w (feed_url (storeUrl (this st)) page) = Ok b ->
  List.length (page_entries b) < limit ->
  exists o st',
    feed_pages w (S fuel) page total st = (o, st') /\ o <> OutOfFuel /\
    grows st st' /\
    requests (effects st')
    = (requests (effects st) ++ [feed_url (storeUrl (this st)) page])%list.
Proof.
  intros Hget Hlen. rewrite feed_pages_step. cbv zeta. rewrite Hget.
  set (u := feed_url (storeUrl (this st)) page).
  unfold page_entries in Hlen.
  destruct (data_products b) as [[|p ps]|].
  - destruct (page =? 1);
      (eexists _, (after_get st u); split; [reflexivity|];
       split; [discriminate|];
       split; [apply grows_after_get | apply requests_after_get]).
  - destruct (entries_any (p :: ps) (after_get st u))
      as (o & st1 & E & Ho & Hg & Hr).
    unfold bind at 1. rewrite E.
    apply Nat.ltb_lt in Hlen. rewrite Hlen.
    destruct o as [[]|e|]; [| |congruence].
    + eexists _, st1. split; [reflexivity|]. split; [discriminate|]. split.
      * exact (grows_trans _ _ _ (grows_after_get st u) Hg).
      * rewrite Hr. apply requests_after_get.
    + eexists _, st1. split; [reflexivity|]. split; [discriminate|]. split.
      * exact (grows_trans _ _ _ (grows_after_get st u) Hg).
      * rewrite Hr. apply requests_after_get.
  - destruct (page =? 1);
      (eexists _, (after_get st u); split; [reflexivity|];
       split; [discriminate|];
       split; [apply grows_after_get | apply requests_after_get]).
Qed.

(** A full page of processable entries: the records are pushed, the loop
    pauses and goes on to the next page. *)
Lemma feed_pages_full (fuel page total : nat) (st : state) (b : body) :
  http_get w (feed_url (storeUrl (this st)) page) = Ok b ->
  limit <= List.length (page_entries b) ->
  Forall (fun p => processable p = true) (page_entries b) ->
  exists added st1,
    feed_pages w (S fuel) page total st
    = feed_pages w fuel (page + 1) (total + List.length (page_entries b)) st1 /\
    storeUrl (this st1) = storeUrl (this st) /\
    outputDir (this st1) = outputDir (this st) /\
    productsData (this st1) = (productsData (this st) ++ added)%list /\
    List.length added = List.length (page_entries b) /\
    requests (effects st1)
    = (requests (effects st) ++ [feed_url (storeUrl (this st)) page])%list.
Proof.
  intros Hget Hlen Hall. rewrite feed_pages_step. cbv zeta. rewrite Hget.
  set (u := feed_url (storeUrl (this st)) page).
  pose proof limit_positive as Hpos.
  unfold page_entries in *.
  destruct (data_products b) as [[|p ps]|]; simpl in Hlen; try lia.
  destruct (entries_ok (p :: ps) (after_get st u) Hall)
    as (added & st1 & E & Hu & Hd & Hpd & Hl & Hr).
  unfold bind at 1. rewrite E.
  assert (Hge : (List.length (p :: ps) <? limit) = false)
    by (apply Nat.ltb_ge; simpl; lia).
  rewrite Hge. unfold bind, sleep, emit.
  eexists added, _. split; [reflexivity|]. simpl.
  repeat split; try assumption.
  rewrite requests_app, Hr, app_nil_r. apply requests_after_get.
Qed.

Lemma feed_pages_failed (fuel page total : nat) (st : state) (message : string) :
  http_get w (feed_url (storeUrl (this st)) page) = Failed message ->
  feed_pages w (S fuel) page total st
  = (Throw message, after_get st (feed_url (storeUrl (this st)) page)).
Proof. intros Hget. rewrite feed_pages_step. cbv zeta. now rewrite Hget. Qed.

(** Whatever happens, a run of the loop keeps the records and the requests
    it started with, and its first request is for its first page. *)
Lemma feed_pages_trace (fuel : nat) : forall page total st,
  grows st (snd (feed_pages w fuel page total st)) /\
  exists rest,
    requests (effects (snd (feed_pages w fuel page total st)))
    = (requests (effects st) ++ rest)%list /\
    (fuel <> 0 ->
     exists rest', rest = feed_url (storeUrl (this st)) page :: rest').
Proof.
  induction fuel as [|fuel IH]; intros page total st.
  - simpl. split; [apply grows_refl|]. exists []. rewrite app_nil_r.
    split; [reflexivity | congruence].
  - rewrite feed_pages_step. cbv zeta.
    set (u := feed_url (storeUrl (this st)) page).
    assert (Hbase : forall (o : outcome bool),
               grows st (snd (o, after_get st u)) /\
               exists rest,
                 requests (effects (snd (o, after_get st u)))
                 = (requests (effects st) ++ rest)%list /\
                 (S fuel <> 0 -> exists rest', rest = u :: rest')).
    { intros o. split; [apply grows_after_get|]. exists [u].
      split; [apply requests_after_get | eauto]. }
    destruct (http_get w u) as [message|b]; [apply Hbase|].
    destruct (data_products b) as [[|p ps]|].
    + destruct (page =? 1); apply Hbase.
    + destruct (entries_any (p :: ps) (after_get st u))
        as (o & st1 & E & Ho & Hg & Hr).
      pose proof (grows_trans _ _ _ (grows_after_get st u) Hg) as Hg1.
      destruct o as [[]|e|]; [| |congruence].
      * rewrite (bind_Return _ _ _ _ _ E).
        destruct (List.length (p :: ps) <? limit).
        -- unfold ret. simpl snd.
           split; [exact Hg1|]. exists [u]. rewrite Hr.
           split; [apply requests_after_get | eauto].
        -- unfold bind, sleep, emit.
           match goal with
           | |- context [feed_pages w fuel ?pg ?tt ?s2] =>
               destruct (IH pg tt s2) as (Hg2 & rest & Hrest & _);
               assert (Hs2 : grows st1 s2)
                 by (repeat split; exists []; simpl; now rewrite app_nil_r);
               assert (Hr2 : requests (effects s2) = requests (effects st1))
                 by (simpl; now rewrite requests_app, app_nil_r)
           end.
           split.
           ++ exact (grows_trans _ _ _ Hg1 (grows_trans _ _ _ Hs2 Hg2)).
           ++ exists (u :: rest). rewrite Hrest, Hr2, Hr, requests_after_get.
              rewrite <- app_assoc. split; [reflexivity | eauto].
      * rewrite (bind_Throw _ _ _ _ _ E). simpl snd.
        split; [exact Hg1|]. exists [u]. rewrite Hr.
        split; [apply requests_after_get | eauto].
    + destruct (page =? 1); apply Hbase.
Qed.

(** [n] full pages, then a request that fails: the loop throws at the failed
    request, with the records of the [n] pages in the list. *)
Lemma feed_pages_error_after (n : nat) : forall fuel page total st message,
  (forall i, i < n -> full_page w (storeUrl (this st)) (page + i)) ->
  http_get w (feed_url (storeUrl (this st)) (page + n)) = Failed message ->
  n < fuel ->
  exists added st',
    feed_pages w fuel page total st = (Throw message, st') /\
    productsData (this st') = (productsData (this st) ++ added)%list /\
    limit * n <= List.length added.
Proof.
  induction n as [|n IH]; intros fuel page total st message Hfull Hfail Hfuel.
  - destruct fuel as [|fuel]; [lia|].
    rewrite Nat.add_0_r in Hfail. rewrite (feed_pages_failed _ _ _ _ _ Hfail).
    exists [], (after_get st (feed_url (storeUrl (this st)) page)).
    repeat split; simpl; [now rewrite app_nil_r | lia].
  - destruct fuel as [|fuel]; [lia|].
    destruct (Hfull 0 ltac:(lia)) as (b & Hget & Hlen & Hproc).
    rewrite Nat.add_0_r in Hget.
    destruct (feed_pages_full fuel page total st b Hget Hlen Hproc)
      as (added1 & st1 & E & Hu & _ & Hpd & Hl & _).
    rewrite E.
    destruct (IH fuel (page + 1) (total + List.length (page_entries b)) st1 message)
      as (added2 & st' & E2 & Hpd2 & Hl2).
    + intros i Hi. rewrite Hu.
      replace (page + 1 + i) with (page + S i) by lia. apply Hfull. lia.
    + rewrite Hu. replace (page + 1 + n) with (page + S n) by lia. exact Hfail.
    + lia.
    + exists (added1 ++ added2)%list, st'. split; [exact E2|]. split.
      * now rewrite Hpd2, Hpd, app_assoc.
      * rewrite length_app. lia.
Qed.

(** [n] full pages, then a page with fewer entries than the bound: the loop
    ends there, within [n + 1] units of fuel, having requested exactly the
    pages [page], ..., [page + n]. *)
Lemma feed_pages_ends_after (n : nat) : forall fuel page total st b,
  (forall i, i < n -> full_page w (storeUrl (this st)) (page + i)) ->
  http_get w (feed_url (storeUrl (this st)) (page + n)) = Ok b ->
  List.length (page_entries b) < limit ->
  n < fuel ->
  exists o st',
    feed_pages w fuel page total st = (o, st') /\ o <> OutOfFuel /\
    requests (effects st')
    = (requests (effects st)
         ++ map (feed_url (storeUrl (this st))) (seq page (S n)))%list.
Proof.
  induction n as [|n IH]; intros fuel page total st b Hfull Hget Hlen Hfuel.
  - destruct fuel as [|fuel]; [lia|]. rewrite Nat.add_0_r in Hget.
    destruct (feed_pages_short fuel page total st b Hget Hlen)
      as (o & st' & E & Ho & _ & Hr).
    now exists o, st'.
  - destruct fuel as [|fuel]; [lia|].
    destruct (Hfull 0 ltac:(lia)) as (b1 & Hget1 & Hlen1 & Hproc1).
    rewrite Nat.add_0_r in Hget1.
    destruct (feed_pages_full fuel page total st b1 Hget1 Hlen1 Hproc1)
      as (added1 & st1 & E & Hu & _ & _ & _ & Hr1).
    rewrite E.
    destruct (IH fuel (page + 1) (total + List.length (page_entries b1)) st1 b)
      as (o & st' & E2 & Ho & Hr2).
    + intros i Hi. rewrite Hu.
      replace (page + 1 + i) with (page + S i) by lia. apply Hfull. lia.
    + rewrite Hu. replace (page + 1 + n) with (page + S n) by lia. exact Hget.
    + exact Hlen.
    + lia.
    + exists o, st'. split; [exact E2|]. split; [exact Ho|].
      rewrite Hr2, Hr1, Hu, <- app_assoc. simpl.
      now rewrite Nat.add_1_r.
Qed.

(** ** What can and cannot run out of fuel or throw *)

Lemma fuel_free_bind {A B} (m : M A) (k : A -> M B) :
  fuel_free m -> (forall a, fuel_free (k a)) -> fuel_free (bind m k).
Proof.
  intros Hm Hk st. unfold bind. specialize (Hm st).
  destruct (m st) as [[a|e|] st1]; simpl in *; [apply Hk | discriminate | congruence].
Qed.

Lemma fuel_free_try_catch {A} (m : M A) (h : string -> M A) :
  fuel_free m -> (forall e, fuel_free (h e)) -> fuel_free (try_catch m h).
Proof.
  intros Hm Hh st. unfold try_catch. specialize (Hm st).
  destruct (m st) as [[a|e|] st1]; simpl in *; [discriminate | apply Hh | congruence].
Qed.

Lemma fuel_free_for_of {A} (xs : list A) (body : A -> M unit) :
  (forall x, fuel_free (body x)) -> fuel_free (for_of xs body).
Proof.
  intros Hb. induction xs as [|x xs IH]; simpl.
  - intros st. discriminate.
  - apply fuel_free_bind; auto.
Qed.

Lemma fuel_free_ret {A} (a : A) : fuel_free (ret a).
Proof. intros st. discriminate. Qed.

Lemma fuel_free_throw {A} (e : string) : fuel_free (@throw A e).
Proof. intros st. discriminate. Qed.

Lemma fuel_free_lift {A} (e : string) (o : option A) : fuel_free (lift e o).
Proof. destruct o; [apply fuel_free_ret | apply fuel_free_throw]. Qed.

Lemma fuel_free_emit (e : effect) : fuel_free (emit e).
Proof. intros st. discriminate. Qed.

Lemma fuel_free_push (p : productData) : fuel_free (push p).
Proof. intros st. discriminate. Qed.

Lemma fuel_free_self : fuel_free self.
Proof. intros st. discriminate. Qed.

Lemma fuel_free_now : fuel_free (now w).
Proof. intros st. discriminate. Qed.

Create HintDb fuel discriminated.
#[local] Hint Resolve fuel_free_bind fuel_free_try_catch fuel_free_for_of
  fuel_free_ret fuel_free_throw fuel_free_lift fuel_free_emit fuel_free_push
  fuel_free_self fuel_free_now : fuel.

Lemma fuel_free_axios_get (u : string) : fuel_free (axios_get w u).
Proof.
  unfold axios_get. apply fuel_free_bind; [auto with fuel|].
  intros _. destruct (http_get w u); auto with fuel.
Qed.
#[local] Hint Resolve fuel_free_axios_get : fuel.

Lemma fuel_free_scrapeProductPage (u : string) :
  fuel_free (scrapeProductPage w u).
Proof.
  unfold scrapeProductPage.
  apply fuel_free_try_catch; [|auto with fuel].
  apply fuel_free_bind; [auto with fuel|]. intros response.
  destruct (find_structured (dom response)) as [structuredData|];
    unfold structured_record, markup_record, sleep; auto 8 with fuel.
Qed.
#[local] Hint Resolve fuel_free_scrapeProductPage : fuel.

(** [scrapeViaHtml] always returns: its [catch] takes every exception and
    nothing in it loops. *)
Lemma scrapeViaHtml_returns (st : state) :
  exists ok st', scrapeViaHtml w st = (Return ok, st').
Proof.
  assert (Hfree : fuel_free
            (me <- self ;;
             response <- axios_get w (storeUrl me ++ "/collections/all") ;;
             for_of (product_links (storeUrl me) (dom response))
               (fun productUrl => scrapeProductPage w productUrl ;; sleep 2000) ;;
             ret true)%monad)
    by (unfold sleep; auto 8 with fuel).
  unfold scrapeViaHtml, try_catch. specialize (Hfree st).
  match goal with
  | |- context [match ?m st with _ => _ end] => destruct (m st) as [[ok|e|] st1]
  end; simpl in Hfree; [eauto | unfold ret; eauto | congruence].
Qed.

(** [scrapeViaApi] never takes a record back, however it ends; and an
    exception anywhere in the loop makes it return [false] in the state of
    the throw. *)
Lemma scrapeViaApi_never_discards (fuel : nat) (st : state) :
  grows st (snd (scrapeViaApi w fuel st)).
Proof.
  unfold scrapeViaApi, try_catch.
  destruct (feed_pages_trace fuel 1 0 st) as [Hg _].
  destruct (feed_pages w fuel 1 0 st) as [[ok|e|] st1]; exact Hg.
Qed.

Lemma scrapeViaApi_catches (fuel : nat) (st : state) (e : string) (st' : state) :
  feed_pages w fuel 1 0 st = (Throw e, st') ->
  scrapeViaApi w fuel st = (Return false, st').
Proof. intros H. unfold scrapeViaApi, try_catch. now rewrite H. Qed.

(** [scrapeViaApi] never throws: it returns, or the feed outlasts the
    fuel. *)
Lemma scrapeViaApi_no_throw (fuel : nat) (st : state) (e : string) (st' : state) :
  scrapeViaApi w fuel st <> (Throw e, st').
Proof.
  unfold scrapeViaApi, try_catch.
  destruct (feed_pages w fuel 1 0 st) as [[ok|e'|] st1]; unfold ret; congruence.
Qed.

(** The only exception that reaches the [catch] of [scrape] is the one
    [saveProductsData] throws; the state at that point is the state the
    strategies left. *)
Lemma scrape_try_throws (fuel : nat) (st : state) (e : string) (st' : state) :
  scrape_try w fuel st = (Throw e, st') ->
  write_error w = Some e /\
  exists ok st1,
    scrapeViaApi w fuel st = (Return ok, st1) /\
    st' = snd ((if negb ok then scrapeViaHtml w else ret true) st1).
Proof.
  unfold scrape_try. unfold bind at 1.
  destruct (scrapeViaApi w fuel st) as [[ok|e1|] st1] eqn:Eapi.
  - unfold bind at 1.
    assert (Hhtml : exists b st2,
               (if negb ok then scrapeViaHtml w else ret true) st1 = (Return b, st2)).
    { destruct ok; simpl; [unfold ret; eauto | apply scrapeViaHtml_returns]. }
    destruct Hhtml as (b & st2 & Ehtml). rewrite Ehtml.
    unfold saveProductsData, bind, self, emit.
    destruct (write_error w) as [message|]; simpl; [|discriminate].
    intros [= -> ->]. split; [reflexivity|]. exists ok, st1. split; [reflexivity | now rewrite Ehtml].
  - exfalso. exact (scrapeViaApi_no_throw fuel st e1 st1 Eapi).
  - discriminate.
Qed.
End Runs.
End RunFacts.

(* ================================================================== *)
(** * Properties of the scraper *)
(* ================================================================== *)

Import NumberFacts StringFacts NormalizerFacts.

(** ** The derived price of a feed entry *)

(** C3. The price derived for a feed entry comes from the variant prices
    that parse as numbers.  When there is none -- in particular when the
    entry has no [variants] or an empty list -- the price is [null].
    Otherwise [Math.min] and [Math.max] of those prices are a least and a
    greatest of them, and the price is the scalar minimum when the two are
    equal and, when they differ, the object with exactly the two members
    [min] and [max], in this order, that hold them. *)
Theorem getProductPrice_min_max (product : Feed.product) :
  let prices := numeric_prices product in
  (Feed.variants product = None -> getProductPrice product = VNull) /\
  (Feed.variants product = Some [] -> getProductPrice product = VNull) /\
  (prices = [] -> getProductPrice product = VNull) /\
  (prices <> [] ->
     is_minimum (Math_min prices) prices /\
     is_maximum (Math_max prices) prices /\
     (num_eq (Math_min prices) (Math_max prices) = true ->
      getProductPrice product = VNum (Math_min prices)) /\
     (num_eq (Math_min prices) (Math_max prices) = false ->
      getProductPrice product =
        VObj [("min", VNum (Math_min prices)); ("max", VNum (Math_max prices))])).
Proof.
  unfold getProductPrice, numeric_prices.
  destruct (Feed.variants product) as [[|v vs]|]; cbv zeta.
  - split; [now intros|]. split; [now intros|]. split; [now intros|].
    intros Hne; now contradiction Hne.
  - split; [discriminate|]. split; [discriminate|].
    set (prices := filter _ _).
    split; [intros ->; reflexivity|].
    intros Hne. split; [|split].
    + apply Math_min_is_minimum; [exact Hne | apply filter_drops_NaN].
    + apply Math_max_is_maximum; [exact Hne | apply filter_drops_NaN].
    + destruct prices; [congruence|].
      split; intros ->; reflexivity.
  - split; [now intros|]. split; [now intros|]. split; [now intros|].
    intros Hne; now contradiction Hne.
Qed.

(** The entry [three_variants]: "n/a" is dropped, the price is the range
    from 10 to 12.5 (as binary64 values: 5629499534213120 and
    7036874417766400 times 2^-49). *)
Lemma getProductPrice_min_max_witness :
  numeric_prices three_variants <> [] /\
  getProductPrice three_variants =
    VObj [("min", VNum (S754_finite false 5629499534213120 (-49)));
          ("max", VNum (S754_finite false 7036874417766400 (-49)))].
Proof.
  assert (Hne : numeric_prices three_variants <> []) by (vm_compute; discriminate).
  split; [exact Hne|].
  destruct (getProductPrice_min_max three_variants) as (_ & _ & _ & H).
  destruct (H Hne) as (_ & _ & _ & Hrange).
  rewrite Hrange; vm_compute; reflexivity.
Defined.

(** ** Normalizing twice *)

(** C8, as stated, fails: the feed tier turns [spliced_entry] into
    [spliced_record], whose description was sanitized and whose images were
    normalized; sanitizing the description again removes the block that the
    first pass spliced together, so the record is no fixed point. *)
Lemma normalizing_twice_differs :
  productsData
    (this (snd (feed_entry quiet_world spliced_entry
                  (start "https://shop.example" "out")))) = [spliced_record]
  /\ renormalize spliced_record = Some (set_description spliced_record "")
  /\ renormalize spliced_record <> Some spliced_record.
Proof.
  split; [vm_compute; reflexivity|].
  split; [vm_compute; reflexivity|].
  vm_compute. discriminate.
Qed.

(** C8, amended. Image-URL normalization is idempotent, and sanitizing a
    description again changes nothing when the sanitized description holds
    no further [<style>] or [<script>] block: a record whose images went
    through [normalizeImageUrls] and whose description is such a sanitized
    text is a fixed point of normalization. *)
Theorem renormalize_fixed_point (p q : productData) (raw : string) :
  normalizeImageUrls p = Some q ->
  description q = clean raw ->
  no_block (clean raw) ->
  renormalize q = Some q.
Proof.
  intros Himages Hdesc Hblocks. unfold renormalize, cleanDescription.
  destruct (negb (truthy (VStr (description q)))) eqn:Hempty.
  - destruct (description q) eqn:E; [|discriminate].
    rewrite <- E, set_description_same.
    exact (normalizeImageUrls_idempotent p q Himages).
  - rewrite Hdesc, (clean_fixed raw Hblocks), <- Hdesc, set_description_same.
    exact (normalizeImageUrls_idempotent p q Himages).
Qed.

(** A record whose description was sanitized to "<p>hi</p>". *)
Lemma renormalize_fixed_point_witness :
  renormalize (set_images tidy_record [VStr "https://cdn.x/mug.jpg"])
  = Some (set_images tidy_record [VStr "https://cdn.x/mug.jpg"]).
Proof.
  apply (renormalize_fixed_point tidy_record _ " <p>hi</p><style>p{}</style> ").
  - vm_compute; reflexivity.
  - vm_compute; reflexivity.
  - split; vm_compute; reflexivity.
Defined.

(** ** The markup tier's images *)

Import RegexFacts.

(** C4, as stated, fails: for an element that carries both attributes the
    extractor reads [src]; the [data-src] value does not reach the image
    list. *)
Lemma data_src_not_preferred :
  attr lazy_image "src" = Some "//cdn.x/products/small.jpg" /\
  attr lazy_image "data-src" = Some "//cdn.x/products/large.jpg" /\
  image_source lazy_image = Some "//cdn.x/products/small.jpg" /\
  collect_images (plain_document [lazy_image])
  = ["https://cdn.x/products/small.jpg"].
Proof. repeat split. Qed.

Lemma includes_nonempty (s p : string) :
  p <> "" -> includes s p = true -> s <> "".
Proof.
  intros Hp H ->. destruct p; [congruence | discriminate].
Qed.

(** C4, amended. For every image element the markup tier collects -- one
    selected by [img[src*="/products/"]] -- the [src] value is the image
    source, whether or not the element also carries [data-src]: [src] comes
    first in the [||], and [data-src] is read only when [src] is missing or
    empty, which the selector rules out. *)
Theorem collected_image_uses_src (doc : document) (el : element) :
  In el (filter (attr_contains "src" "/products/") (imgs doc)) ->
  exists s, attr el "src" = Some s /\ s <> "" /\ image_source el = Some s.
Proof.
  intros Hin. apply filter_In in Hin as [_ Hsel].
  unfold attr_contains in Hsel. unfold image_source.
  destruct (attr el "src") as [s|]; [|discriminate].
  exists s. assert (Hs : s <> "") by
    (apply (includes_nonempty s "/products/"); [discriminate | exact Hsel]).
  repeat split; [exact Hs|]. destruct s; [congruence | reflexivity].
Qed.

(** The element with both attributes. *)
Lemma collected_image_uses_src_witness :
  exists s, attr lazy_image "src" = Some s /\ s <> "" /\
            image_source lazy_image = Some s.
Proof.
  apply (collected_image_uses_src (plain_document [lazy_image]) lazy_image).
  simpl. left. reflexivity.
Defined.

(** C5 on the code: the element with [src]
    "/products/product_300x300.jpg" is collected and emitted with its size
    token in place.  The replacement, which the source comments "Convert to
    full-size image URL if it's a thumbnail", asks for a "." somewhere
    before the token, and this URL has none. *)
Lemma size_token_kept :
  fullSize "/products/product_300x300.jpg" = "/products/product_300x300.jpg" /\
  collect_images (plain_document [relative_thumbnail])
  = ["https:/products/product_300x300.jpg"].
Proof. split; vm_compute; reflexivity. Qed.

(** ** The feed strategy: pagination and failure *)

Import RunFacts.



Lemma mugs_processable (n : nat) :
  Forall (fun p => processable p = true) (repeat mug n).
Proof. induction n; simpl; constructor; [reflexivity | assumption]. Qed.


(** C1, as stated, fails: page 1 of the feed is full, the request for page
    2 fails.  [scrapeViaApi] reports failure, yet the 250 records of page 1
    stay in [productsData], and -- the fallback finding nothing -- they are
    the output of the run: a part of the feed's records, not all or none. *)
Lemma partial_feed_survives :
  let st0 := start "https://shop.example" "out" in
  fst (scrapeViaApi (one_page_store 250) 2 st0) = Return false /\
  List.length (productsData (this (snd (scrapeViaApi (one_page_store 250) 2 st0))))
  = 250 /\
  exists out,
    fst (scrape (one_page_store 250) 2 st0) = Return out /\
    List.length out = 250.
Proof.
  cbv zeta. split; [vm_compute; reflexivity|].
  split; [vm_compute; reflexivity|].
  eexists. split; [vm_compute; reflexivity | reflexivity].
Qed.

(** C1, amended. When the request for a page fails after [n] full pages,
    the feed strategy reports failure ([false]) and leaves the list as it
    was at the failed request: the records it held before are still there,
    followed by those of the [n] pages, at least [limit] for each. *)
Theorem feed_error_keeps_records
        (w : world) (n fuel : nat) (st : state) (message : string) :
  (forall i, i < n -> full_page w (storeUrl (this st)) (1 + i)) ->
  http_get w (feed_url (storeUrl (this st)) (1 + n)) = Failed message ->
  n < fuel ->
  exists added st',
    scrapeViaApi w fuel st = (Return false, st') /\
    productsData (this st') = (productsData (this st) ++ added)%list /\
    limit * n <= List.length added.
Proof.
  intros Hfull Hfail Hfuel.
  destruct (feed_pages_error_after w n fuel 1 0 st message Hfull Hfail Hfuel)
    as (added & st' & E & Hpd & Hlen).
  exists added, st'. unfold scrapeViaApi, try_catch. rewrite E.
  now repeat split.
Qed.

(** One full page, then a time-out. *)
Lemma feed_error_keeps_records_witness :
  exists added st',
    scrapeViaApi (one_page_store 250) 2 (start "https://shop.example" "out")
    = (Return false, st') /\
    productsData (this st') = ([] ++ added)%list /\
    limit * 1 <= List.length added.
Proof.
  apply (feed_error_keeps_records (one_page_store 250) 1 2
           (start "https://shop.example" "out") "timeout of 30000ms exceeded").
  - intros i Hi. assert (i = 0) as -> by lia.
    exists {| data_products := Some (repeat mug 250); dom := no_document |}.
    split; [reflexivity|]. split.
    + unfold page_entries, data_products. rewrite repeat_length.
      unfold limit. lia.
    + apply mugs_processable.
  - reflexivity.
  - lia.
Defined.

(** ** The top-level [catch] *)

(** C9. Whenever the [catch] of [scrape] is entered, [scrape] returns the
    empty list and leaves the state as it was at the throw.  The exception
    can only be the one [saveProductsData] throws, so the records the
    strategies accumulated are in [productsData] at that point -- and are
    not what is returned. *)
Theorem scrape_catch_returns_empty
        (w : world) (fuel : nat) (st : state) (e : string) (st' : state) :
  scrape_try w fuel st = (Throw e, st') ->
  scrape w fuel st = (Return [], st') /\
  write_error w = Some e /\
  exists ok st1,
    scrapeViaApi w fuel st = (Return ok, st1) /\
    st' = snd ((if negb ok then scrapeViaHtml w else ret true) st1).
Proof.
  intros Hthrow. split.
  - unfold scrape, try_catch. now rewrite Hthrow.
  - exact (scrape_try_throws w fuel st e st' Hthrow).
Qed.

(** Three records from the feed, then the write fails: the run returns
    [[]] with the three records in [productsData]. *)
Lemma scrape_catch_returns_empty_witness :
  exists st',
    scrape (read_only_disk 3) 1 (start "https://shop.example" "out")
    = (Return [], st') /\
    List.length (productsData (this st')) = 3.
Proof.
  eexists. split.
  - refine (proj1 (scrape_catch_returns_empty (read_only_disk 3) 1
                     (start "https://shop.example" "out")
                     "EACCES: permission denied" _ _)).
    vm_compute. reflexivity.
  - vm_compute. reflexivity.
Defined.

(** ** The structured-data tier *)

(** What [scrapeProductPage] does on a page with a "Product" block whose
    description [cleanDescription] accepts: one record is pushed, built
    from the block as it is. *)
Lemma scrapeProductPage_structured
      (w : world) (u : string) (st : state) (b : body) (sd : value) (d : string) :
  http_get w u = Ok b ->
  find_structured (dom b) = Some sd ->
  cleanDescription (get_opt sd "description") = Some d ->
  exists p st',
    scrapeProductPage w u st = (Return tt, st') /\
    productsData (this st') = (productsData (this st) ++ [p])%list /\
    description p = d /\
    images p = as_array (get_opt sd "image").
Proof.
  intros Hget Hsd Hdesc.
  unfold scrapeProductPage, try_catch, bind, axios_get, emit, bind.
  rewrite Hget. simpl. rewrite Hsd.
  unfold structured_record, bind, lift. rewrite Hdesc.
  unfold ret, now, push, throw. simpl.
  eexists _, _. split; [reflexivity|]. simpl. repeat split.
Qed.

(** The same page when [cleanDescription] throws on the block's
    description: the exception is caught, nothing is pushed. *)
Lemma scrapeProductPage_structured_rejected
      (w : world) (u : string) (st : state) (b : body) (sd : value) :
  http_get w u = Ok b ->
  find_structured (dom b) = Some sd ->
  cleanDescription (get_opt sd "description") = None ->
  scrapeProductPage w u st = (Return tt, after_get st u).
Proof.
  intros Hget Hsd Hdesc.
  unfold scrapeProductPage, try_catch, bind, axios_get, emit, bind.
  rewrite Hget. simpl. rewrite Hsd.
  unfold structured_record, bind, lift. rewrite Hdesc. reflexivity.
Qed.

(** Reading a member gives the value it is bound to, and [undefined] when
    the object has no such member. *)
Lemma assoc_bound (fields : list (string * value)) (k : string) (v : value) :
  bound_to fields k v -> assoc k fields = Some v.
Proof.
  intros (pre & post & -> & Hpre).
  induction pre as [|[k' x] pre IH]; simpl.
  - now rewrite String.eqb_refl.
  - inversion Hpre as [|? ? Hk Hrest]; subst. simpl in Hk.
    destruct (String.eqb_spec k k') as [->|_]; [congruence | now apply IH].
Qed.

Lemma assoc_unbound (fields : list (string * value)) (k : string) :
  unbound fields k -> assoc k fields = None.
Proof.
  unfold unbound. induction 1 as [|[k' x] fields Hk _ IH]; simpl; [reflexivity|].
  simpl in Hk. destruct (String.eqb_spec k k') as [->|_]; [congruence | exact IH].
Qed.

(** C10. On a product page whose "Product" block has an [image] member
    bound to a value [v] that is no array, the record pushed has exactly
    [v] as its one image; when the block has no [image] member at all, the
    one image is [undefined].  The page gives this one record whenever
    [cleanDescription] takes the block's description, and no record
    otherwise. *)
Theorem structured_image_wrapped
        (w : world) (u : string) (st : state) (b : body)
        (fields : list (string * value)) (v : value) :
  http_get w u = Ok b ->
  find_structured (dom b) = Some (VObj fields) ->
  (bound_to fields "image" v /\ isArray v = false) \/
  (unbound fields "image" /\ v = VUndefined) ->
  match cleanDescription (get_opt (VObj fields) "description") with
  | Some _ =>
      exists p st',
        scrapeProductPage w u st = (Return tt, st') /\
        productsData (this st') = (productsData (this st) ++ [p])%list /\
        images p = [v]
  | None => scrapeProductPage w u st = (Return tt, after_get st u)
  end.
Proof.
  intros Hget Hsd Himage.
  assert (Hread : get_opt (VObj fields) "image" = v /\ isArray v = false).
  { unfold get_opt, get. destruct Himage as [[Hb Harr] | [Hu ->]].
    - now rewrite (assoc_bound _ _ _ Hb).
    - now rewrite (assoc_unbound _ _ Hu). }
  destruct Hread as [Hread Harr].
  destruct (cleanDescription (get_opt (VObj fields) "description")) as [d|] eqn:Hdesc.
  - destruct (scrapeProductPage_structured w u st b _ d Hget Hsd Hdesc)
      as (p & st' & E & Hpd & _ & Himg).
    exists p, st'. split; [exact E|]. split; [exact Hpd|].
    rewrite Himg, Hread. destruct v; try reflexivity. discriminate Harr.
  - exact (scrapeProductPage_structured_rejected w u st b _ Hget Hsd Hdesc).
Qed.

(** The block of Scenario C, whose [image] is a string, and a block without
    an [image] member. *)
Lemma structured_image_wrapped_witness :
  (exists p st',
     scrapeProductPage
       (page_store "https://shop.example/products/mug"
                   (product_page scenario_c_block))
       "https://shop.example/products/mug"
       (start "https://shop.example" "out") = (Return tt, st') /\
     productsData (this st') = ([] ++ [p])%list /\
     images p = [VStr "//cdn.x/a.jpg"]) /\
  (exists p st',
     scrapeProductPage
       (page_store "https://shop.example/products/mug"
                   (product_page imageless_block))
       "https://shop.example/products/mug"
       (start "https://shop.example" "out") = (Return tt, st') /\
     productsData (this st') = ([] ++ [p])%list /\
     images p = [VUndefined]).
Proof.
  split.
  - refine (structured_image_wrapped
              (page_store "https://shop.example/products/mug"
                          (product_page scenario_c_block))
              "https://shop.example/products/mug"
              (start "https://shop.example" "out")
              {| data_products := None; dom := product_page scenario_c_block |}
              [("@type", VStr "Product"); ("name", VStr "Mug");
               ("image", VStr "//cdn.x/a.jpg")]
              (VStr "//cdn.x/a.jpg") eq_refl eq_refl _).
    left. split; [|reflexivity].
    exists [("@type", VStr "Product"); ("name", VStr "Mug")], [].
    split; [reflexivity|]. repeat constructor; discriminate.
  - refine (structured_image_wrapped
              (page_store "https://shop.example/products/mug"
                          (product_page imageless_block))
              "https://shop.example/products/mug"
              (start "https://shop.example" "out")
              {| data_products := None; dom := product_page imageless_block |}
              [("@type", VStr "Product"); ("name", VStr "Mug")]
              VUndefined eq_refl eq_refl _).
    right. split; [|reflexivity]. repeat constructor; discriminate.
Defined.

(** C2 on the code: the structured-data tier pushes the image of Scenario C
    as it stands in the block, without a scheme; [normalizeImageUrls] is not
    applied on this path. *)
Theorem structured_image_keeps_relative_url :
  map images
      (productsData
         (this (snd (scrapeProductPage
                       (page_store "https://shop.example/products/mug"
                                   (product_page scenario_c_block))
                       "https://shop.example/products/mug"
                       (start "https://shop.example" "out")))))
  = [[VStr "//cdn.x/a.jpg"]].
Proof. vm_compute. reflexivity. Qed.

(** ** Duplicate images *)

(** C6 on the code: the feed tier keeps both copies of a repeated image;
    only the markup tier passes its list through a [Set]. *)
Theorem feed_images_keep_duplicates :
  map images
      (productsData
         (this (snd (feed_entry quiet_world twin_entry
                       (start "https://shop.example" "out")))))
  = [[VStr "https://cdn.x/a.jpg"; VStr "https://cdn.x/a.jpg"]].
Proof. vm_compute. reflexivity. Qed.

Lemma NoDup_snoc (l : list string) (x : string) :
  NoDup l -> ~ In x l -> NoDup (l ++ [x])%list.
Proof.
  induction 1 as [|y l Hy Hl IH]; simpl; intros Hx.
  - constructor; [intros [] | constructor].
  - constructor.
    + rewrite in_app_iff. simpl. intros [H | [H | []]]; [now apply Hy|].
      apply Hx. now left.
    + apply IH. intros H. apply Hx. now right.
Qed.

Lemma mem_false (x : string) (l : list string) : mem x l = false -> ~ In x l.
Proof.
  unfold mem. intros H Hin.
  assert (existsb (String.eqb x) l = true)
    by (apply existsb_exists; exists x; split; [exact Hin | apply String.eqb_refl]).
  congruence.
Qed.

(** The markup tier's list has no duplicates. *)
Lemma unique_NoDup (xs : list string) : NoDup (unique xs).
Proof.
  unfold unique.
  assert (H : forall seen, NoDup seen ->
            NoDup (fold_left
                     (fun seen x => if mem x seen then seen else (seen ++ [x])%list)
                     xs seen)).
  { induction xs as [|x xs IH]; intros seen Hseen; simpl; [exact Hseen|].
    apply IH. destruct (mem x seen) eqn:E; [exact Hseen|].
    apply NoDup_snoc; [exact Hseen | now apply mem_false]. }
  apply H. constructor.
Qed.

Lemma unique_In (xs : list string) (x : string) : In x (unique xs) -> In x xs.
Proof.
  unfold unique.
  assert (H : forall seen,
            In x (fold_left
                    (fun seen x => if mem x seen then seen else (seen ++ [x])%list)
                    xs seen) ->
            In x seen \/ In x xs).
  { induction xs as [|y xs IH]; intros seen; simpl; [now left|].
    intros Hin. destruct (IH _ Hin) as [Hseen | Hxs]; [|now right; right].
    destruct (mem y seen); [now left|].
    apply in_app_iff in Hseen as [Hseen | [<- | []]];
      [now left | now right; left]. }
  intros Hin. destruct (H [] Hin) as [[] | Hxs]. exact Hxs.
Qed.

Lemma NoDup_map_VStr (l : list string) : NoDup l -> NoDup (map VStr l).
Proof.
  induction 1 as [|x l Hx Hl IH]; simpl; constructor; [|exact IH].
  rewrite in_map_iff. intros (y & [= ->] & Hy). now apply Hx.
Qed.

(** The record of the markup tier: its images are pairwise distinct and
    each begins with "http". *)
Lemma markup_record_images
      (w : world) (u : string) (doc : document) (st : state)
      (p : productData) (st' : state) :
  markup_record w u doc st = (Return p, st') ->
  NoDup (images p) /\ Forall has_scheme (images p).
Proof.
  unfold markup_record, bind, lift.
  destruct (cleanDescription _) as [d|]; [|discriminate].
  unfold ret, now. simpl. intros [= <- _]. simpl. split.
  - apply NoDup_map_VStr, unique_NoDup.
  - apply Forall_forall. intros v Hv.
    apply in_map_iff in Hv as (x & <- & Hx). exists x. split; [reflexivity|].
    apply unique_In in Hx.
    exact (proj1 (Forall_forall _ _) (collect_images_scheme doc) x Hx).
Qed.

(** ** The scenarios of the feed and of price extraction, run *)

(** A first page of 108 entries: one request, 108 records, success. *)
Example one_short_page :
  let run := scrapeViaApi (one_page_store 108) 1
               (start "https://shop.example" "out") in
  fst run = Return true /\
  List.length (productsData (this (snd run))) = 108 /\
  requests (effects (snd run))
  = ["https://shop.example/products.json?page=1&limit=250"].
Proof. cbv zeta. repeat split; vm_compute; reflexivity. Qed.

(** A first page without entries: the feed strategy reports failure and the
    run goes on to the catalogue page. *)
Example empty_first_page :
  let st0 := start "https://shop.example" "out" in
  fst (scrapeViaApi (one_page_store 0) 1 st0) = Return false /\
  requests (effects (snd (scrape (one_page_store 0) 1 st0)))
  = ["https://shop.example/products.json?page=1&limit=250";
     "https://shop.example/collections/all"].
Proof. cbv zeta. split; vm_compute; reflexivity. Qed.

(** A price text with a thousands separator. *)
Example thousands_separator :
  extractPrice priced_page = VNum (parseFloat_string "1299").
Proof. vm_compute. reflexivity. Qed.

(* ================================================================== *)
(** * Further properties: the parts of the class, one by one *)
(* ================================================================== *)

(** ** The constructor and the URLs it leads to *)

Module UrlFacts.

Lemma startsWith_empty (s : string) : startsWith s "" = true.
Proof. now destruct s. Qed.

Lemma startsWith_self (s : string) : startsWith s s = true.
Proof.
  induction s as [|c s IH]; simpl; [reflexivity | now rewrite Ascii.eqb_refl].
Qed.

Lemma startsWith_append (s p t : string) :
  startsWith s p = true -> startsWith (s ++ t) p = true.
Proof.
  revert s. induction p as [|a p IH]; intros s; [intros _; apply startsWith_empty|].
  destruct s as [|b s]; simpl; [discriminate|].
  intros H. apply andb_true_iff in H as [Hab Hs]. now rewrite Hab, IH.
Qed.

Lemma startsWith_trans (u base p : string) :
  startsWith u base = true -> startsWith base p = true -> startsWith u p = true.
Proof.
  revert u p. induction base as [|c b IH]; intros u p Hu Hp.
  - destruct p; [apply startsWith_empty | discriminate].
  - destruct p as [|a p]; [apply startsWith_empty|].
    destruct u as [|d u]; [discriminate|]. simpl in *.
    apply andb_true_iff in Hu as [Hcd Hu]. apply andb_true_iff in Hp as [Hac Hp].
    apply Ascii.eqb_eq in Hcd, Hac. subst. rewrite Ascii.eqb_refl. simpl.
    now apply (IH u p).
Qed.

Lemma includes_append_l (a s p : string) :
  includes s p = true -> includes (a ++ s) p = true.
Proof.
  intros H. induction a as [|c a IH]; simpl; [exact H|].
  rewrite IH. apply orb_true_r.
Qed.

Lemma url_under_base (base path : string) :
  request_ok base (base ++ path).
Proof. intros H. now apply startsWith_append. Qed.

Lemma product_url_ok (base h : string) :
  includes (base ++ "/products/" ++ h) "/products/" = true.
Proof.
  apply includes_append_l.
  assert (H : startsWith ("/products/" ++ h) "/products/" = true)
    by (apply startsWith_append, startsWith_self).
  destruct ("/products/" ++ h); simpl in *; [discriminate|]. now rewrite H.
Qed.

Lemma trimEnd_slash (u : string) : trimEnd (u ++ "/") = u ++ "/".
Proof.
  induction u as [|c u IH]; [reflexivity|]. cbn [append trimEnd]. rewrite IH.
  destruct (u ++ "/") eqn:E; [|reflexivity]. now destruct u.
Qed.

Lemma trim_fixed_start (u : string) : trim u = u -> trimmed_start u.
Proof.
  intros H. rewrite <- H. apply trimEnd_trimmed, trimStart_trimmed.
Qed.

Lemma trim_slash (u : string) : trim u = u -> trim (u ++ "/") = u ++ "/".
Proof.
  intros H. unfold trim. rewrite trimStart_fixed; [apply trimEnd_slash|].
  pose proof (trim_fixed_start u H) as Hs. now destruct u.
Qed.

Lemma endsWith_slash (u : string) : endsWith (u ++ "/") "/" = true.
Proof.
  induction u as [|c u IH]; [reflexivity|]. cbn [append endsWith].
  rewrite IH. apply orb_true_r.
Qed.

Lemma slice_slash (u : string) : slice_0_m1 (u ++ "/") = u.
Proof.
  induction u as [|c u IH]; [reflexivity|]. cbn [append slice_0_m1].
  rewrite IH. destruct (u ++ "/") eqn:E; [now destruct u | reflexivity].
Qed.

(** The constructor's URL has a scheme. *)
Lemma new_ShopifyScraper_http (u dir : string) :
  startsWith (storeUrl (new_ShopifyScraper u dir)) "http" = true.
Proof.
  unfold new_ShopifyScraper. cbn [storeUrl].
  set (v := if endsWith (trim u) "/" then slice_0_m1 (trim u) else trim u).
  destruct (startsWith v "https://") eqn:E1; simpl.
  - exact (startsWith_trans v "https://" "http" E1 eq_refl).
  - destruct (startsWith v "http://") eqn:E2; simpl.
    + exact (startsWith_trans v "http://" "http" E2 eq_refl).
    + reflexivity.
Qed.

End UrlFacts.
Import UrlFacts.

(** X1. The store URL of a new scraper always begins with "https://" or
    "http://".  For a URL without white space at its ends and without a
    trailing slash, adding one slash at the end changes nothing, and when
    such a URL already has its scheme the constructor keeps it as it is. *)
Theorem new_ShopifyScraper_normal_form (u dir : string) :
  let s := new_ShopifyScraper u dir in
  (startsWith (storeUrl s) "https://" = true \/
   startsWith (storeUrl s) "http://" = true) /\
  (trim u = u -> endsWith u "/" = false ->
   new_ShopifyScraper (u ++ "/") dir = s) /\
  (trim u = u -> endsWith u "/" = false ->
   startsWith u "https://" = true \/ startsWith u "http://" = true ->
   storeUrl s = u).
Proof.
  cbv zeta. split; [|split].
  - unfold new_ShopifyScraper. cbn [storeUrl].
    set (v := if endsWith (trim u) "/" then slice_0_m1 (trim u) else trim u).
    destruct (startsWith v "https://") eqn:E1; cbn [negb andb]; [now left|].
    destruct (startsWith v "http://") eqn:E2; cbn [negb andb]; [now right | left; apply startsWith_append, startsWith_self].
  - intros Ht He. unfold new_ShopifyScraper.
    now rewrite (trim_slash u Ht), endsWith_slash, slice_slash, Ht, He.
  - intros Ht He Hs. unfold new_ShopifyScraper. cbn [storeUrl].
    rewrite Ht, He. destruct Hs as [-> | ->]; cbn [negb andb]; [reflexivity|].
    now rewrite andb_false_r.
Qed.

(** ** Descriptions *)

Module CleanFacts.

Lemma style_is_block : style_block = block "style".
Proof. reflexivity. Qed.

Lemma script_is_block : script_block = block "script".
Proof. reflexivity. Qed.

Section Literals.
Context {R : Type}.

Lemma one_i_refl (a : ascii) : one_i a a = true.
Proof. unfold one_i. apply Ascii.eqb_refl. Qed.

(** A literal matches itself. *)
Lemma lit_i_self (t s : string) (caps : list string)
      (k : string -> list string -> option R) :
  rmatch (lit_i t) (t ++ s) caps k = k s caps.
Proof.
  revert caps. induction t as [|a t IH]; intros caps; simpl; [reflexivity|].
  now rewrite one_i_refl, IH.
Qed.

(** A literal refuses a text that does not begin with it. *)
Lemma lit_i_refuses (t s : string) (caps : list string)
      (k : string -> list string -> option R) :
  starts_i s t = false -> rmatch (lit_i t) s caps k = None.
Proof.
  revert s caps. induction t as [|a t IH]; intros s caps.
  - now destruct s.
  - destruct s as [|c s]; [reflexivity|]. simpl.
    destruct (one_i a c); simpl; [apply IH | reflexivity].
Qed.

Lemma lazy_star_now (p : ascii -> bool) (s : string) (k : string -> option R)
      (r : R) :
  k s = Some r -> lazy_star p s k = Some r.
Proof. intros H. destruct s; simpl; now rewrite H. Qed.

(** A lazy run passes over [x] when what follows refuses every text that
    begins with a character of [x]. *)
Lemma lazy_star_skip (p q : ascii -> bool) (x y : string)
      (k : string -> option R) :
  all_chars p x = true -> all_chars q x = true ->
  (forall c t, q c = true -> k (String c t) = None) ->
  lazy_star p (x ++ y) k = lazy_star p y k.
Proof.
  intros Hp Hq Hk. induction x as [|c x IH]; [reflexivity|].
  simpl in Hp, Hq. apply andb_true_iff in Hp as [Hc Hx].
  apply andb_true_iff in Hq as [Hqc Hqx].
  cbn [append lazy_star]. now rewrite (Hk c _ Hqc), Hc, IH.
Qed.

End Literals.

Lemma not_lt_one_i (c : ascii) : none_of "<" c = true -> one_i "<" c = false.
Proof. destruct c as [[] [] [] [] [] [] [] []]; vm_compute; congruence. Qed.

(** A block pattern refuses a text that does not begin with its opening
    tag. *)
Lemma block_refuses (tag s : string) :
  starts_i s ("<" ++ tag) = false -> match_here (block tag) s = None.
Proof. intros H. unfold match_here, block. cbn [rmatch]. now apply lit_i_refuses. Qed.

Lemma block_refuses_char (tag : string) (c : ascii) (s : string) :
  none_of "<" c = true -> match_here (block tag) (String c s) = None.
Proof.
  intros Hc. apply block_refuses. simpl. now rewrite (not_lt_one_i c Hc).
Qed.

Lemma block_refuses_empty (tag : string) : match_here (block tag) "" = None.
Proof. now apply block_refuses. Qed.

(** The block pattern takes a well-formed block whole. *)
Lemma tagged_match (opening closing attrs body rest : string) :
  all_chars (none_of ">") attrs = true ->
  all_chars (none_of "<") body = true ->
  starts_i closing "<" = true ->
  let text := opening ++ attrs ++ String ">" (body ++ closing) in
  rmatch (Cat (lit_i opening)
            (Cat (Star (none_of ">"))
               (Cat (lit_i ">") (Cat (LazyStar any) (lit_i closing)))))
         (text ++ rest) []
         (fun s' caps => Some (MatchResult "" (consumed (text ++ rest) s') caps s'))
  = Some (MatchResult "" text [] rest).
Proof.
  intros Hattrs Hbody Hclosing text. cbn [rmatch].
  unfold text at 1. rewrite (append_assoc opening), lit_i_self.
  rewrite (append_assoc attrs).
  apply star_prefix; [exact Hattrs|].
  cbn [append]. rewrite star_stop by reflexivity.
  cbn [lit_i rmatch]. rewrite one_i_refl.
  rewrite (append_assoc body).
  rewrite (lazy_star_skip any (none_of "<") body);
    [|now clear; induction body|exact Hbody|].
  - apply lazy_star_now. rewrite lit_i_self. do 2 f_equal.
    apply consumed_append.
  - intros c t Hc. apply lit_i_refuses.
    destruct closing as [|d closing']; [discriminate|].
    cbn [starts_i] in Hclosing |- *.
    destruct closing' as [|e closing'];
      (apply andb_true_iff in Hclosing as [Hd _];
       pose proof (not_lt_one_i c Hc) as Hn; unfold one_i in Hd, Hn |- *;
       apply Ascii.eqb_eq in Hd; now rewrite Hd, Hn).
Qed.

Lemma block_match (tag attrs body rest : string) :
  all_chars (none_of ">") attrs = true ->
  all_chars (none_of "<") body = true ->
  let text := ("<" ++ tag) ++ attrs ++ String ">" (body ++ ("</" ++ tag ++ ">")) in
  match_here (block tag) (text ++ rest)
  = Some (MatchResult "" text [] rest).
Proof.
  intros Hattrs Hbody.
  exact (tagged_match ("<" ++ tag) ("</" ++ tag ++ ">") attrs body rest
           Hattrs Hbody eq_refl).
Qed.

Lemma exec_None_cons (r : regex) (c : ascii) (s : string) :
  match_here r (String c s) = None -> exec r s = None ->
  exec r (String c s) = None.
Proof. intros H1 H2. simpl. now rewrite H1, H2. Qed.

Lemma exec_None_empty (r : regex) : match_here r "" = None -> exec r "" = None.
Proof. intros H. simpl. now rewrite H. Qed.

(** Where the opening tag does not occur the block pattern has no match. *)
Lemma no_opening_no_match (tag s : string) :
  occurs_i (String "<" tag) s = false -> exec (block tag) s = None.
Proof.
  change (String "<" tag) with ("<" ++ tag).
  induction s as [|c s IH]; intros H.
  - apply exec_None_empty, block_refuses_empty.
  - cbn [occurs_i] in H. apply orb_false_iff in H as [Hc Hs].
    apply exec_None_cons; [now apply block_refuses | now apply IH].
Qed.

Lemma opens_block_no_block (s : string) : opens_block s = false -> no_block s.
Proof.
  unfold opens_block. intros H. apply orb_false_iff in H as [Hst Hsc]. split.
  - rewrite style_is_block. now apply no_opening_no_match.
  - rewrite script_is_block. now apply no_opening_no_match.
Qed.

Lemma occurs_i_cons (p : string) (c : ascii) (s : string) :
  occurs_i p (String c s) = starts_i (String c s) p || occurs_i p s.
Proof. reflexivity. Qed.

Lemma occurs_i_pass (t x y : string) :
  all_chars (none_of "<") x = true ->
  occurs_i (String "<" t) (x ++ y) = occurs_i (String "<" t) y.
Proof.
  induction x as [|c x IH]; [reflexivity|]. simpl all_chars.
  intros H. apply andb_true_iff in H as [Hc Hx].
  cbn [append occurs_i starts_i]. rewrite (not_lt_one_i c Hc). simpl.
  now apply IH.
Qed.

Lemma occurs_i_none (t x : string) :
  all_chars (none_of "<") x = true -> occurs_i (String "<" t) x = false.
Proof.
  intros H. rewrite <- (append_empty x), (occurs_i_pass t x "" H). reflexivity.
Qed.

Lemma no_lt_opens_block (s : string) :
  all_chars (none_of "<") s = true -> opens_block s = false.
Proof.
  intros H. unfold opens_block.
  now rewrite (occurs_i_none "style" s H), (occurs_i_none "script" s H).
Qed.

(** ** The global replacement, step by step *)

Lemma replace_all_from_pass (r : regex) (f : list string -> string)
      (q : ascii -> bool) (x y : string) :
  (forall c s, q c = true -> match_here r (String c s) = None) ->
  all_chars q x = true ->
  replace_all_from r f 0 (x ++ y) = x ++ replace_all_from r f 0 y.
Proof.
  intros Hq. induction x as [|c x IH]; [reflexivity|]. simpl all_chars.
  intros H. apply andb_true_iff in H as [Hc Hx].
  change (replace_all_from r f 0 (String c x ++ y)) with
      (match match_here r (String c (x ++ y)) with
       | Some m =>
           f (m_groups m) ++
           match String.length (m_text m) with
           | 0 => String c (replace_all_from r f 0 (x ++ y))
           | S n => replace_all_from r f n (x ++ y)
           end
       | None => String c (replace_all_from r f 0 (x ++ y))
       end).
  now rewrite (Hq c _ Hc), (IH Hx).
Qed.

Lemma replace_all_from_skip (r : regex) (f : list string -> string)
      (x y : string) :
  replace_all_from r f (String.length x) (x ++ y) = replace_all_from r f 0 y.
Proof.
  induction x as [|c x IH]; [reflexivity|]. simpl. exact IH.
Qed.

Lemma replace_all_from_match (r : regex) (f : list string -> string)
      (c : ascii) (x y : string) (caps : list string) :
  match_here r (String c x ++ y) = Some (MatchResult "" (String c x) caps y) ->
  replace_all_from r f 0 (String c x ++ y) = f caps ++ replace_all_from r f 0 y.
Proof.
  intros H.
  change (replace_all_from r f 0 (String c x ++ y)) with
      (match match_here r (String c x ++ y) with
       | Some m =>
           f (m_groups m) ++
           match String.length (m_text m) with
           | 0 => String c (replace_all_from r f 0 (x ++ y))
           | S n => replace_all_from r f n (x ++ y)
           end
       | None => String c (replace_all_from r f 0 (x ++ y))
       end).
  rewrite H. cbn [m_groups m_text String.length].
  now rewrite replace_all_from_skip.
Qed.

Lemma replace_all_from_end (r : regex) (f : list string -> string) :
  match_here r "" = None -> replace_all_from r f 0 "" = "".
Proof. intros H. simpl. now rewrite H. Qed.

(** Removing the one block of a text that has no other "<". *)
Lemma replace_all_block (tag a attrs body b : string) :
  all_chars (none_of "<") a = true ->
  all_chars (none_of ">") attrs = true ->
  all_chars (none_of "<") body = true ->
  all_chars (none_of "<") b = true ->
  replace_all (block tag) (fun _ => "")
    (a ++ (("<" ++ tag) ++ attrs ++ String ">" (body ++ ("</" ++ tag ++ ">"))) ++ b)
  = a ++ b.
Proof.
  intros Ha Hattrs Hbody Hb. unfold replace_all.
  rewrite (replace_all_from_pass _ _ (none_of "<") a);
    [|intros c s Hc; now apply block_refuses_char|exact Ha].
  f_equal.
  pose proof (block_match tag attrs body b Hattrs Hbody) as Hm. cbv zeta in Hm.
  change ("<" ++ tag) with (String "<" tag) in *.
  cbn [append] in Hm |- *.
  rewrite (replace_all_from_match _ _ _ _ _ _ Hm). cbn [append].
  rewrite <- (append_empty b) at 1.
  rewrite (replace_all_from_pass _ _ (none_of "<") b);
    [|intros c s Hc; now apply block_refuses_char|exact Hb].
  rewrite (replace_all_from_end _ _ (block_refuses_empty tag)).
  now rewrite append_empty.
Qed.

Lemma cleanDescription_trimmed (html : value) (d : string) :
  cleanDescription html = Some d -> trim d = d.
Proof.
  unfold cleanDescription. destruct (truthy html); simpl.
  - destruct html; try discriminate. intros [= <-]. apply trim_idempotent.
  - now intros [= <-].
Qed.

End CleanFacts.
Import CleanFacts.

(** X2. [cleanDescription] throws exactly when its argument is truthy and
    no string.  For a falsy argument (null, undefined, the empty string, 0)
    it returns the empty string, and whatever it returns has no white space
    at its ends. *)
Theorem cleanDescription_result (html : value) :
  (cleanDescription html = None <->
   truthy html = true /\ forall s, html <> VStr s) /\
  (truthy html = false -> cleanDescription html = Some "") /\
  (forall d, cleanDescription html = Some d -> trim d = d).
Proof.
  split; [split|split].
  - unfold cleanDescription. destruct (truthy html) eqn:Ht; simpl; [|discriminate].
    intros H. split; [reflexivity|]. intros s ->. discriminate.
  - intros [Ht Hs]. unfold cleanDescription. rewrite Ht. simpl.
    destruct html; try reflexivity. now contradiction (Hs s).
  - intros Ht. unfold cleanDescription. now rewrite Ht.
  - exact (cleanDescription_trimmed html).
Qed.

(** X3. A description in which neither "<style" nor "<script" occurs, in
    any letter case, is only trimmed: all other markup stays. *)
Theorem clean_keeps_other_markup (s : string) :
  opens_block s = false -> cleanDescription (VStr s) = Some (trim s).
Proof.
  intros H. destruct (opens_block_no_block s H) as [Hstyle Hscript].
  unfold cleanDescription. destruct s as [|c s]; [reflexivity|].
  change (negb (truthy (VStr (String c s)))) with false. cbv iota.
  unfold clean.
  rewrite (replace_all_no_match style_block _ _ Hstyle).
  now rewrite (replace_all_no_match script_block _ _ Hscript).
Qed.

(** A paragraph with markup in it. *)
Lemma clean_keeps_other_markup_witness :
  cleanDescription (VStr " <p>A <b>sturdy</b> mug.</p> ")
  = Some "<p>A <b>sturdy</b> mug.</p>".
Proof.
  exact (clean_keeps_other_markup " <p>A <b>sturdy</b> mug.</p> " eq_refl).
Defined.

(** X4. A [<style>] or [<script>] block -- attributes and body included
    -- is removed from a text that has no other "<": what is left is the
    text around the block, trimmed. *)
Theorem clean_removes_block (tag a attrs body b : string) :
  tag = "style" \/ tag = "script" ->
  all_chars (none_of "<") a = true ->
  all_chars (none_of "<") attrs = true ->
  all_chars (none_of ">") attrs = true ->
  all_chars (none_of "<") body = true ->
  all_chars (none_of "<") b = true ->
  clean (a ++ "<" ++ tag ++ attrs ++ ">" ++ body ++ "</" ++ tag ++ ">" ++ b)
  = trim (a ++ b).
Proof.
  intros Htag Ha Hattrs1 Hattrs2 Hbody Hb. unfold clean.
  assert (Hshape : a ++ "<" ++ tag ++ attrs ++ ">" ++ body ++ "</" ++ tag ++ ">" ++ b
                   = a ++ (("<" ++ tag) ++ attrs ++
                           String ">" (body ++ ("</" ++ tag ++ ">"))) ++ b).
  { repeat first [rewrite append_assoc | progress cbn [append]]. reflexivity. }
  assert (Hplain : no_block (a ++ b)).
  { apply opens_block_no_block, no_lt_opens_block.
    now rewrite all_chars_append, Ha, Hb. }
  destruct Htag as [-> | ->].
  - rewrite Hshape, style_is_block, replace_all_block by assumption.
    now rewrite (replace_all_no_match script_block _ _ (proj2 Hplain)).
  - rewrite (replace_all_no_match style_block).
    + now rewrite Hshape, script_is_block, replace_all_block by assumption.
    + rewrite style_is_block. apply no_opening_no_match.
      rewrite (occurs_i_pass "style" a _ Ha).
      replace ("<" ++ "script" ++ attrs ++ ">" ++ body ++ "</" ++ "script" ++ ">" ++ b)
        with (String "<" (("script" ++ attrs ++ ">" ++ body) ++
                          String "<" ("/script>" ++ b)))
        by (repeat first [rewrite append_assoc | progress cbn [append]];
            reflexivity).
      rewrite occurs_i_cons, (occurs_i_pass "style"), occurs_i_cons,
        (occurs_i_pass "style" "/script>" b eq_refl), (occurs_i_none "style" b Hb).
      * reflexivity.
      * rewrite !all_chars_append, Hattrs1, Hbody. reflexivity.
Qed.

(** A style sheet between two sentences. *)
Lemma clean_removes_block_witness :
  clean " A mug.<style media=all>p{color:red}</style> Dishwasher safe. "
  = "A mug. Dishwasher safe.".
Proof.
  exact (clean_removes_block "style" " A mug." " media=all" "p{color:red}"
           " Dishwasher safe. " (or_introl eq_refl)
           eq_refl eq_refl eq_refl eq_refl eq_refl).
Defined.

(** ** Image lists *)

Module ImageFacts.

Lemma normalizeImageUrl_string (u : string) :
  normalizeImageUrl (VStr u) =
    Some (if nonempty u then VStr (with_scheme u) else VNull).
Proof.
  unfold normalizeImageUrl, with_scheme. destruct u as [|c u]; [reflexivity|].
  change (truthy (VStr (String c u))) with true. cbv [negb nonempty].
  now destruct (startsWith (String c u) "http").
Qed.

Lemma map_or_throw_strings (us : list string) :
  map_or_throw normalizeImageUrl (map VStr us) =
    Some (map (fun u => if nonempty u then VStr (with_scheme u) else VNull) us).
Proof.
  induction us as [|u us IH]; [reflexivity|].
  cbn [map map_or_throw]. now rewrite normalizeImageUrl_string, IH.
Qed.

Lemma filter_truthy_strings (us : list string) :
  filter truthy
    (map (fun u => if nonempty u then VStr (with_scheme u) else VNull) us)
  = map VStr (map with_scheme (filter nonempty us)).
Proof.
  induction us as [|u us IH]; [reflexivity|]. cbn [map filter].
  destruct u as [|c u]; cbn [nonempty]; [exact IH|].
  assert (Ht : truthy (VStr (with_scheme (String c u))) = true).
  { unfold with_scheme. now destruct (startsWith (String c u) "http"). }
  rewrite Ht. cbn [map]. now rewrite IH.
Qed.

Lemma map_or_throw_None (v : value) (l : list value) :
  In v l -> normalizeImageUrl v = None -> map_or_throw normalizeImageUrl l = None.
Proof.
  induction l as [|x l IH]; [intros []|]. intros [-> | Hin] Hv; simpl.
  - now rewrite Hv.
  - destruct (normalizeImageUrl x); [|reflexivity]. now rewrite (IH Hin Hv).
Qed.

End ImageFacts.
Import ImageFacts.

(** X5. On a list of strings [normalizeImageUrls] drops the empty ones and
    puts "https:" in front of every other one that does not begin with
    "http"; the order is kept. *)
Theorem normalizeImageUrls_on_strings (p : productData) (us : list string) :
  normalizeImageUrls (set_images p (map VStr us))
  = Some (set_images p (map VStr (map with_scheme (filter nonempty us)))).
Proof.
  unfold normalizeImageUrls. rewrite images_set_images, map_or_throw_strings.
  now rewrite filter_truthy_strings, set_images_twice.
Qed.

(** X6. [normalizeImageUrls] throws exactly when the list holds a truthy
    entry that is no string. *)
Theorem normalizeImageUrls_throws_iff (p : productData) :
  normalizeImageUrls p = None <->
  exists v, In v (images p) /\ truthy v = true /\ forall u, v <> VStr u.
Proof.
  split.
  - unfold normalizeImageUrls.
    destruct (map_or_throw normalizeImageUrl (images p)) eqn:E; [discriminate|].
    intros _. induction (images p) as [|x l IH]; [discriminate|].
    simpl in E. destruct (normalizeImageUrl x) as [y|] eqn:Hx.
    + destruct (map_or_throw normalizeImageUrl l); [discriminate|].
      destruct (IH eq_refl) as (v & Hin & Hv). exists v. split; [now right | exact Hv].
    + exists x. split; [now left|]. unfold normalizeImageUrl in Hx.
      destruct (truthy x); [|discriminate]. split; [reflexivity|].
      intros u ->. discriminate.
  - intros (v & Hin & Ht & Hs). unfold normalizeImageUrls.
    rewrite (map_or_throw_None v (images p) Hin); [reflexivity|].
    unfold normalizeImageUrl. rewrite Ht. destruct v; try reflexivity.
    now contradiction (Hs s).
Qed.

(** ** Prices *)

Module PriceFacts.

Lemma num_eq_ge (x y : number) : num_eq x y = true -> num_le y x = true.
Proof.
  unfold num_eq, num_le, SFeqb, SFleb.
  destruct x as [sx | sx | | sx mx ex], y as [sy | sy | | sy my ey];
    simpl; try discriminate; try reflexivity;
    try (destruct sx); try (destruct sy); simpl; try congruence.
  - rewrite (Z.compare_antisym ex ey), (compare_cont_antisym mx my).
    destruct (Z.compare ex ey); simpl; try congruence.
    destruct (Pos.compare_cont Eq mx my); simpl; congruence.
  - rewrite (Z.compare_antisym ex ey), (compare_cont_antisym mx my).
    destruct (Z.compare ex ey); simpl; try congruence.
    destruct (Pos.compare_cont Eq mx my); simpl; congruence.
Qed.

Lemma num_le_antisym (x y : number) :
  num_le x y = true -> num_le y x = true -> num_eq x y = true.
Proof.
  unfold num_eq, num_le, SFeqb, SFleb.
  destruct x as [sx | sx | | sx mx ex], y as [sy | sy | | sy my ey];
    simpl; try discriminate; try reflexivity;
    try (destruct sx); try (destruct sy); simpl; try congruence.
  - rewrite (Z.compare_antisym ex ey), (compare_cont_antisym mx my).
    destruct (Z.compare ex ey); simpl; try congruence.
    destruct (Pos.compare_cont Eq mx my); simpl; congruence.
  - rewrite (Z.compare_antisym ex ey), (compare_cont_antisym mx my).
    destruct (Z.compare ex ey); simpl; try congruence.
    destruct (Pos.compare_cont Eq mx my); simpl; congruence.
Qed.

Lemma num_le_neq_lt (x y : number) :
  num_le x y = true -> num_eq x y = false -> num_lt x y = true.
Proof.
  unfold num_eq, num_le, num_lt, SFeqb, SFleb, SFltb.
  destruct (SFcompare x y) as [[]|]; congruence.
Qed.

End PriceFacts.
Import PriceFacts.

(** X7. The derived price, read from the result: [null] means that no
    variant price is a number; a scalar is one of the numeric variant prices
    and equals every one of them; a range has two of them as its ends, the
    lower strictly below the upper.  Nothing else is returned. *)
Theorem getProductPrice_by_result (product : Feed.product) :
  match getProductPrice product with
  | VNull => numeric_prices product = []
  | VNum x =>
      In x (numeric_prices product) /\
      Forall (fun p => num_eq p x = true) (numeric_prices product)
  | VObj [("min", VNum lo); ("max", VNum hi)] =>
      In lo (numeric_prices product) /\ In hi (numeric_prices product) /\
      num_lt lo hi = true
  | _ => False
  end.
Proof.
  unfold getProductPrice, numeric_prices.
  destruct (Feed.variants product) as [[|v vs]|]; cbv zeta; try reflexivity.
  set (prices := filter _ _).
  destruct prices as [|p ps] eqn:E; [reflexivity|]. rewrite <- E.
  assert (Hne : prices <> []) by (rewrite E; discriminate).
  assert (Hnan : existsb isNaN prices = false) by apply filter_drops_NaN.
  destruct (Math_min_is_minimum prices Hne Hnan) as [Hmin_in Hmin].
  destruct (Math_max_is_maximum prices Hne Hnan) as [Hmax_in Hmax].
  destruct (num_eq (Math_min prices) (Math_max prices)) eqn:Heq.
  - split; [exact Hmin_in|]. apply Forall_forall. intros x Hx.
    apply num_le_antisym.
    + eapply num_le_trans; [exact (Hmax x Hx)|]. now apply num_eq_ge.
    + now apply Hmin.
  - unfold price_range. split; [exact Hmin_in|]. split; [exact Hmax_in|].
    apply num_le_neq_lt; [now apply Hmin | exact Heq].
Qed.

Module PriceTextFacts.

Lemma price_token_class : price_token = Plus price_char.
Proof. reflexivity. Qed.

Lemma token_refuses (c : ascii) (s : string) :
  price_char c = false -> match_here (Plus price_char) (String c s) = None.
Proof. intros H. unfold match_here, Plus. cbn [rmatch]. now rewrite H. Qed.

(** The token is the longest run of price characters at the head. *)
Lemma token_match (c : ascii) (x y : string) :
  price_char c = true -> all_chars price_char x = true -> stops price_char y ->
  match_here (Plus price_char) (String c x ++ y)
  = Some (MatchResult "" (String c x) [] y).
Proof.
  intros Hc Hx Hy. unfold match_here, Plus. cbn [rmatch append]. rewrite Hc.
  apply star_prefix; [exact Hx|]. rewrite (star_stop _ _ _ Hy).
  do 2 f_equal. exact (consumed_append (String c x) y).
Qed.

Lemma exec_no_price_char (s : string) :
  all_chars no_price_char s = true -> exec (Plus price_char) s = None.
Proof.
  induction s as [|c s IH]; [reflexivity|]. simpl all_chars.
  intros H. apply andb_true_iff in H as [Hc Hs]. unfold no_price_char in Hc.
  apply negb_true_iff in Hc.
  change (exec (Plus price_char) (String c s)) with
    (match match_here (Plus price_char) (String c s) with
     | Some m => Some m
     | None =>
         match exec (Plus price_char) s with
         | Some m => Some (MatchResult (String c (m_before m)) (m_text m)
                                       (m_groups m) (m_after m))
         | None => None
         end
     end).
  now rewrite (token_refuses c s Hc), (IH Hs).
Qed.

Section Totality.
Context {R : Type}.
Lemma star_total (p : ascii -> bool) (s : string) (k : string -> option R) :
  (forall t, k t <> None) -> star p s k <> None.
Proof.
  intros Hk. induction s as [|c s IH]; simpl; [apply Hk|].
  destruct (p c); [|apply Hk]. destruct (star p s k); [discriminate | apply Hk].
Qed.
End Totality.

Lemma exec_None_no_price_char (s : string) :
  exec (Plus price_char) s = None -> all_chars no_price_char s = true.
Proof.
  induction s as [|c s IH]; [reflexivity|]. intros H.
  pose proof (exec_None_here _ _ H) as Hhere.
  pose proof (exec_None_tail _ _ _ H) as Htail.
  simpl. rewrite (IH Htail), andb_true_r. unfold no_price_char.
  destruct (price_char c) eqn:Hc; [exfalso | reflexivity].
  unfold match_here, Plus in Hhere. cbn [rmatch] in Hhere. rewrite Hc in Hhere.
  revert Hhere. apply star_total. discriminate.
Qed.

(** The search finds the first run of price characters. *)
Lemma exec_token (pre tok post : string) :
  all_chars no_price_char pre = true ->
  tok <> "" -> all_chars price_char tok = true -> stops price_char post ->
  exec (Plus price_char) (pre ++ tok ++ post)
  = Some (MatchResult pre tok [] post).
Proof.
  intros Hpre Hne Htok Hpost.
  destruct (nonempty_all_chars _ _ Hne Htok) as (c & x & -> & Hc & Hx).
  assert (Hskip : forall a b, pre = a ++ b -> b <> "" ->
            match_here (Plus price_char) (b ++ String c x ++ post) = None).
  { intros a b -> Hb. destruct b as [|d b]; [congruence|].
    apply token_refuses. rewrite all_chars_append in Hpre.
    apply andb_true_iff in Hpre as [_ Hd]. simpl in Hd.
    apply andb_true_iff in Hd as [Hd _]. now apply negb_true_iff in Hd. }
  rewrite (exec_skip _ pre _ _ Hskip (token_match c x post Hc Hx Hpost)).
  cbn [m_before m_text m_groups m_after]. now rewrite append_empty.
Qed.

(** [replace(/,/g, '')] deletes the commas and nothing else. *)
Lemma replace_commas (s : string) :
  replace_all comma (fun _ => "") s = without_commas s.
Proof.
  unfold replace_all, comma. induction s as [|c s IH]; [reflexivity|].
  change (replace_all_from (Chr (one ",")) (fun _ => "") 0 (String c s)) with
      (match match_here (Chr (one ",")) (String c s) with
       | Some m =>
           "" ++
           match String.length (m_text m) with
           | 0 => String c (replace_all_from (Chr (one ",")) (fun _ => "") 0 s)
           | S n => replace_all_from (Chr (one ",")) (fun _ => "") n s
           end
       | None => String c (replace_all_from (Chr (one ",")) (fun _ => "") 0 s)
       end).
  unfold match_here. cbn [rmatch without_commas].
  change (one "," c) with (Ascii.eqb c ",").
  destruct (Ascii.eqb c ","); [|now rewrite IH].
  cbn [m_text].
  change (consumed (String c s) s) with (consumed (String c "" ++ s) s).
  rewrite (consumed_append (String c "") s). exact IH.
Qed.

Lemma extractPrice_in_step (doc : document) (selector : string)
      (rest : list string) :
  extractPrice_in doc (selector :: rest) =
    match exec (Plus price_char) (price_text doc selector) with
    | Some m => VNum (parseFloat_string (without_commas (m_text m)))
    | None => extractPrice_in doc rest
    end.
Proof.
  cbn [extractPrice_in]. unfold price_text.
  destruct (first (select doc selector)) as [|el els] eqn:E.
  - reflexivity.
  - rewrite price_token_class.
    destruct (exec (Plus price_char) _) as [m|]; [|reflexivity].
    now rewrite replace_commas.
Qed.

Lemma extractPrice_in_skip (doc : document) (skipped rest : list string) :
  Forall (fun s => all_chars no_price_char (price_text doc s) = true) skipped ->
  extractPrice_in doc (skipped ++ rest) = extractPrice_in doc rest.
Proof.
  induction 1 as [|s skipped Hs _ IH]; [reflexivity|].
  cbn [app]. now rewrite extractPrice_in_step, (exec_no_price_char _ Hs).
Qed.

Lemma extractPrice_in_null (doc : document) (selectors : list string) :
  extractPrice_in doc selectors = VNull <->
  Forall (fun s => all_chars no_price_char (price_text doc s) = true) selectors.
Proof.
  induction selectors as [|s selectors IH].
  - split; [constructor | reflexivity].
  - rewrite extractPrice_in_step.
    destruct (exec (Plus price_char) (price_text doc s)) as [m|] eqn:E.
    + split; [discriminate|]. intros H. inversion H as [|? ? Hs _]; subst.
      rewrite (exec_no_price_char _ Hs) in E. discriminate.
    + rewrite IH. split.
      * intros H. constructor; [now apply exec_None_no_price_char | exact H].
      * intros H. now inversion H.
Qed.

(** A text of full stops only is no number. *)
Lemma without_commas_no_digit (s : string) :
  all_chars price_char s = true ->
  all_chars (fun c => negb (is_digit c)) s = true ->
  all_chars (one ".") (without_commas s) = true.
Proof.
  induction s as [|c s IH]; [reflexivity|]. simpl.
  intros H1 H2. apply andb_true_iff in H1 as [Hc Hs].
  apply andb_true_iff in H2 as [Hd Hs2]. specialize (IH Hs Hs2).
  unfold price_char in Hc. apply negb_true_iff in Hd. rewrite Hd in Hc.
  simpl in Hc. destruct (Ascii.eqb c ",") eqn:Ecomma; [exact IH|].
  simpl in Hc. simpl. unfold one at 1. now rewrite Hc, IH.
Qed.

Lemma span_digits_dots (s : string) :
  all_chars (one ".") s = true -> span is_digit s = ("", s).
Proof.
  destruct s as [|c s]; [reflexivity|]. simpl. intros H.
  apply andb_true_iff in H as [Hc _]. unfold one in Hc.
  apply Ascii.eqb_eq in Hc. now subst.
Qed.

Lemma parseFloat_dots (s : string) :
  all_chars (one ".") s = true -> parseFloat_string s = NaN.
Proof.
  destruct s as [|c s]; [reflexivity|]. simpl all_chars. intros H.
  apply andb_true_iff in H as [Hc Hs]. unfold one in Hc.
  apply Ascii.eqb_eq in Hc. subst c.
  unfold parseFloat_string.
  change (trimStart (String "." s)) with (String "." s). cbv iota beta.
  change (startsWith (String "." s) "Infinity") with false. cbv iota.
  change (span is_digit (String "." s)) with ("", String "." s).
  cbv iota beta. rewrite (span_digits_dots s Hs). reflexivity.
Qed.

End PriceTextFacts.
Import PriceTextFacts.

(** X8. [extractPrice] reads the first selector, in the order of the list,
    whose text holds a digit, a comma or a full stop; the price is the first
    run of such characters in that text, commas deleted, through
    [parseFloat].  When that run holds no digit the result is [NaN]: later
    selectors are not tried. *)
Theorem extractPrice_first_token
        (doc : document) (skipped : list string) (selector : string)
        (rest : list string) (pre tok post : string) :
  priceSelectors = (skipped ++ selector :: rest)%list ->
  Forall (fun s => all_chars no_price_char (price_text doc s) = true) skipped ->
  price_text doc selector = pre ++ tok ++ post ->
  all_chars no_price_char pre = true ->
  tok <> "" -> all_chars price_char tok = true -> stops price_char post ->
  extractPrice doc = VNum (parseFloat_string (without_commas tok)) /\
  (all_chars (fun c => negb (is_digit c)) tok = true ->
   extractPrice doc = VNum NaN).
Proof.
  intros Hsel Hskipped Htext Hpre Hne Htok Hpost.
  assert (E : extractPrice doc = VNum (parseFloat_string (without_commas tok))).
  { unfold extractPrice. rewrite Hsel, (extractPrice_in_skip _ _ _ Hskipped).
    rewrite extractPrice_in_step, Htext.
    now rewrite (exec_token pre tok post Hpre Hne Htok Hpost). }
  split; [exact E|]. intros Hnodigit. rewrite E. f_equal.
  apply parseFloat_dots. now apply without_commas_no_digit.
Qed.

(** The page that shows " $1,299.00 " under the sixth selector. *)
Lemma extractPrice_first_token_witness :
  extractPrice priced_page = VNum (parseFloat_string "1299.00").
Proof.
  exact (proj1 (extractPrice_first_token priced_page
                  [ ".price__regular .price-item--regular"; ".product__price";
                    ".price-item--sale"; ".product-single__price"; ".price .money" ]
                  ".product-price" ["[data-product-price]"]
                  "$" "1,299.00" ""
                  eq_refl
                  ltac:(repeat constructor)
                  eq_refl eq_refl ltac:(discriminate) eq_refl I)).
Defined.

(** X9. [extractPrice] returns [null] exactly when, for every selector of
    the list, the text of the first element selected holds no digit, comma
    or full stop. *)
Theorem extractPrice_null_iff (doc : document) :
  extractPrice doc = VNull <->
  Forall (fun s => all_chars no_price_char (price_text doc s) = true)
         priceSelectors.
Proof. apply extractPrice_in_null. Qed.

(** ** Product pages *)

Module PageFacts.

Lemma structured_step_is (acc block : option value) :
  structured_step acc block = if is_product block then block else acc.
Proof.
  unfold structured_step, is_product. destruct block as [data|]; [|reflexivity].
  destruct (get data "@type") as [t|]; reflexivity.
Qed.

Lemma fold_structured (blocks : list (option value)) :
  match fold_left structured_step blocks None with
  | Some d =>
      exists pre post,
        blocks = (pre ++ Some d :: post)%list /\
        is_product (Some d) = true /\
        Forall (fun b => is_product b = false) post
  | None => Forall (fun b => is_product b = false) blocks
  end.
Proof.
  induction blocks as [|b blocks IH] using rev_ind; [constructor|].
  rewrite fold_left_app. simpl. rewrite structured_step_is.
  destruct (is_product b) eqn:Hb.
  - destruct b as [d|]; [|discriminate].
    exists blocks, []. repeat split; auto.
  - destruct (fold_left structured_step blocks None) as [d|].
    + destruct IH as (pre & post & -> & Hd & Hpost).
      exists pre, (post ++ [b])%list. split; [now rewrite <- app_assoc|].
      split; [exact Hd|]. apply Forall_app. split; [exact Hpost | now constructor].
    + apply Forall_app. split; [exact IH | now constructor].
Qed.







Lemma axios_get_ok (w : world) (u : string) (st : state) (b : body) :
  http_get w u = Ok b -> axios_get w u st = (Return b, after_get st u).
Proof. intros H. unfold axios_get, bind, emit. now rewrite H. Qed.

Lemma axios_get_failed (w : world) (u : string) (st : state) (m : string) :
  http_get w u = Failed m -> axios_get w u st = (Throw m, after_get st u).
Proof. intros H. unfold axios_get, bind, emit. now rewrite H. Qed.

(** [scrapeProductPage] always returns: whatever the page is, the method
    issues the one request, adds at most one record -- none when the
    request fails -- and the record it adds carries the page's URL and the
    last segment of that URL as [id] and [handle]. *)
Lemma scrapeProductPage_total (w : world) (u : string) (st : state) :
  exists added st',
    scrapeProductPage w u st = (Return tt, st') /\
    effects st' = (effects st ++ [Get u])%list /\
    dates st' <= S (dates st) /\
    storeUrl (this st') = storeUrl (this st) /\
    outputDir (this st') = outputDir (this st) /\
    productsData (this st') = (productsData (this st) ++ added)%list /\
    List.length added <= 1 /\
    (forall m, http_get w u = Failed m -> added = []) /\
    Forall (fun p => url p = u /\ id p = VStr (last_segment u) /\
                     handle p = VStr (last_segment u) /\ variants p = None)
           added.
Proof.
  unfold scrapeProductPage, try_catch, bind, axios_get, emit, bind.
  destruct (http_get w u) as [m|b] eqn:Hget; simpl.
  - exists [], (after_get st u). unfold ret, after_get. simpl.
    rewrite app_nil_r. repeat split; auto.
  - destruct (find_structured (dom b)) as [sd|].
    + unfold structured_record, bind, lift.
      destruct (cleanDescription (get_opt sd "description")) as [d|];
        unfold ret, throw, now, push; simpl.
      * eexists [_], _. split; [reflexivity|]. simpl.
        repeat split; auto; try discriminate.
      * eexists [], _. split; [reflexivity|]. simpl. rewrite app_nil_r.
        repeat split; auto; try discriminate. 
    + unfold markup_record, bind, lift.
      destruct (cleanDescription _) as [d|];
        unfold ret, throw, now, push; simpl.
      * eexists [_], _. split; [reflexivity|]. simpl.
        repeat split; auto; try discriminate.
      * eexists [], _. split; [reflexivity|]. simpl. rewrite app_nil_r.
        repeat split; auto; try discriminate.
Qed.

Lemma mem_true (x : string) (l : list string) : mem x l = true -> In x l.
Proof.
  unfold mem. intros H. apply existsb_exists in H as (y & Hy & E).
  apply String.eqb_eq in E. now subst.
Qed.

Lemma unique_complete (xs : list string) (x : string) :
  In x xs -> In x (unique xs).
Proof.
  unfold unique.
  assert (H : forall seen,
            In x seen \/ In x xs ->
            In x (fold_left
                    (fun seen x => if mem x seen then seen else (seen ++ [x])%list)
                    xs seen)).
  { induction xs as [|y xs IH]; intros seen; simpl.
    - now intros [H | []].
    - intros [H | [-> | H]]; apply IH.
      + left. destruct (mem y seen); [exact H|]. apply in_app_iff. now left.
      + left. destruct (mem x seen) eqn:E; [now apply mem_true|].
        apply in_app_iff. right. now left.
      + now right. }
  intros Hin. apply H. now right.
Qed.

(** The description the markup tier reads is a string or [null]:
    [cleanDescription] takes it. *)
Lemma html_of_cleanable (a b c : list element) :
  exists d,
    cleanDescription (or_else (html_of a) (or_else (html_of b) (html_of c)))
    = Some d.
Proof.
  unfold or_else, html_of, cleanDescription.
  destruct a as [|[? ? [|]] ?], b as [|[? ? [|]] ?], c as [|[? ? [|]] ?];
    simpl; eauto.
Qed.

End PageFacts.
Import PageFacts.

(** X10. The structured data of a page is the last JSON-LD block that
    parses and has [@type] "Product"; there is none exactly when no block
    is such a block. *)
Theorem find_structured_last_product (doc : document) :
  match find_structured doc with
  | Some d =>
      exists pre post,
        ld_json doc = (pre ++ Some d :: post)%list /\
        is_product (Some d) = true /\
        Forall (fun b => is_product b = false) post
  | None => Forall (fun b => is_product b = false) (ld_json doc)
  end.
Proof. exact (fold_structured (ld_json doc)). Qed.



(** X12. [scrapeProductPage] never throws: for every world and URL it
    returns after its one request, having added at most one record -- none
    when the request fails -- and a record it adds carries the URL, the last
    segment of the URL as [id] and [handle], and no [variants]. *)
Theorem scrapeProductPage_never_throws (w : world) (u : string) (st : state) :
  exists added st',
    scrapeProductPage w u st = (Return tt, st') /\
    effects st' = (effects st ++ [Get u])%list /\
    productsData (this st') = (productsData (this st) ++ added)%list /\
    List.length added <= 1 /\
    (forall m, http_get w u = Failed m -> added = []) /\
    Forall (fun p => url p = u /\ id p = VStr (last_segment u) /\
                     handle p = VStr (last_segment u) /\ variants p = None)
           added.
Proof.
  destruct (scrapeProductPage_total w u st)
    as (added & st' & E & He & _ & _ & _ & Hp & Hl & Hf & Hr).
  now exists added, st'.
Qed.

(** X13. A page that is served and holds no "Product" block always gives
    exactly one record: the markup tier cannot fail on it.  The record's
    price is what [extractPrice] finds, its time stamp the clock's reading,
    and its images are exactly the URLs collected from the page, each once
    and each beginning with "http". *)
Theorem markup_page_record (w : world) (u : string) (st : state) (b : body) :
  http_get w u = Ok b ->
  find_structured (dom b) = None ->
  exists p st',
    scrapeProductPage w u st = (Return tt, st') /\
    productsData (this st') = (productsData (this st) ++ [p])%list /\
    price p = extractPrice (dom b) /\
    timestamp p = date_iso w (dates st) /\
    NoDup (images p) /\
    Forall has_scheme (images p) /\
    (forall x, In (VStr x) (images p) <-> In x (collect_images (dom b))).
Proof.
  intros Hget Hnone.
  unfold scrapeProductPage, try_catch.
  rewrite (bind_Return _ _ _ _ _ (axios_get_ok w u st b Hget)). rewrite Hnone.
  destruct (html_of_cleanable
              (select (dom b) ".product-single__description")
              (select (dom b) ".product__description")
              (select (dom b) ".description")) as (d & Hd).
  destruct (markup_record w u (dom b) (after_get st u)) as [o st1] eqn:E.
  pose proof E as E'.
  unfold markup_record, bind, lift in E'. rewrite Hd in E'.
  unfold ret, now in E'. simpl in E'. injection E' as <- <-.
  destruct (markup_record_images w u (dom b) (after_get st u) _ _ E)
    as [Hnd Hs].
  rewrite (bind_Return _ _ _ _ _ E). unfold push.
  eexists _, _. split; [reflexivity|].
  cbn [this productsData price timestamp images after_get dates] in *.
  split; [reflexivity|]. split; [reflexivity|]. split; [reflexivity|].
  split; [exact Hnd|]. split; [exact Hs|].
  intros x. cbv beta iota delta [images]. rewrite in_map_iff. split.
  - intros (y & [= ->] & Hy). now apply unique_In.
  - intros Hx. exists x. split; [reflexivity | now apply unique_complete].
Qed.

(** The mug's page: the thumbnail that occurs twice gives one full-size
    image. *)
Lemma markup_page_record_witness :
  exists p st',
    scrapeProductPage catalogue_store "https://shop.example/products/mug"
                      (start "https://shop.example" "out") = (Return tt, st') /\
    productsData (this st') = [p] /\
    price p = VNum (parseFloat_string "1299") /\
    images p = [VStr "https://cdn.shopify.com/s/files/1/products/mug.jpg"].
Proof.
  destruct (markup_page_record catalogue_store "https://shop.example/products/mug"
              (start "https://shop.example" "out")
              {| data_products := None; dom := gallery_page |} eq_refl eq_refl)
    as (p & st' & E & Hpd & Hprice & _).
  exists p, st'. split; [exact E|]. split; [exact Hpd|].
  split; [rewrite Hprice; vm_compute; reflexivity|].
  assert (Hrun : productsData
                   (this (snd (scrapeProductPage catalogue_store
                                 "https://shop.example/products/mug"
                                 (start "https://shop.example" "out"))))
                 = [p]) by (now rewrite E).
  vm_compute in Hrun. injection Hrun as <-. reflexivity.
Defined.

(** X14. On a page that is served and has a "Product" block, everything
    turns on the block's [description]: when it is truthy and no string the
    page gives no record at all, and the method still returns normally;
    otherwise the page gives exactly one record, whose price is
    [offers.price] when that is truthy, else [offers.lowPrice] when that is
    truthy, else what [extractPrice] finds -- the last in particular when
    [offers] is an array. *)
Theorem structured_page_outcome
        (w : world) (u : string) (st : state) (b : body) (sd : value) :
  http_get w u = Ok b ->
  find_structured (dom b) = Some sd ->
  let desc := get_opt sd "description" in
  let offers := get_opt sd "offers" in
  (truthy desc = true -> (forall s, desc <> VStr s) ->
   scrapeProductPage w u st = (Return tt, after_get st u)) /\
  (truthy desc = false \/ (exists s, desc = VStr s) ->
   exists p st',
     scrapeProductPage w u st = (Return tt, st') /\
     productsData (this st') = (productsData (this st) ++ [p])%list /\
     title p = get_opt sd "name" /\
     cleanDescription desc = Some (description p) /\
     timestamp p = date_iso w (dates st) /\
     (truthy (get_opt offers "price") = true ->
      price p = get_opt offers "price") /\
     (truthy (get_opt offers "price") = false ->
      truthy (get_opt offers "lowPrice") = true ->
      price p = get_opt offers "lowPrice") /\
     (truthy (get_opt offers "price") = false ->
      truthy (get_opt offers "lowPrice") = false ->
      price p = extractPrice (dom b)) /\
     (isArray offers = true -> price p = extractPrice (dom b))).
Proof.
  intros Hget Hsd desc offers.
  unfold scrapeProductPage, try_catch.
  rewrite (bind_Return _ _ _ _ _ (axios_get_ok w u st b Hget)). rewrite Hsd.
  split.
  - intros Ht Hs.
    assert (Hd : cleanDescription desc = None).
    { unfold cleanDescription. rewrite Ht. simpl.
      destruct desc; try reflexivity. now contradiction (Hs s). }
    unfold structured_record. fold desc. rewrite Hd.
    unfold lift, bind, throw, ret. reflexivity.
  - intros Hok.
    assert (Hd : exists d, cleanDescription desc = Some d).
    { unfold cleanDescription. destruct Hok as [Hf | (s & ->)].
      - rewrite Hf. simpl. eauto.
      - destruct (negb (truthy (VStr s))); eauto. }
    destruct Hd as (d & Hd).
    unfold structured_record. fold desc offers. rewrite Hd.
    unfold lift, bind, ret, now, push, throw. cbn [fst snd].
    eexists _, _. split; [reflexivity|].
    cbv beta iota delta [this productsData title description timestamp price].
    split; [reflexivity|]. split; [reflexivity|]. split; [reflexivity|].
    split; [reflexivity|].
    unfold or_else.
    split; [now intros ->|]. split; [now intros -> ->|].
    split; [now intros -> ->|].
    intros Harr. destruct offers; try discriminate. reflexivity.
Qed.

(** A block whose description is an object: no record. *)
Lemma structured_page_outcome_witness :
  scrapeProductPage
    (page_store "https://shop.example/products/mug"
                (product_page rich_description_block))
    "https://shop.example/products/mug"
    (start "https://shop.example" "out")
  = (Return tt,
     after_get (start "https://shop.example" "out")
               "https://shop.example/products/mug").
Proof.
  refine (proj1 (structured_page_outcome
                   (page_store "https://shop.example/products/mug"
                               (product_page rich_description_block))
                   "https://shop.example/products/mug"
                   (start "https://shop.example" "out")
                   {| data_products := None;
                      dom := product_page rich_description_block |}
                   rich_description_block eq_refl eq_refl) eq_refl _).
  intros s. discriminate.
Defined.

Module ThumbnailFacts.

(** A text the thumbnail pattern accepts holds an underscore. *)
Lemma thumbnail_has_underscore (a rest : string) :
  matches thumbnail_suffix a rest -> all_chars not_underscore a = false.
Proof.
  unfold thumbnail_suffix, Plus. intros H.
  repeat match goal with
         | M : matches (Cat _ _) _ _ |- _ => inv M
         | M : matches (Group _) _ _ |- _ => inv M
         | M : matches (Chr _) _ _ |- _ => inv M
         | M : matches (Star _) _ _ |- _ => inv M
         | M : matches Eos _ _ |- _ => inv M
         end.
  rewrite !all_chars_append.
  match goal with
  | H : one "_" ?c = true |- _ =>
      unfold one in H; apply Ascii.eqb_eq in H; subst c
  end.
  cbn [all_chars]. unfold not_underscore at 3. cbn [Ascii.eqb Bool.eqb negb andb].
  now rewrite !andb_false_r.
Qed.

Lemma all_chars_prefix (p : ascii -> bool) (a b : string) :
  all_chars p (a ++ b) = true -> all_chars p a = true.
Proof.
  rewrite all_chars_append. intros H. now apply andb_true_iff in H as [H _].
Qed.

(** The pattern matches nowhere in a text without an underscore. *)
Lemma no_underscore_no_match (s : string) :
  all_chars not_underscore s = true -> exec thumbnail_suffix s = None.
Proof.
  induction s as [|c s IH]; intros Hs.
  - reflexivity.
  - assert (Hhere : match_here thumbnail_suffix (String c s) = None).
    { destruct (match_here thumbnail_suffix (String c s)) as [m|] eqn:E;
        [exfalso | reflexivity].
      destruct (match_here_sound _ _ _ E) as (a & rest & Heq & M).
      pose proof (thumbnail_has_underscore a rest M) as Ha.
      rewrite Heq in Hs. rewrite (all_chars_prefix _ _ _ Hs) in Ha.
      discriminate. }
    simpl in Hs. apply andb_true_iff in Hs as [_ Hs].
    change (exec thumbnail_suffix (String c s)) with
      (match match_here thumbnail_suffix (String c s) with
       | Some m => Some m
       | None =>
           match exec thumbnail_suffix s with
           | Some m => Some (MatchResult (String c (m_before m)) (m_text m)
                                         (m_groups m) (m_after m))
           | None => None
           end
       end).
    now rewrite Hhere, (IH Hs).
Qed.

End ThumbnailFacts.
Import ThumbnailFacts.

(** X15. An image source without an underscore is no thumbnail for the
    markup tier: it is kept as it is, with "https:" in front when it does
    not begin with "http". *)
Theorem image_without_underscore_kept (el : element) (imgSrc : string) :
  attr el "src" = Some imgSrc ->
  imgSrc <> "" ->
  all_chars not_underscore imgSrc = true ->
  fullSize imgSrc = imgSrc /\ image_of el = [with_scheme imgSrc].
Proof.
  intros Hsrc Hne Hno.
  assert (Hfull : fullSize imgSrc = imgSrc).
  { unfold fullSize, replace. now rewrite (no_underscore_no_match _ Hno). }
  split; [exact Hfull|].
  unfold image_of, image_source. rewrite Hsrc.
  destruct imgSrc as [|c rest]; [congruence|].
  now rewrite Hfull.
Qed.

(** The image at "//cdn.x/products/small.jpg". *)
Lemma image_without_underscore_kept_witness :
  image_of lazy_image = ["https://cdn.x/products/small.jpg"].
Proof.
  exact (proj2 (image_without_underscore_kept lazy_image
                  "//cdn.x/products/small.jpg" eq_refl
                  ltac:(discriminate) eq_refl)).
Defined.

(** X27. For every collected image whose URL ends in [.body_WxH.ext] --
    [body] and [ext] non-empty and free of ".", [W] and [H] non-empty runs
    of digits -- the emitted URL is the URL without [_WxH] (behind "https:"
    when it does not begin with "http"). *)
Theorem image_of_strips_size_token
        (el : element) (pre body w h ext : string) :
  body <> "" -> all_chars (none_of ".") body = true ->
  w <> "" -> all_chars is_digit w = true ->
  h <> "" -> all_chars is_digit h = true ->
  ext <> "" -> all_chars (none_of ".") ext = true ->
  attr el "src"
  = Some (pre ++ "." ++ body ++ "_" ++ w ++ "x" ++ h ++ "." ++ ext) ->
  image_of el = [with_scheme (pre ++ "." ++ body ++ "." ++ ext)].
Proof.
  intros Nb Hb Nw Hw Nh Hh Ne He Hsrc.
  unfold image_of, image_source. rewrite Hsrc.
  pose proof (fullSize_strips pre body w h ext Nb Hb Nw Hw Nh Hh Ne He) as Hfull.
  destruct (pre ++ "." ++ body ++ "_" ++ w ++ "x" ++ h ++ "." ++ ext) eqn:E.
  - destruct pre; discriminate E.
  - now rewrite Hfull.
Qed.

(** A thumbnail on a CDN host. *)
Lemma image_of_strips_size_token_witness :
  image_of cdn_thumbnail
  = ["https://cdn.shopify.com/s/files/1/products/mug.jpg"].
Proof.
  exact (image_of_strips_size_token cdn_thumbnail
           "//cdn.shopify" "com/s/files/1/products/mug" "300" "300" "jpg"
           ltac:(discriminate) eq_refl ltac:(discriminate) eq_refl
           ltac:(discriminate) eq_refl ltac:(discriminate) eq_refl eq_refl).
Defined.

Module TokenFacts.

(** The pattern matches nowhere in a text with fewer than two full
    stops. *)
Lemma few_dots_no_match (s : string) :
  dots s < 2 -> exec thumbnail_suffix s = None.
Proof.
  induction s as [|c s IH]; intros Hs.
  - reflexivity.
  - assert (Hhere : match_here thumbnail_suffix (String c s) = None).
    { destruct (match_here thumbnail_suffix (String c s)) as [m|] eqn:E;
        [exfalso | reflexivity].
      destruct (match_here_sound _ _ _ E) as (a & rest & Heq & M).
      destruct (thumbnail_shape a rest M) as (-> & Ha & _).
      rewrite append_empty in Heq. rewrite Heq, Ha in Hs. lia. }
    assert (Htail : dots s < 2) by (simpl in Hs; lia).
    change (exec thumbnail_suffix (String c s)) with
      (match match_here thumbnail_suffix (String c s) with
       | Some m => Some m
       | None =>
           match exec thumbnail_suffix s with
           | Some m => Some (MatchResult (String c (m_before m)) (m_text m)
                                         (m_groups m) (m_after m))
           | None => None
           end
       end).
    now rewrite Hhere, (IH Htail).
Qed.

End TokenFacts.
Import TokenFacts.

(** X28. An image source with fewer than two full stops is emitted as it
    is, a size token included, with "https:" in front when it does not begin
    with "http": the pattern needs one "." before the token and one behind
    it. *)
Theorem image_with_one_dot_kept (el : element) (imgSrc : string) :
  attr el "src" = Some imgSrc ->
  imgSrc <> "" ->
  dots imgSrc < 2 ->
  fullSize imgSrc = imgSrc /\ image_of el = [with_scheme imgSrc].
Proof.
  intros Hsrc Hne Hdots.
  assert (Hfull : fullSize imgSrc = imgSrc).
  { unfold fullSize, replace. now rewrite (few_dots_no_match _ Hdots). }
  split; [exact Hfull|].
  unfold image_of, image_source. rewrite Hsrc.
  destruct imgSrc as [|c rest]; [congruence|].
  now rewrite Hfull.
Qed.

(** A thumbnail on a relative URL. *)
Lemma image_with_one_dot_kept_witness :
  image_of relative_thumbnail = ["https:/products/product_300x300.jpg"].
Proof.
  exact (proj2 (image_with_one_dot_kept relative_thumbnail
                  "/products/product_300x300.jpg" eq_refl
                  ltac:(discriminate) ltac:(simpl; lia))).
Defined.

(** ** The catalogue page *)

Module CatalogueFacts.

(** What [link_step] appends, if anything, is the resolved URL of the
    anchor. *)
Lemma link_step_cases (base : string) (links : list string) (el : element) :
  link_step base links el = links \/
  exists u, link_step base links el = (links ++ [u])%list /\
            mem u links = false /\
            includes u "/products/" = true /\
            (startsWith u "http" = true \/ startsWith u base = true).
Proof.
  unfold link_step.
  destruct (attr el "href") as [href|]; [|now left].
  destruct (includes href "/products/") eqn:Hinc; [|now left].
  match goal with
  | |- context [mem ?u links] => destruct (mem u links) eqn:Hmem; [now left|];
                                 right; exists u
  end.
  split; [reflexivity|]. split; [exact Hmem|].
  destruct (startsWith href "http") eqn:Hhttp.
  - split; [exact Hinc | now left].
  - split.
    + apply includes_append_l.
      destruct (startsWith href "/"); [exact Hinc|].
      now apply (includes_append_l "/").
    + right. apply startsWith_append, startsWith_self.
Qed.

Lemma fold_link_step (base : string) (els : list element) : forall links,
  NoDup links ->
  Forall (fun u => includes u "/products/" = true) links ->
  Forall (fun u => startsWith u "http" = true \/ startsWith u base = true) links ->
  let out := fold_left (link_step base) els links in
  NoDup out /\
  Forall (fun u => includes u "/products/" = true) out /\
  Forall (fun u => startsWith u "http" = true \/ startsWith u base = true) out.
Proof.
  induction els as [|el els IH]; intros links Hnd Hinc Habs; simpl; [auto|].
  destruct (link_step_cases base links el) as [-> | (u & -> & Hmem & Hu & Hb)].
  - now apply IH.
  - apply IH.
    + apply NoDup_snoc; [exact Hnd | now apply mem_false].
    + apply Forall_app. split; [exact Hinc | now constructor].
    + apply Forall_app. split; [exact Habs | now constructor].
Qed.

Lemma product_links_ok (base : string) (doc : document) :
  Forall (fun u => includes u "/products/" = true /\ request_ok base u)
         (product_links base doc).
Proof.
  destruct (fold_link_step base
              (filter (attr_contains "href" "/products/") (anchors doc)) []
              (NoDup_nil _) (Forall_nil _) (Forall_nil _))
    as (_ & Hinc & Habs).
  apply Forall_forall. intros u Hu. split.
  - exact (proj1 (Forall_forall _ _) Hinc u Hu).
  - intros Hbase.
    destruct (proj1 (Forall_forall _ _) Habs u Hu) as [H | H]; [exact H|].
    exact (startsWith_trans _ _ _ H Hbase).
Qed.

(** The loop over the discovered links: every link is requested, in order,
    each request followed by the pause; a page that fails or cannot be read
    is passed over. *)
Lemma crawl_loop (w : world) (links : list string) : forall st,
  exists added st',
    for_of links (fun productUrl => scrapeProductPage w productUrl ;; sleep 2000) st
    = (Return tt, st') /\
    effects st' = (effects st ++ crawl_effects links)%list /\
    storeUrl (this st') = storeUrl (this st) /\
    outputDir (this st') = outputDir (this st) /\
    productsData (this st') = (productsData (this st) ++ added)%list /\
    List.length added <= List.length links /\
    Forall (fun p => In (url p) links) added.
Proof.
  induction links as [|u links IH]; intros st.
  - exists [], st. simpl. rewrite !app_nil_r. repeat split; auto.
  - destruct (scrapeProductPage_total w u st)
      as (a1 & st1 & E1 & He1 & _ & Hu1 & Hd1 & Hp1 & Hl1 & _ & Hf1).
    set (st2 := {| this := this st1; effects := (effects st1 ++ [Sleep 2000])%list;
                   dates := dates st1 |}).
    destruct (IH st2) as (a2 & st' & E2 & He2 & Hu2 & Hd2 & Hp2 & Hl2 & Hf2).
    exists (a1 ++ a2)%list, st'. split.
    + change (for_of (u :: links) ?f) with (bind (f u) (fun _ => for_of links f)).
      unfold bind at 1. unfold bind at 1. rewrite E1. unfold sleep, emit.
      exact E2.
    + split.
      * rewrite He2. unfold st2. simpl. rewrite He1, <- !app_assoc. reflexivity.
      * split; [rewrite Hu2; exact Hu1|]. split; [rewrite Hd2; exact Hd1|].
        split; [rewrite Hp2; unfold st2; simpl; now rewrite Hp1, app_assoc|].
        split; [rewrite length_app; simpl; lia|].
        apply Forall_app. split.
        -- eapply Forall_impl; [|exact Hf1]. intros p (Hp & _). now left.
        -- eapply Forall_impl; [|exact Hf2]. intros p Hp. now right.
Qed.

End CatalogueFacts.
Import CatalogueFacts.

(** X16. The links found on the catalogue page are pairwise distinct, each
    contains "/products/", and each begins with "http" when the store URL
    does. *)
Theorem product_links_distinct_http (base : string) (doc : document) :
  NoDup (product_links base doc) /\
  Forall (fun u => includes u "/products/" = true) (product_links base doc) /\
  (startsWith base "http" = true ->
   Forall (fun u => startsWith u "http" = true) (product_links base doc)).
Proof.
  destruct (fold_link_step base
              (filter (attr_contains "href" "/products/") (anchors doc)) []
              (NoDup_nil _) (Forall_nil _) (Forall_nil _))
    as (Hnd & Hinc & Habs).
  split; [exact Hnd|]. split; [exact Hinc|].
  intros Hbase. eapply Forall_impl; [|exact Habs].
  intros u [Hu | Hu]; [exact Hu|].
  exact (startsWith_trans u base "http" Hu Hbase).
Qed.

(** X17. When the catalogue page is served, [scrapeViaHtml] returns [true]
    after requesting the catalogue and then every link found, in order,
    each request followed by a pause of 2000 ms; pages that fail are passed
    over, so at most one record per link is added, each for one of the
    links. *)
Theorem scrapeViaHtml_visits_every_link (w : world) (st : state) (b : body) :
  http_get w (storeUrl (this st) ++ "/collections/all") = Ok b ->
  let links := product_links (storeUrl (this st)) (dom b) in
  exists added st',
    scrapeViaHtml w st = (Return true, st') /\
    effects st'
    = (effects st ++ Get (storeUrl (this st) ++ "/collections/all")
         :: crawl_effects links)%list /\
    productsData (this st') = (productsData (this st) ++ added)%list /\
    List.length added <= List.length links /\
    Forall (fun p => In (url p) links) added.
Proof.
  intros Hget links.
  destruct (crawl_loop w links
              (after_get st (storeUrl (this st) ++ "/collections/all")))
    as (added & st' & E & He & _ & _ & Hp & Hl & Hf).
  exists added, st'.
  unfold scrapeViaHtml, try_catch.
  rewrite (bind_Return self _ st st (this st) eq_refl).
  rewrite (bind_Return _ _ _ _ _ (axios_get_ok w _ st b Hget)).
  fold links. rewrite (bind_Return _ _ _ _ _ E). unfold ret.
  split; [reflexivity|]. split.
  - rewrite He. simpl. now rewrite <- app_assoc.
  - now repeat split.
Qed.

(** A catalogue with two distinct links, the second of which answers
    404. *)
Lemma scrapeViaHtml_visits_every_link_witness :
  exists added st',
    scrapeViaHtml catalogue_store (start "https://shop.example" "out")
    = (Return true, st') /\
    effects st'
    = [ Get "https://shop.example/collections/all";
        Get "https://shop.example/products/mug"; Sleep 2000;
        Get "https://shop.example/products/cup?ref=home"; Sleep 2000 ] /\
    productsData (this st') = added /\
    List.length added <= 2.
Proof.
  destruct (scrapeViaHtml_visits_every_link catalogue_store
              (start "https://shop.example" "out")
              {| data_products := None; dom := catalogue_page |} eq_refl)
    as (added & st' & E & He & Hp & Hl & _).
  exists added, st'. split; [exact E|]. split; [exact He|].
  split; [exact Hp | exact Hl].
Defined.

(** X18. When the request for the catalogue page fails, [scrapeViaHtml]
    returns [false] right after that request: no page is visited and no
    record is added. *)
Theorem scrapeViaHtml_catalog_unreachable (w : world) (st : state) (m : string) :
  http_get w (storeUrl (this st) ++ "/collections/all") = Failed m ->
  scrapeViaHtml w st
  = (Return false, after_get st (storeUrl (this st) ++ "/collections/all")).
Proof.
  intros Hget. unfold scrapeViaHtml, try_catch.
  rewrite (bind_Return self _ st st (this st) eq_refl).
  now rewrite (bind_Throw _ _ _ _ _ (axios_get_failed w _ st m Hget)).
Qed.

(** A store that answers nothing. *)
Lemma scrapeViaHtml_catalog_unreachable_witness :
  scrapeViaHtml quiet_world (start "https://shop.example" "out")
  = (Return false,
     after_get (start "https://shop.example" "out")
               "https://shop.example/collections/all").
Proof.
  exact (scrapeViaHtml_catalog_unreachable quiet_world
           (start "https://shop.example" "out") "unreachable" eq_refl).
Defined.

(** ** The feed *)

Module FeedFacts.

(** What [normalizeImageUrls] keeps of one source, and of the sources of
    an entry. *)
Lemma normalizeImageUrl_source (v y : value) :
  normalizeImageUrl v = Some y -> filter truthy [y] = normalized_source v.
Proof.
  destruct v as [| |[]|[s0|s0| |s0 m e]|[|c s]| |];
    try (intros H; cbn in H; try discriminate H; injection H as <-; reflexivity).
  rewrite normalizeImageUrl_string. cbn [nonempty]. intros [= <-].
  cbn [filter normalized_source].
  assert (Ht : truthy (VStr (with_scheme (String c s))) = true).
  { unfold with_scheme. now destruct (startsWith (String c s) "http"). }
  now rewrite Ht.
Qed.

Lemma feed_images_normalized (imgs : list Feed.image) : forall urls,
  map_or_throw normalizeImageUrl (map Feed.src imgs) = Some urls ->
  filter truthy urls
  = flat_map (fun img => normalized_source (Feed.src img)) imgs.
Proof.
  induction imgs as [|img imgs IH]; intros urls; cbn [map map_or_throw flat_map].
  - now intros [= <-].
  - destruct (normalizeImageUrl (Feed.src img)) as [y|] eqn:Hy; [|discriminate].
    destruct (map_or_throw normalizeImageUrl (map Feed.src imgs)) as [ys|];
      [|discriminate].
    intros [= <-]. rewrite <- (normalizeImageUrl_source _ _ Hy), <- (IH ys eq_refl).
    cbn [filter]. now destruct (truthy y).
Qed.

Section Feed.
Variable w : world.

Lemma feed_entry_run (product : Feed.product) (st : state) :
  processable product = true ->
  exists r,
    feed_entry w product st
    = (Return tt,
       {| this := {| storeUrl := storeUrl (this st);
                     outputDir := outputDir (this st);
                     productsData := (productsData (this st) ++ [r])%list |};
          effects := (effects st ++ [Sleep 500])%list;
          dates := S (dates st) |}) /\
    feed_record_of (storeUrl (this st)) product r /\
    timestamp r = date_iso w (dates st).
Proof.
  unfold processable.
  unfold feed_entry, bind, self, lift, now, normalizeImageUrls, push, sleep, emit.
  destruct (cleanDescription (Feed.body_html product)) as [d|] eqn:Ed;
    [|discriminate].
  simpl.
  destruct (map_or_throw normalizeImageUrl _) as [urls|] eqn:Eu; [|discriminate].
  intros _. simpl. eexists. split; [reflexivity|]. simpl.
  split; [|reflexivity].
  unfold feed_record_of. simpl.
  repeat split; try assumption;
    [exact (feed_images_normalized _ _ Eu) | exact (map_or_throw_scheme _ _ Eu)].
Qed.

Lemma feed_entry_throws (product : Feed.product) (st : state) :
  processable product = false ->
  exists e st',
    feed_entry w product st = (Throw e, st') /\
    this st' = this st /\ effects st' = effects st.
Proof.
  unfold processable.
  unfold feed_entry, bind, self, lift, now, normalizeImageUrls, push, sleep, emit.
  destruct (cleanDescription (Feed.body_html product)) as [d|] eqn:Ed; simpl.
  - destruct (map_or_throw normalizeImageUrl _) as [urls|] eqn:Eu;
      [discriminate|].
    intros _. simpl. eexists _, _. split; [reflexivity|]. now split.
  - intros _. eexists _, _. split; [reflexivity|]. now split.
Qed.

(** The loop over the entries of a page, all of them processable. *)
Lemma entries_run (products : list Feed.product) : forall st,
  Forall (fun p => processable p = true) products ->
  exists added st',
    for_of products (feed_entry w) st = (Return tt, st') /\
    storeUrl (this st') = storeUrl (this st) /\
    outputDir (this st') = outputDir (this st) /\
    productsData (this st') = (productsData (this st) ++ added)%list /\
    Forall2 (feed_record_of (storeUrl (this st))) products added /\
    effects st' = (effects st ++ repeat (Sleep 500) (List.length products))%list.
Proof.
  induction products as [|p ps IH]; intros st Hall.
  - exists [], st. simpl. rewrite !app_nil_r. repeat split. constructor.
  - inversion Hall as [|? ? Hp Hps]; subst.
    destruct (feed_entry_run p st Hp) as (r & E & Hr & _).
    match type of E with _ = (_, ?s) => set (st1 := s) in * end.
    destruct (IH st1 Hps) as (added & st' & E2 & Hu & Hd & Hpd & Hrec & Heff).
    exists (r :: added), st'. cbn [for_of].
    rewrite (bind_Return _ _ _ _ _ E).
    split; [exact E2|]. split; [exact Hu|]. split; [exact Hd|].
    split; [rewrite Hpd; simpl; now rewrite <- app_assoc|].
    split; [constructor; assumption|].
    rewrite Heff. simpl. now rewrite <- app_assoc.
Qed.

(** The loop up to an entry that cannot be processed. *)
Lemma entries_abort (good : list Feed.product) (bad : Feed.product)
      (rest : list Feed.product) : forall st,
  Forall (fun p => processable p = true) good ->
  processable bad = false ->
  exists e added st',
    for_of (good ++ bad :: rest) (feed_entry w) st = (Throw e, st') /\
    productsData (this st') = (productsData (this st) ++ added)%list /\
    Forall2 (feed_record_of (storeUrl (this st))) good added /\
    effects st' = (effects st ++ repeat (Sleep 500) (List.length good))%list.
Proof.
  induction good as [|p ps IH]; intros st Hall Hbad.
  - destruct (feed_entry_throws bad st Hbad) as (e & st' & E & Hthis & Heff).
    exists e, [], st'. cbn [app for_of]. rewrite (bind_Throw _ _ _ _ _ E).
    split; [reflexivity|]. rewrite Hthis, Heff, !app_nil_r.
    repeat split. constructor.
  - inversion Hall as [|? ? Hp Hps]; subst.
    destruct (feed_entry_run p st Hp) as (r & E & Hr & _).
    match type of E with _ = (_, ?s) => set (st1 := s) in * end.
    destruct (IH st1 Hps Hbad) as (e & added & st' & E2 & Hpd & Hrec & Heff).
    exists e, (r :: added), st'. cbn [app for_of].
    rewrite (bind_Return _ _ _ _ _ E).
    split; [exact E2|].
    split; [rewrite Hpd; simpl; now rewrite <- app_assoc|].
    split; [constructor; assumption|].
    rewrite Heff. simpl. now rewrite <- app_assoc.
Qed.

Lemma serves_tail (base : string) (page : nat) (entries : list Feed.product)
      (rest : list (list Feed.product)) :
  serves w base page (entries :: rest) -> serves w base (page + 1) rest.
Proof.
  intros H i es Hi. destruct (H (S i) es Hi) as (b & Hb & He).
  exists b. split; [|exact He]. now replace (page + 1 + i) with (page + S i) by lia.
Qed.

Lemma serves_head (base : string) (page : nat) (entries : list Feed.product)
      (rest : list (list Feed.product)) :
  serves w base page (entries :: rest) ->
  exists b, http_get w (feed_url base page) = Ok b /\ page_entries b = entries.
Proof.
  intros H. destruct (H 0 entries eq_refl) as (b & Hb & He).
  exists b. now rewrite Nat.add_0_r in Hb.
Qed.

(** One turn of the loop on a page of processable entries. *)
Lemma feed_pages_turn (fuel page total : nat) (st : state) (b : body) :
  http_get w (feed_url (storeUrl (this st)) page) = Ok b ->
  Forall (fun p => processable p = true) (page_entries b) ->
  exists added st1,
    storeUrl (this st1) = storeUrl (this st) /\
    outputDir (this st1) = outputDir (this st) /\
    productsData (this st1) = (productsData (this st) ++ added)%list /\
    Forall2 (feed_record_of (storeUrl (this st))) (page_entries b) added /\
    effects st1
    = (effects st ++ Get (feed_url (storeUrl (this st)) page)
         :: repeat (Sleep 500) (List.length (page_entries b)))%list /\
    feed_pages w (S fuel) page total st
    = if List.length (page_entries b) <? limit
      then (Return (if (page =? 1) && (List.length (page_entries b) =? 0)
                    then false
                    else 0 <? total + List.length (page_entries b)), st1)
      else bind (sleep 2000)
             (fun _ => feed_pages w fuel (page + 1)
                         (total + List.length (page_entries b))) st1.
Proof.
  intros Hget Hall. rewrite feed_pages_step. cbv zeta. rewrite Hget.
  set (u := feed_url (storeUrl (this st)) page).
  unfold page_entries in *.
  destruct (data_products b) as [[|p ps]|].
  - exists [], (after_get st u). simpl. rewrite !app_nil_r, Nat.add_0_r.
    rewrite andb_true_r.
    repeat split; try constructor. now destruct (page =? 1).
  - destruct (entries_run (p :: ps) (after_get st u) Hall)
      as (added & st1 & E & Hu & Hd & Hpd & Hrec & Heff).
    exists added, st1. rewrite (bind_Return _ _ _ _ _ E).
    split; [exact Hu|]. split; [exact Hd|]. split; [exact Hpd|].
    split; [exact Hrec|]. split.
    + rewrite Heff. simpl. now rewrite <- app_assoc.
    + destruct (List.length (p :: ps) <? limit); [|reflexivity].
      rewrite andb_false_r. reflexivity.
  - exists [], (after_get st u). simpl. rewrite !app_nil_r, Nat.add_0_r.
    rewrite andb_true_r.
    repeat split; try constructor. now destruct (page =? 1).
Qed.

(** The loop over full pages that end in a short one. *)
Lemma feed_pages_run (fulls : list (list Feed.product)) :
  forall (lastp : list Feed.product) fuel page total st,
  1 <= page ->
  serves w (storeUrl (this st)) page (fulls ++ [lastp])%list ->
  Forall (fun entries => limit <= List.length entries) fulls ->
  List.length lastp < limit ->
  Forall (Forall (fun p => processable p = true)) (fulls ++ [lastp])%list ->
  List.length fulls < fuel ->
  exists added st',
    feed_pages w fuel page total st
    = (Return (if (page =? 1) && (List.length (List.concat (fulls ++ [lastp])%list) =? 0)
               then false
               else 0 <? total + List.length (List.concat (fulls ++ [lastp])%list)), st') /\
    storeUrl (this st') = storeUrl (this st) /\
    outputDir (this st') = outputDir (this st) /\
    productsData (this st') = (productsData (this st) ++ added)%list /\
    Forall2 (feed_record_of (storeUrl (this st)))
            (List.concat (fulls ++ [lastp])%list) added /\
    effects st'
    = (effects st ++ feed_effects (storeUrl (this st)) page (fulls ++ [lastp])%list)%list.
Proof.
  induction fulls as [|entries fulls IH];
    intros lastp fuel page total st Hpage Hserves Hfull Hshort Hproc Hfuel.
  - destruct fuel as [|fuel]; [simpl in Hfuel; lia|].
    cbn [app] in *. destruct (serves_head _ _ _ _ Hserves) as (b & Hget & Hb).
    inversion Hproc as [|? ? Hlast _]; subst.
    destruct (feed_pages_turn fuel page total st b Hget Hlast)
      as (added & st1 & Hu & Hd & Hpd & Hrec & Heff & E).
    apply Nat.ltb_lt in Hshort. rewrite Hshort in E.
    exists added, st1. cbn [List.concat]. rewrite app_nil_r.
    split; [exact E|]. split; [exact Hu|]. split; [exact Hd|].
    split; [exact Hpd|]. split; [exact Hrec|].
    rewrite Heff. cbn [feed_effects]. now rewrite app_nil_r.
  - destruct fuel as [|fuel]; [simpl in Hfuel; lia|].
    cbn [app] in *. destruct (serves_head _ _ _ _ Hserves) as (b & Hget & Hb).
    inversion Hproc as [|? ? Hhere Hlater]; subst.
    inversion Hfull as [|? ? Hlen Hfull']; subst.
    destruct (feed_pages_turn fuel page total st b Hget Hhere)
      as (added1 & st1 & Hu & Hd & Hpd & Hrec & Heff & E).
    assert (Hge : (List.length (page_entries b) <? limit) = false)
      by (apply Nat.ltb_ge; exact Hlen).
    rewrite Hge in E.
    set (st2 := {| this := this st1; effects := (effects st1 ++ [Sleep 2000])%list;
                   dates := dates st1 |}).
    assert (Hserves2 : serves w (storeUrl (this st2)) (page + 1) (fulls ++ [lastp])%list).
    { unfold st2. simpl. rewrite Hu. exact (serves_tail _ _ _ _ Hserves). }
    destruct (IH lastp fuel (page + 1) (total + List.length (page_entries b)) st2
                ltac:(lia) Hserves2 Hfull' Hshort Hlater ltac:(simpl in Hfuel; lia))
      as (added2 & st' & E2 & Hu2 & Hd2 & Hpd2 & Hrec2 & Heff2).
    exists (added1 ++ added2)%list, st'.
    pose proof limit_positive as Hpos.
    split.
    + rewrite E. unfold bind at 1. unfold sleep, emit. fold st2. rewrite E2.
      f_equal. f_equal. cbn [List.concat]. rewrite length_app.
      replace (page + 1 =? 1) with false by (symmetry; apply Nat.eqb_neq; lia).
      replace (List.length (page_entries b) + List.length (List.concat (fulls ++ [lastp])%list) =? 0)
        with false by (symmetry; apply Nat.eqb_neq; lia).
      rewrite andb_false_r. cbn [andb].
      now rewrite Nat.add_assoc.
    + split; [rewrite Hu2; exact Hu|]. split; [rewrite Hd2; exact Hd|].
      split; [rewrite Hpd2; unfold st2; simpl; now rewrite Hpd, app_assoc|].
      split.
      * cbn [List.concat]. apply Forall2_app; [exact Hrec|].
        unfold st2 in Hrec2. simpl in Hrec2. now rewrite Hu in Hrec2.
      * rewrite Heff2. unfold st2. simpl. rewrite Heff, Hu.
        cbn [feed_effects].
        destruct (fulls ++ [lastp])%list eqn:Epages;
          [now destruct fulls|].
        rewrite <- !app_assoc. reflexivity.
Qed.

(** A loop over entries that returns has processed every entry. *)
Lemma entries_return (products : list Feed.product) : forall st st',
  for_of products (feed_entry w) st = (Return tt, st') ->
  exists added,
    productsData (this st') = (productsData (this st) ++ added)%list /\
    List.length added = List.length products.
Proof.
  induction products as [|p ps IH]; intros st st'.
  - intros [= <-]. exists []. now rewrite app_nil_r.
  - cbn [for_of]. destruct (processable p) eqn:Hp.
    + destruct (feed_entry_run p st Hp) as (r & E & _).
      rewrite (bind_Return _ _ _ _ _ E). intros H.
      destruct (IH _ _ H) as (added & Hpd & Hlen).
      exists (r :: added). simpl in *. split; [|now rewrite Hlen].
      now rewrite Hpd, <- app_assoc.
    + destruct (feed_entry_throws p st Hp) as (e & st1 & E & _).
      rewrite (bind_Throw _ _ _ _ _ E). discriminate.
Qed.

Lemma feed_pages_return (fuel : nat) : forall page total st ok st',
  feed_pages w fuel page total st = (Return ok, st') ->
  exists added,
    productsData (this st') = (productsData (this st) ++ added)%list /\
    (ok = true -> 0 < total + List.length added).
Proof.
  induction fuel as [|fuel IH]; intros page total st ok st'; [discriminate|].
  rewrite feed_pages_step. cbv zeta.
  set (u := feed_url (storeUrl (this st)) page).
  assert (Hempty : (if page =? 1 then ret false else ret (0 <? total))
                     (after_get st u) = (Return ok, st') ->
                   exists added,
                     productsData (this st') = (productsData (this st) ++ added)%list /\
                     (ok = true -> 0 < total + List.length added)).
  { intros H. exists []. rewrite app_nil_r.
    destruct (page =? 1); injection H as <- <-; (split; [reflexivity|]);
      [discriminate|]. intros H. apply Nat.ltb_lt in H. simpl. lia. }
  destruct (http_get w u) as [m|b]; [discriminate|].
  destruct (data_products b) as [[|p ps]|]; [exact Hempty| |exact Hempty].
  destruct (for_of (p :: ps) (feed_entry w) (after_get st u))
    as [[[]|e|] st1] eqn:E.
  - rewrite (bind_Return _ _ _ _ _ E).
    destruct (entries_return _ _ _ E) as (added1 & Hpd1 & Hlen1).
    simpl in Hpd1.
    destruct (List.length (p :: ps) <? limit).
    + intros [= <- <-]. exists added1. split; [exact Hpd1|].
      intros H. apply Nat.ltb_lt in H. rewrite Hlen1. exact H.
    + unfold bind at 1. unfold sleep, emit. intros H.
      destruct (IH _ _ _ _ _ H) as (added2 & Hpd2 & Hok).
      exists (added1 ++ added2)%list. simpl in Hpd2.
      split; [now rewrite Hpd2, Hpd1, app_assoc|].
      intros Ht. specialize (Hok Ht). rewrite length_app. lia.
  - rewrite (bind_Throw _ _ _ _ _ E). discriminate.
  - unfold bind. rewrite E. discriminate.
Qed.

End Feed.
End FeedFacts.
Import FeedFacts.

(** X19. A feed of full pages that ends in a page with fewer than 250
    entries, all entries processable: [scrapeViaApi] reads every page within
    one unit of fuel per page and returns whether there was any entry; it
    adds one record per entry, in the order of the feed, each built from its
    entry -- its images are the entry's image sources, the falsy ones
    dropped, "https:" put in front of those that do not begin with "http"
    -- and its effects are, page by page, the request, a pause of 500 ms per
    entry, and a pause of 2000 ms before the next page. *)
Theorem feed_run_complete
        (w : world) (fuel : nat) (st : state)
        (fulls : list (list Feed.product)) (lastp : list Feed.product) :
  let base := storeUrl (this st) in
  let pages := (fulls ++ [lastp])%list in
  serves w base 1 pages ->
  Forall (fun entries => limit <= List.length entries) fulls ->
  List.length lastp < limit ->
  Forall (Forall (fun p => processable p = true)) pages ->
  List.length fulls < fuel ->
  exists added st',
    scrapeViaApi w fuel st = (Return (0 <? List.length (List.concat pages)), st') /\
    productsData (this st') = (productsData (this st) ++ added)%list /\
    Forall2 (feed_record_of base) (List.concat pages) added /\
    effects st' = (effects st ++ feed_effects base 1 pages)%list.
Proof.
  intros base pages Hserves Hfull Hshort Hproc Hfuel.
  destruct (feed_pages_run w fulls lastp fuel 1 0 st (le_n 1)
              Hserves Hfull Hshort Hproc Hfuel)
    as (added & st' & E & _ & _ & Hpd & Hrec & Heff).
  exists added, st'. unfold scrapeViaApi, try_catch. rewrite E.
  split; [|now repeat split].
  f_equal. f_equal. fold pages. simpl.
  now destruct (List.length (List.concat pages)).
Qed.

(** The feed of 250 and 3 mugs. *)
Lemma feed_run_complete_witness :
  exists added st',
    scrapeViaApi two_page_store 2 (start "https://shop.example" "out")
    = (Return true, st') /\
    productsData (this st') = added /\
    List.length added = 253 /\
    effects st'
    = ((Get "https://shop.example/products.json?page=1&limit=250"
          :: repeat (Sleep 500) 250)
       ++ Sleep 2000
       :: Get "https://shop.example/products.json?page=2&limit=250"
       :: repeat (Sleep 500) 3)%list.
Proof.
  assert (Hserves : serves two_page_store "https://shop.example" 1
                      ([repeat mug 250] ++ [repeat mug 3])%list).
  { intros i entries. destruct i as [|[|i]]; simpl nth_error.
    - intros [= <-]. eexists. split; reflexivity.
    - intros [= <-]. eexists. split; reflexivity.
    - destruct i; discriminate. }
  assert (Hmugs : forall n, Forall (fun p => processable p = true) (repeat mug n)).
  { intros n. apply Forall_forall. intros p Hp.
    apply repeat_spec in Hp. now subst. }
  destruct (feed_run_complete two_page_store 2
              (start "https://shop.example" "out")
              [repeat mug 250] (repeat mug 3)
              Hserves
              ltac:(constructor; [rewrite repeat_length; unfold limit; lia | constructor])
              ltac:(rewrite repeat_length; unfold limit; lia)
              ltac:(repeat constructor; apply Hmugs)
              ltac:(simpl; lia))
    as (added & st' & E & Hpd & Hrec & Heff).
  exists added, st'. split; [exact E|]. split; [exact Hpd|].
  split.
  - rewrite <- (Forall2_length Hrec). reflexivity.
  - exact Heff.
Defined.

(** X20. An entry of the first feed page that cannot be processed (its
    description or an image source is truthy and no string) ends the feed
    strategy: [scrapeViaApi] returns [false] with the records of the entries
    in front of it added; the entries behind it and the later pages are
    never read. *)
Theorem feed_entry_error_ends_feed
        (w : world) (fuel : nat) (st : state) (b : body)
        (good : list Feed.product) (bad : Feed.product)
        (rest : list Feed.product) :
  let base := storeUrl (this st) in
  http_get w (feed_url base 1) = Ok b ->
  data_products b = Some (good ++ bad :: rest)%list ->
  Forall (fun p => processable p = true) good ->
  processable bad = false ->
  0 < fuel ->
  exists added st',
    scrapeViaApi w fuel st = (Return false, st') /\
    productsData (this st') = (productsData (this st) ++ added)%list /\
    Forall2 (feed_record_of base) good added /\
    effects st'
    = (effects st ++ Get (feed_url base 1)
         :: repeat (Sleep 500) (List.length good))%list.
Proof.
  intros base Hget Hdata Hgood Hbad Hfuel.
  destruct fuel as [|fuel]; [lia|].
  destruct (entries_abort w good bad rest (after_get st (feed_url base 1)) Hgood Hbad)
    as (e & added & st' & E & Hpd & Hrec & Heff).
  exists added, st'. split.
  - apply (scrapeViaApi_catches w (S fuel) st e).
    rewrite feed_pages_step. cbv zeta. fold base. rewrite Hget, Hdata.
    destruct (good ++ bad :: rest)%list as [|p ps] eqn:El;
      [now destruct good|].
    now rewrite (bind_Throw _ _ _ _ _ E).
  - split; [exact Hpd|]. split; [exact Hrec|].
    rewrite Heff. simpl. now rewrite <- app_assoc.
Qed.

(** A page whose second entry has a number as image source. *)
Lemma feed_entry_error_ends_feed_witness :
  exists added st',
    scrapeViaApi flawed_store 1 (start "https://shop.example" "out")
    = (Return false, st') /\
    productsData (this st') = added /\
    List.length added = 1 /\
    effects st'
    = [Get "https://shop.example/products.json?page=1&limit=250"; Sleep 500].
Proof.
  destruct (feed_entry_error_ends_feed flawed_store 1
              (start "https://shop.example" "out")
              {| data_products := Some [mug; numbered_image_entry; mug];
                 dom := no_document |}
              [mug] numbered_image_entry [mug]
              eq_refl eq_refl ltac:(repeat constructor) eq_refl ltac:(lia))
    as (added & st' & E & Hpd & Hrec & Heff).
  exists added, st'. split; [exact E|]. split; [exact Hpd|].
  split; [now rewrite <- (Forall2_length Hrec) | exact Heff].
Defined.

(** X21. When [scrapeViaApi] returns [true] it has added at least one
    record. *)
Theorem scrapeViaApi_success_has_records
        (w : world) (fuel : nat) (st st' : state) :
  scrapeViaApi w fuel st = (Return true, st') ->
  exists r added,
    productsData (this st') = (productsData (this st) ++ r :: added)%list.
Proof.
  unfold scrapeViaApi, try_catch.
  destruct (feed_pages w fuel 1 0 st) as [[ok|e|] st1] eqn:E;
    [|discriminate|discriminate].
  intros [= -> ->].
  destruct (feed_pages_return w fuel 1 0 st true st' E) as (added & Hpd & Hok).
  specialize (Hok eq_refl). destruct added as [|r added]; [simpl in Hok; lia|].
  now exists r, added.
Qed.

(** A feed of three mugs. *)
Lemma scrapeViaApi_success_has_records_witness :
  exists r added,
    productsData
      (this (snd (scrapeViaApi (one_page_store 3) 1
                    (start "https://shop.example" "out"))))
    = r :: added.
Proof.
  refine (scrapeViaApi_success_has_records (one_page_store 3) 1
            (start "https://shop.example" "out") _ _).
  vm_compute. reflexivity.
Defined.

Module LoopFacts.
Section Loop.
Variable w : world.

(** A feed that answers every page with a full page outlasts any fuel. *)
Lemma feed_pages_endless (fuel : nat) : forall page total st,
  (forall i, full_page w (storeUrl (this st)) (page + i)) ->
  exists added st',
    feed_pages w fuel page total st = (OutOfFuel, st') /\
    productsData (this st') = (productsData (this st) ++ added)%list /\
    limit * fuel <= List.length added.
Proof.
  induction fuel as [|fuel IH]; intros page total st Hfull.
  - exists [], st. rewrite app_nil_r. repeat split. simpl. lia.
  - destruct (Hfull 0) as (b & Hget & Hlen & Hproc).
    rewrite Nat.add_0_r in Hget.
    destruct (feed_pages_full w fuel page total st b Hget Hlen Hproc)
      as (added1 & st1 & E & Hu & _ & Hpd & Hl & _).
    destruct (IH (page + 1) (total + List.length (page_entries b)) st1)
      as (added2 & st' & E2 & Hpd2 & Hl2).
    { intros i. rewrite Hu. replace (page + 1 + i) with (page + S i) by lia.
      apply Hfull. }
    exists (added1 ++ added2)%list, st'. rewrite E.
    split; [exact E2|]. split; [now rewrite Hpd2, Hpd, app_assoc|].
    rewrite length_app. lia.
Qed.

End Loop.
End LoopFacts.
Import LoopFacts.

(** X22. A feed that answers every page number with a full page of
    processable entries keeps the loop of [scrapeViaApi] going for ever:
    whatever the fuel, the strategy -- and with it [scrape] -- has not
    returned when the fuel is used up, and the list has grown by 250 records
    per unit of fuel. *)
Theorem endless_feed_never_returns (w : world) (st : state) :
  (forall i, full_page w (storeUrl (this st)) (1 + i)) ->
  forall fuel,
    fst (scrapeViaApi w fuel st) = OutOfFuel /\
    fst (scrape w fuel st) = OutOfFuel /\
    limit * fuel
    <= List.length (productsData (this (snd (scrapeViaApi w fuel st)))).
Proof.
  intros Hfull fuel.
  destruct (feed_pages_endless w fuel 1 0 st Hfull) as (added & st' & E & Hpd & Hl).
  assert (Eapi : scrapeViaApi w fuel st = (OutOfFuel, st'))
    by (unfold scrapeViaApi, try_catch; now rewrite E).
  split; [now rewrite Eapi|]. split.
  - unfold scrape, try_catch, scrape_try, bind. now rewrite Eapi.
  - rewrite Eapi. cbn [snd]. rewrite Hpd, length_app. lia.
Qed.

(** The store that answers every page with the same 250 mugs, after
    1000 pages. *)
Lemma endless_feed_never_returns_witness :
  fst (scrapeViaApi endless_store 1000 (start "https://shop.example" "out"))
  = OutOfFuel /\
  fst (scrape endless_store 1000 (start "https://shop.example" "out"))
  = OutOfFuel /\
  limit * 1000
  <= List.length
       (productsData
          (this (snd (scrapeViaApi endless_store 1000
                        (start "https://shop.example" "out"))))).
Proof.
  refine (endless_feed_never_returns endless_store
            (start "https://shop.example" "out") _ 1000).
  intros i. eexists. split; [reflexivity|]. split.
  - unfold page_entries. cbn [data_products]. rewrite repeat_length.
    unfold limit. lia.
  - unfold page_entries. cbn [data_products]. apply Forall_forall.
    intros p Hp. apply repeat_spec in Hp. now subst.
Defined.

(** ** Whole runs *)

Module InvariantFacts.

Lemma follows_refl (st : state) : follows st st.
Proof.
  repeat split; exists []; rewrite app_nil_r; split; auto.
Qed.

Lemma follows_trans (a b c : state) : follows a b -> follows b c -> follows a c.
Proof.
  intros (Hu & Hd & (x & Hx & Px) & (r & Hr & Pr))
         (Hu' & Hd' & (y & Hy & Py) & (s & Hs & Ps)).
  rewrite Hu in Py, Ps.
  split; [congruence|]. split; [congruence|]. split.
  - exists (x ++ y)%list. split; [now rewrite Hy, Hx, app_assoc|].
    apply Forall_app. now split.
  - exists (r ++ s)%list. split; [now rewrite Hs, Hr, app_assoc|].
    apply Forall_app. now split.
Qed.

Lemma follows_effect (st : state) (e : effect) :
  (forall u, e = Get u -> request_ok (storeUrl (this st)) u) ->
  follows st (snd (emit e st)).
Proof.
  intros He. unfold emit. simpl. split; [reflexivity|]. split; [reflexivity|].
  split; [exists []; rewrite app_nil_r; split; auto|].
  simpl. rewrite requests_app. destruct e as [u|ms|d f c]; simpl.
  - exists [u]. split; [reflexivity|]. constructor; [now apply He | constructor].
  - exists []. split; [reflexivity | constructor].
  - exists []. split; [reflexivity | constructor].
Qed.

Lemma follows_sleep (w : world) (st : state) (ms : nat) :
  follows st (snd (sleep ms st)).
Proof. apply follows_effect. discriminate. Qed.

Lemma follows_push (st : state) (r : productData) :
  record_ok (storeUrl (this st)) r -> follows st (snd (push r st)).
Proof.
  intros Hr. unfold push. simpl. split; [reflexivity|]. split; [reflexivity|].
  split.
  - exists [r]. simpl. split; [reflexivity|]. now constructor.
  - exists []. simpl. rewrite app_nil_r. split; [reflexivity | constructor].
Qed.

Lemma follows_now (w : world) (st : state) : follows st (snd (now w st)).
Proof.
  unfold now. simpl. repeat split; exists []; rewrite app_nil_r; split; auto.
Qed.

Lemma follows_lift {A} (e : string) (o : option A) (st : state) :
  follows st (snd (lift e o st)).
Proof. destruct o; apply follows_refl. Qed.

Lemma follows_axios_get (w : world) (u : string) (st : state) :
  request_ok (storeUrl (this st)) u -> follows st (snd (axios_get w u st)).
Proof.
  intros Hu. unfold axios_get, bind.
  pose proof (follows_effect st (Get u)) as H. unfold emit in *. simpl in *.
  destruct (http_get w u); simpl; apply H; now intros ? [= <-].
Qed.

(** Sequencing keeps the relation. *)
Lemma follows_bind {A B} (m : M A) (k : A -> M B) (st : state) :
  follows st (snd (m st)) ->
  (forall a st1, m st = (Return a, st1) -> follows st1 (snd (k a st1))) ->
  follows st (snd (bind m k st)).
Proof.
  intros Hm Hk. unfold bind. destruct (m st) as [[a|e|] st1] eqn:E; simpl in *.
  - exact (follows_trans _ _ _ Hm (Hk a st1 eq_refl)).
  - exact Hm.
  - exact Hm.
Qed.

Lemma follows_try_catch {A} (m : M A) (h : string -> M A) (st : state) :
  follows st (snd (m st)) ->
  (forall e st1, follows st1 (snd (h e st1))) ->
  follows st (snd (try_catch m h st)).
Proof.
  intros Hm Hh. unfold try_catch. destruct (m st) as [[a|e|] st1] eqn:E; simpl in *.
  - exact Hm.
  - exact (follows_trans _ _ _ Hm (Hh e st1)).
  - exact Hm.
Qed.

Lemma follows_for_of {A} (xs : list A) (body : A -> M unit)
      (P : state -> A -> Prop) :
  (forall st st' x, follows st st' -> P st x -> P st' x) ->
  (forall st x, P st x -> follows st (snd (body x st))) ->
  forall st, Forall (P st) xs -> follows st (snd (for_of xs body st)).
Proof.
  intros Hmono Hbody. induction xs as [|x xs IH]; intros st Hall.
  - apply follows_refl.
  - inversion Hall as [|? ? Hx Hxs]; subst. cbn [for_of].
    apply follows_bind; [now apply Hbody|].
    intros [] st1 E. apply IH.
    assert (Hf : follows st st1).
    { pose proof (Hbody st x Hx) as H. now rewrite E in H. }
    eapply Forall_impl; [|exact Hxs]. intros y. now apply Hmono.
Qed.

Section Tiers.
Variable w : world.

Lemma follows_feed_entry (product : Feed.product) (st : state) :
  follows st (snd (feed_entry w product st)).
Proof.
  unfold feed_entry.
  rewrite (bind_Return self _ st st (this st) eq_refl).
  apply follows_bind; [apply follows_lift|]. intros d st1 Ed.
  assert (Hd : trim d = d /\ st1 = st).
  { unfold lift in Ed. destruct (cleanDescription _) as [d'|] eqn:E;
      [|discriminate]. injection Ed as -> ->.
    split; [exact (cleanDescription_trimmed _ _ E) | reflexivity]. }
  destruct Hd as [Hd ->].
  apply follows_bind; [apply follows_now|]. intros stamp st2 Es.
  assert (Hst2 : storeUrl (this st2) = storeUrl (this st))
    by (unfold now in Es; now injection Es as _ <-).
  apply follows_bind; [apply follows_lift|]. intros r st3 Er.
  assert (Hr : record_ok (storeUrl (this st3)) r).
  { unfold lift, normalizeImageUrls in Er. cbn [images] in Er.
    destruct (map_or_throw normalizeImageUrl _) as [urls|]; [|discriminate].
    injection Er as <- <-. rewrite Hst2. unfold record_ok. simpl.
    split; [exact Hd|]. split; [apply product_url_ok | apply url_under_base]. }
  apply follows_bind; [now apply follows_push|].
  intros [] st4 _. apply (follows_sleep w).
Qed.

Lemma follows_entries (products : list Feed.product) (st : state) :
  follows st (snd (for_of products (feed_entry w) st)).
Proof.
  apply (follows_for_of products (feed_entry w) (fun _ _ => True)); auto.
  - intros. apply follows_feed_entry.
  - now apply Forall_forall.
Qed.

Lemma follows_feed_pages (fuel : nat) : forall page total st,
  follows st (snd (feed_pages w fuel page total st)).
Proof.
  induction fuel as [|fuel IH]; intros page total st; [apply follows_refl|].
  cbn [feed_pages].
  rewrite (bind_Return self _ st st (this st) eq_refl).
  apply follows_bind; [apply follows_axios_get, url_under_base|].
  intros response st1 _.
  destruct (data_products response) as [[|p ps]|].
  - destruct (page =? 1); apply follows_refl.
  - apply follows_bind; [apply follows_entries|]. intros [] st2 _.
    destruct (List.length (p :: ps) <? limit); [apply follows_refl|].
    apply follows_bind; [apply (follows_sleep w)|]. intros [] st3 _. apply IH.
  - destruct (page =? 1); apply follows_refl.
Qed.

Lemma follows_scrapeViaApi (fuel : nat) (st : state) :
  follows st (snd (scrapeViaApi w fuel st)).
Proof.
  unfold scrapeViaApi. apply follows_try_catch; [apply follows_feed_pages|].
  intros e st1. apply follows_refl.
Qed.

(** A link the markup tier may visit. *)
Lemma follows_scrapeProductPage (u : string) (st : state) :
  includes u "/products/" = true -> request_ok (storeUrl (this st)) u ->
  follows st (snd (scrapeProductPage w u st)).
Proof.
  intros Hinc Hreq. unfold scrapeProductPage.
  apply follows_try_catch; [|intros; apply follows_refl].
  assert (Hbase : forall b st1, axios_get w u st = (Return b, st1) ->
                                storeUrl (this st1) = storeUrl (this st)).
  { intros b st1. unfold axios_get, bind, emit.
    destruct (http_get w u); [discriminate|]. now intros [= _ <-]. }
  apply follows_bind; [now apply follows_axios_get|].
  intros response st1 E1. specialize (Hbase _ _ E1).
  destruct (find_structured (dom response)) as [sd|].
  - apply follows_bind.
    + unfold structured_record. apply follows_bind; [apply follows_lift|].
      intros d st2 _. apply follows_bind; [apply follows_now|].
      intros stamp st3 _. apply follows_refl.
    + intros r st2 Er. apply follows_bind; [|intros; apply follows_refl].
      apply follows_push.
      unfold structured_record, bind, lift in Er.
      destruct (cleanDescription _) as [d|] eqn:Ed; [|discriminate].
      unfold ret, now in Er. simpl in Er. injection Er as <- <-. simpl.
      rewrite Hbase. unfold record_ok. simpl.
      split; [exact (cleanDescription_trimmed _ _ Ed)|]. now split.
  - apply follows_bind.
    + unfold markup_record. apply follows_bind; [apply follows_lift|].
      intros d st2 _. apply follows_bind; [apply follows_now|].
      intros stamp st3 _. apply follows_refl.
    + intros r st2 Er. apply follows_push.
      unfold markup_record, bind, lift in Er.
      destruct (cleanDescription _) as [d|] eqn:Ed; [|discriminate].
      unfold ret, now in Er. simpl in Er. injection Er as <- <-. simpl.
      rewrite Hbase. unfold record_ok. simpl.
      split; [exact (cleanDescription_trimmed _ _ Ed)|]. now split.
Qed.

Lemma follows_scrapeViaHtml (st : state) :
  follows st (snd (scrapeViaHtml w st)).
Proof.
  unfold scrapeViaHtml. apply follows_try_catch; [|intros; apply follows_refl].
  rewrite (bind_Return self _ st st (this st) eq_refl).
  apply follows_bind; [apply follows_axios_get, url_under_base|].
  intros response st1 E1.
  assert (Hbase : storeUrl (this st1) = storeUrl (this st)).
  { revert E1. unfold axios_get, bind, emit.
    destruct (http_get w _); [discriminate|]. now intros [= _ <-]. }
  apply follows_bind; [|intros; apply follows_refl].
  apply (follows_for_of _ _
           (fun s u => includes u "/products/" = true /\
                       request_ok (storeUrl (this s)) u)).
  - intros s s' u (Hs & _) Hu. now rewrite Hs.
  - intros s u [Hinc Hreq].
    apply follows_bind; [now apply follows_scrapeProductPage|].
    intros [] s1 _. apply (follows_sleep w).
  - rewrite Hbase. apply product_links_ok.
Qed.

Lemma follows_saveProductsData (st : state) :
  follows st (snd (saveProductsData w st)).
Proof.
  unfold saveProductsData.
  rewrite (bind_Return self _ st st (this st) eq_refl).
  destruct (write_error w); [apply follows_refl|].
  apply follows_effect. discriminate.
Qed.

Lemma follows_scrape (fuel : nat) (st : state) :
  follows st (snd (scrape w fuel st)).
Proof.
  unfold scrape. apply follows_try_catch; [|intros; apply follows_refl].
  unfold scrape_try.
  apply follows_bind; [apply follows_scrapeViaApi|]. intros ok st1 _.
  apply follows_bind.
  - destruct ok; simpl; [apply follows_refl | apply follows_scrapeViaHtml].
  - intros _ st2 _. apply follows_bind; [apply follows_saveProductsData|].
    intros [] st3 _.
    rewrite (bind_Return self _ st3 st3 (this st3) eq_refl). apply follows_refl.
Qed.

Lemma saveProductsData_ok (st : state) :
  write_error w = None -> saveProductsData w st = (Return tt, after_save st).
Proof.
  intros H. unfold saveProductsData.
  rewrite (bind_Return self _ st st (this st) eq_refl). now rewrite H.
Qed.

End Tiers.
End InvariantFacts.
Import InvariantFacts.

(** X23. Whatever the world and however the run ends, [scrape] only adds
    to the list of records, and every record it adds has a description
    without white space at its ends and a URL that contains "/products/". *)
Theorem scrape_records_well_formed (w : world) (fuel : nat) (st : state) :
  exists added,
    productsData (this (snd (scrape w fuel st)))
    = (productsData (this st) ++ added)%list /\
    Forall (fun r => trim (description r) = description r /\
                     includes (url r) "/products/" = true) added.
Proof.
  destruct (follows_scrape w fuel st) as (_ & _ & (added & Hpd & Hall) & _).
  exists added. split; [exact Hpd|].
  eapply Forall_impl; [|exact Hall]. intros r (H1 & H2 & _). now split.
Qed.

(** X24. In a run of a newly constructed scraper every URL requested
    and the URL of every record begin with "http". *)
Theorem run_urls_absolute (w : world) (fuel : nat) (u dir : string) :
  let st' := snd (scrape w fuel (start u dir)) in
  Forall (fun v => startsWith v "http" = true) (requests (effects st')) /\
  Forall (fun r => startsWith (url r) "http" = true) (productsData (this st')).
Proof.
  cbv zeta.
  destruct (follows_scrape w fuel (start u dir))
    as (_ & _ & (added & Hpd & Hall) & (reqs & Hreqs & Hr)).
  pose proof (new_ShopifyScraper_http u dir) as Hbase.
  rewrite Hpd, Hreqs. simpl. split.
  - eapply Forall_impl; [|exact Hr]. intros v Hv. now apply Hv.
  - eapply Forall_impl; [|exact Hall]. intros r (_ & _ & H). now apply H.
Qed.

(** X25. How [scrape] composes its parts when the disk takes the write:
    after a successful feed strategy nothing more is requested, after a
    failed one the markup strategy runs from the state the feed left; then
    the list is written, and the list written is the list returned. *)
Theorem scrape_after_feed
        (w : world) (fuel : nat) (st : state) (ok : bool) (st1 : state) :
  scrapeViaApi w fuel st = (Return ok, st1) ->
  write_error w = None ->
  let st2 := if ok then st1 else snd (scrapeViaHtml w st1) in
  scrape w fuel st = (Return (productsData (this st2)), after_save st2).
Proof.
  intros Hapi Hdisk st2. unfold scrape, try_catch, scrape_try.
  rewrite (bind_Return _ _ _ _ _ Hapi).
  assert (E : (if negb ok then scrapeViaHtml w else ret true) st1
              = (Return true, st2) \/
              (if negb ok then scrapeViaHtml w else ret true) st1
              = (Return false, st2)).
  { unfold st2. destruct ok; simpl; [now left|].
    destruct (scrapeViaHtml_returns w st1) as ([] & st' & ->); auto. }
  destruct E as [E | E]; rewrite (bind_Return _ _ _ _ _ E);
    now rewrite (bind_Return _ _ _ _ _ (saveProductsData_ok w st2 Hdisk)).
Qed.

(** The feed of three mugs: no request follows the feed's. *)
Lemma scrape_after_feed_witness :
  let st1 := snd (scrapeViaApi (one_page_store 3) 1
                    (start "https://shop.example" "out")) in
  scrape (one_page_store 3) 1 (start "https://shop.example" "out")
  = (Return (productsData (this st1)), after_save st1).
Proof.
  refine (scrape_after_feed (one_page_store 3) 1
            (start "https://shop.example" "out") true _ _ eq_refl).
  vm_compute. reflexivity.
Defined.

(** X26. What [scrape] returns is either the list of records, which it
    has just written to [products_data.json] in the output directory as the
    last effect of the run, or the empty list after a failed write. *)
Theorem scrape_returns_what_it_saved
        (w : world) (fuel : nat) (st : state)
        (out : list productData) (st' : state) :
  scrape w fuel st = (Return out, st') ->
  (out = productsData (this st') /\
   exists before,
     effects st'
     = (before ++ [WriteFile (outputDir (this st)) "products_data.json" out])%list)
  \/ (out = [] /\ exists e, write_error w = Some e).
Proof.
  unfold scrape, try_catch.
  destruct (scrape_try w fuel st) as [[out'|e|] st1] eqn:E.
  - intros [= -> ->]. left. revert E. unfold scrape_try.
    pose proof (follows_scrapeViaApi w fuel st) as Hf1.
    unfold bind at 1.
    destruct (scrapeViaApi w fuel st) as [[ok|e|] s1]; try discriminate.
    simpl in Hf1.
    assert (Hf2 : follows s1 (snd ((if negb ok then scrapeViaHtml w else ret true) s1)))
      by (destruct ok; simpl; [apply follows_refl | apply follows_scrapeViaHtml]).
    unfold bind at 1.
    destruct ((if negb ok then scrapeViaHtml w else ret true) s1)
      as [[b|e|] s2]; try discriminate.
    simpl in Hf2.
    destruct (follows_trans _ _ _ Hf1 Hf2) as (_ & Hd & _).
    unfold saveProductsData, bind, self.
    destruct (write_error w); [discriminate|].
    unfold emit, ret. intros [= <- <-]. simpl. split; [reflexivity|].
    exists (effects s2). now rewrite Hd.
  - intros [= <- <-]. right. split; [reflexivity|].
    destruct (scrape_try_throws w fuel st e st1 E) as [He _]. eauto.
  - discriminate.
Qed.

(** Three mugs, written and returned. *)
Lemma scrape_returns_what_it_saved_witness :
  let run := scrape (one_page_store 3) 1 (start "https://shop.example" "out") in
  exists out before,
    fst run = Return out /\
    List.length out = 3 /\
    effects (snd run) = (before ++ [WriteFile "out" "products_data.json" out])%list.
Proof.
  cbv zeta.
  set (run := scrape (one_page_store 3) 1 (start "https://shop.example" "out")).
  assert (Hrun : run = (Return (productsData (this (snd run))), snd run))
    by (vm_compute; reflexivity).
  destruct (scrape_returns_what_it_saved (one_page_store 3) 1
              (start "https://shop.example" "out") _ _ Hrun)
    as [[_ [before Hb]] | [_ [e He]]]; [|discriminate He].
  exists (productsData (this (snd run))), before.
  split; [now rewrite Hrun at 1|]. split; [vm_compute; reflexivity | exact Hb].
Defined.
